(** * Network synchronisation core of parallelcoin (pod)

    A shallow embedding of three Go components and the properties
    established about them:

    - [Control]: the mining controller of
      [cmd/kopach/control/controller.go] (wallet watcher back-off,
      [updateAndSendWork]);
    - [ConnMgr]: the dispatch loop of the connection manager
      ([package connmgr]);
    - [NetSync]: the handlers of the sync manager of
      [pkg/netsync/manager.go].

    Go maps are [gmap]/[gset]; Go [int32]/[int64] values are [Z] with the
    wrap-around written out where the code can reach it; calls on
    external collaborators (peers, chain, mempool, multicast channel)
    are either oracles passed as parameters or entries of an event
    log, in program order. *)

From Stdlib Require Import ZArith Lia String.
From stdpp Require Import list gmap strings.

#[local] Set Warnings "-clear-no-such-hyp".

Local Open Scope Z_scope.

(** Two's-complement wrap-around of Go's fixed-width signed integers. *)
Definition wrap (bits : Z) (z : Z) : Z :=
  (z + 2 ^ (bits - 1)) mod 2 ^ bits - 2 ^ (bits - 1).
Definition wrap32 : Z -> Z := wrap 32.
Definition wrap64 : Z -> Z := wrap 64.

(** A Go call either returns or panics. *)
Inductive Result (A : Type) : Type :=
| Ok (a : A)
| Panic.
Arguments Ok {A} a.
Arguments Panic {A}.

#[global] Instance Result_ret : MRet Result := fun A a => Ok a.
#[global] Instance Result_bind : MBind Result := fun A B k r =>
  match r with
  | Ok a => k a
  | Panic => Panic
  end.
#[global] Instance Result_fmap : FMap Result := fun A B f r =>
  match r with
  | Ok a => Ok (f a)
  | Panic => Panic
  end.

(* ===================================================================== *)
(** * The mining controller *)
(* ===================================================================== *)

Module Control.

(** [time.Duration] counts nanoseconds in an [int64]. *)
Definition Second : Z := 1000000000.
Definition Minute : Z := 60 * Second.

(** ** walletRPCWatcher

    The watcher is a loop around blocking calls; it is embedded as a
    transition function over the outcomes of those calls.  [Trying] is
    the head of the [trying] loop, [Sleeping] the [select] on
    [time.After(backoffTime)] and [c.quit], [Connected] the [connected]
    loop, [Exited] is after [break totalOut]. *)
Inductive Phase := Trying | Sleeping | Connected | Exited.

Inductive Input :=
| InKillAll                       (* <-c.cx.KillAll.Wait() is ready *)
| InDial (failed : bool)          (* rpcclient.New returned; Check(err) *)
| InTimer                         (* <-time.After(backoffTime) *)
| InQuit                          (* <-c.quit.Wait() *)
| InTick (disconnected : bool).   (* <-retryTicker.C; walletClient.Disconnected() *)

Record Watcher := mkWatcher {
  phase : Phase;
  backoffTime : Z;
  isMining : bool;
  sleeps : list Z      (* the arguments of time.After, oldest first *)
}.

(** [backoffTime := time.Second] on entry; [c.isMining.Store(true)] is
    done by [Run] before the goroutine starts. *)
Definition walletRPCWatcher_init : Watcher :=
  mkWatcher Trying Second true [].

Definition walletRPCWatcher_step (w : Watcher) (i : Input) : Watcher :=
  match phase w, i with
  | Trying, InKillAll =>
      mkWatcher Exited (backoffTime w) (isMining w) (sleeps w)
  | Trying, InDial true =>
      mkWatcher Sleeping (backoffTime w) false (sleeps w ++ [backoffTime w])
  | Trying, InDial false =>
      mkWatcher Connected Second true (sleeps w)
  | Sleeping, InTimer =>
      mkWatcher Trying
        (if backoffTime w <=? Second * 5
         then backoffTime w + Second else backoffTime w)
        (isMining w) (sleeps w)
  | Sleeping, InQuit =>
      mkWatcher Exited (backoffTime w) false (sleeps w)
  | Connected, InTick true =>
      mkWatcher Trying (backoffTime w) false (sleeps w)
  | Connected, InTick false => w
  | Connected, InQuit =>
      mkWatcher Exited (backoffTime w) false (sleeps w)
  | _, _ => w
  end.

Definition walletRPCWatcher_run (w : Watcher) (ins : list Input) : Watcher :=
  fold_left walletRPCWatcher_step ins w.

(** [k] consecutive failed connection attempts, each followed by the
    expiry of its timer. *)
Fixpoint failures (k : nat) : list Input :=
  match k with
  | O => []
  | S k' => failures k' ++ [InDial true; InTimer]
  end.

(** ** updateAndSendWork *)

(** The dynamic value held by an [atomic.Value] or returned through an
    interface: the watcher stores [int64] Unix nanoseconds; the
    transaction source answers [LastUpdated()] with a value of its own
    type.  Two interface values of different dynamic type are unequal. *)
Inductive GoValue :=
| VNil
| VInt64 (n : Z)
| VTime (unixNano : Z).

Definition GoValue_eqb (a b : GoValue) : bool :=
  match a, b with
  | VNil, VNil => true
  | VInt64 x, VInt64 y => x =? y
  | VTime x, VTime y => x =? y
  | _, _ => false
  end.

Abbreviation Shard := (list Byte.byte).

Record Controller := mkController {
  oldBlocks : option (list Shard);   (* None: Load() is not a [][]byte *)
  lastTxUpdate : GoValue;
  lastGenerated : GoValue
}.

(** What one call reads from outside the controller: the transaction
    source's [LastUpdated()], the three readings of [time.Now()] in
    program order, and the error of the multicast send. *)
Record Env := mkEnv {
  txLastUpdated : GoValue;
  nowAfter : Z;
  nowTxUpdate : Z;
  nowGenerated : Z;
  sendErr : bool
}.

Record Outcome := mkOutcome {
  getNew : bool;                 (* the local flag, when the switch is left *)
  sent : list Shard;             (* argument of SendShards(job.Magic, _) *)
  err : bool;                    (* the returned error is non-nil *)
  after : Controller
}.

(** The third [case] of the switch: [c.lastTxUpdate.Load() !=
    ...LastUpdated() && time.Now().After(time.Unix(0,
    c.lastGenerated.Load().(int64)+int64(time.Minute)))].  The type
    assertion panics on a value that is not an [int64]; it is only
    reached when the first conjunct is true. *)
Definition stale (c : Controller) (e : Env) : Result bool :=
  if negb (GoValue_eqb (lastTxUpdate c) (txLastUpdated e)) then
    match lastGenerated c with
    | VInt64 g => Ok (wrap64 (g + Minute) <? nowAfter e)
    | _ => Panic
    end
  else Ok false.

Definition updateAndSendWork (c : Controller) (e : Env) : Result Outcome :=
  (* oB, ok := c.oldBlocks.Load().([][]byte) *)
  let oB := match oldBlocks c with Some b => b | None => [] end in
  flagged ←
    match oldBlocks c with
    | None => Ok (true, c)
    | Some b =>
        if (length b =? 0)%nat then Ok (true, c)
        else
          st ← stale c e;
          if (st : bool) then
            Ok (true, mkController (oldBlocks c)
                        (VInt64 (nowTxUpdate e)) (VInt64 (nowGenerated e)))
          else Ok (false, c)
    end;
  let '(gn, c1) := flagged in
  (* if getNew { /* the call of GetTemplateMessageShards is commented out */ } *)
  (* err = c.SendShards(job.Magic, oB); c.oldBlocks.Store(oB) *)
  Ok (mkOutcome gn oB (sendErr e)
        (mkController (Some oB) (lastTxUpdate c1) (lastGenerated c1))).

(** The staleness policy in the words of the specification: regenerate
    when there is no cached template, or it is empty, or the mempool's
    last-update time stamp differs from the recorded one and more than
    one minute has passed since [g], the time of the last generation. *)
Definition getNew_policy (c : Controller) (e : Env) (g : Z) : bool :=
  match oldBlocks c with
  | None => true
  | Some [] => true
  | Some (_ :: _) =>
      negb (GoValue_eqb (lastTxUpdate c) (txLastUpdated e))
      && (wrap64 (g + Minute) <? nowAfter e)
  end.

(** Case (c) of the staleness policy: a cached template of one shard
    generated at time 0, a transaction source that has moved since, and
    a clock two minutes later. *)
Definition stale_controller : Controller :=
  mkController (Some [[Byte.x01; Byte.x02]]) (VInt64 0) (VInt64 0).

Definition stale_env : Env :=
  mkEnv (VInt64 5) (2 * Minute) (2 * Minute + 1) (2 * Minute + 2) false.

(** What every state of the watcher satisfies. *)
Definition watcher_ok (w : Watcher) : Prop :=
  Second <= backoffTime w <= 6 * Second
  /\ Forall (fun d => Second <= d <= 6 * Second) (sleeps w)
  /\ (phase w = Connected -> isMining w = true /\ backoffTime w = Second)
  /\ (phase w = Sleeping -> isMining w = false).

(** ** advertiserAndRebroadcaster

    The loop around the ticker, embedded like the watcher as a
    transition function over what its [select] receives.  A tick
    carries what the iteration reads from outside: the height of the
    best snapshot, the two loads of [isMining], the [AutoListen]
    setting with the host:port strings of the routeable interfaces, and
    the environment of [updateAndSendWork]. *)
Inductive AdvInput :=
| AdvTick (bestHeight : Z) (mining1 mining2 : bool) (autoListen : bool)
    (addresses : list string) (e : Env)
| AdvQuit                          (* <-c.quit.Wait() *)
| AdvNodeKill                      (* <-c.cx.NodeKill.Wait() *)
| AdvKillAll.                      (* <-c.cx.KillAll.Wait() *)

Inductive AdvEvent :=
| GetAdvt                          (* p2padvt.GetAdvt(c.cx) *)
| SavePod (p2pConnect : list string)
| SendAdvt                         (* SendMany(p2padvt.Magic, ...) *)
| SendWork (shards : list Shard)   (* SendShards(job.Magic, oB) *)
| QuitQ.                           (* c.quit.Q() *)

Record Advertiser := mkAdvertiser {
  ctl : Controller;
  active : bool;
  height : Z;
  counter : Z;            (* int *)
  once : bool;
  exited : bool;          (* the loop was left *)
  advLog : list AdvEvent
}.

Definition countTick : Z := 10.

(** The state at the head of the loop: [active] is set if it was not,
    [counter := countTick / 2], [once := false]. *)
Definition advertiser_init (c : Controller) (h : Z) : Advertiser :=
  mkAdvertiser c true h (countTick / 2) false false [].

Definition advertiser_step (a : Advertiser) (i : AdvInput) : Result Advertiser :=
  if exited a then Ok a
  else
    match i with
    | AdvQuit =>
        Ok (mkAdvertiser (ctl a) false (height a) (counter a) (once a) true (advLog a))
    | AdvNodeKill | AdvKillAll =>
        Ok (mkAdvertiser (ctl a) false (height a) (counter a) (once a) true
              (advLog a ++ [QuitQ]))
    | AdvTick bestHeight mining1 mining2 autoListen addresses e =>
        let '(once1, active1) :=
          if mining1 && negb (once a) then (true, true) else (once a, active a) in
        let log1 :=
          if Z.rem (counter a) countTick =? 0 then
            advLog a ++ GetAdvt :: (if autoListen then [SavePod addresses] else [])
          else advLog a in
        let counter1 := wrap64 (counter a + 1) in
        let log2 := log1 ++ [SendAdvt] in
        if mining2 then
          o ← updateAndSendWork (ctl a) e;
          Ok (mkAdvertiser (after o) active1 bestHeight counter1 once1 false
                (log2 ++ [SendWork (sent o)]))
        else
          Ok (mkAdvertiser (ctl a) active1 bestHeight counter1 once1 false log2)
    end.

Fixpoint advertiser_run (a : Advertiser) (ins : list AdvInput) : Result Advertiser :=
  match ins with
  | [] => Ok a
  | i :: rest => a' ← advertiser_step a i; advertiser_run a' rest
  end.

Definition is_tick (i : AdvInput) : bool :=
  match i with AdvTick _ _ _ _ _ _ => true | _ => false end.

Definition is_GetAdvt (e : AdvEvent) : bool :=
  match e with GetAdvt => true | _ => false end.

Definition is_SendAdvt (e : AdvEvent) : bool :=
  match e with SendAdvt => true | _ => false end.

Definition is_SendWork (e : AdvEvent) : bool :=
  match e with SendWork _ => true | _ => false end.

(** Three ticks of a mining node. *)
Definition three_ticks : list AdvInput :=
  [AdvTick 1 true true false [] stale_env;
   AdvTick 1 true true false [] stale_env;
   AdvTick 2 true true false [] stale_env].

(** What a log entry may be when the only work ever sent is [b]. *)
Definition carries (b : list Shard) (e : AdvEvent) : Prop :=
  match e with SendWork s => s = b | _ => True end.

Definition count (f : AdvEvent -> bool) (a : Advertiser) : Z :=
  Z.of_nat (length (List.filter f (advLog a))).

End Control.

(* ===================================================================== *)
(** * The connection manager *)
(* ===================================================================== *)

Module ConnMgr.

Definition maxFailedAttempts : Z := 3.
(** [time.Hour], in nanoseconds. *)
Definition maxRetryDuration : Z := 3600 * 1000000000.

Inductive ConnState :=
| ConnPending
| ConnFailing
| ConnCanceled
| ConnEstablished
| ConnDisconnected.

(** A [*ConnReq] is an address in [heap]; the [pending] and [conns] maps,
    the timers and the callers all hold the same pointer. *)
Abbreviation Ref := positive.
Abbreviation Conn := N.

Record ConnReq := mkConnReq {
  id : Z;                    (* uint64 *)
  Addr : option string;
  Permanent : bool;
  conn : option Conn;
  state : ConnState;
  retryCount : Z             (* uint32 *)
}.

(** The fields of [Config] the dispatch loop reads; a callback is
    represented by whether it is non-nil. *)
Record Config := mkConfig {
  TargetOutbound : Z;        (* uint32 *)
  RetryDuration : Z;         (* time.Duration *)
  OnConnection : bool;
  OnDisconnection : bool;
  GetNewAddress : bool
}.

Inductive Request :=
| registerPending (c : Ref)
| handleConnected (c : Ref) (cn : option Conn)
| handleDisconnected (rid : Z) (retry : bool)
| handleFailed (c : Ref).

(** What the loop starts or calls, in program order. *)
Inductive Action :=
| DoneQ (c : Ref)                          (* msg.done.Q() *)
| CloseConn (cn : Conn)                    (* conn.Close() *)
| GoOnConnection (c : Ref) (cn : option Conn)
| GoOnDisconnection (c : Ref)
| AfterFuncConnect (d : Z) (c : Ref)       (* time.AfterFunc(d, cm.Connect(c)) *)
| AfterFuncNewConnReq (d : Z)              (* time.AfterFunc(d, cm.NewConnReq) *)
| GoNewConnReq.                            (* go cm.NewConnReq() *)

Record ConnManager := mkConnManager {
  stop : Z;                  (* int32, read atomically *)
  failedAttempts : Z;        (* uint64 *)
  Cfg : Config;
  heap : gmap Ref ConnReq;
  pending : gmap Z Ref;
  conns : gmap Z Ref;
  actions : list Action
}.

Definition updateState (s : ConnState) (c : ConnReq) : ConnReq :=
  mkConnReq (id c) (Addr c) (Permanent c) (conn c) s (retryCount c).

Definition set_conn (cn : option Conn) (c : ConnReq) : ConnReq :=
  mkConnReq (id c) (Addr c) (Permanent c) cn (state c) (retryCount c).

Definition set_retryCount (n : Z) (c : ConnReq) : ConnReq :=
  mkConnReq (id c) (Addr c) (Permanent c) (conn c) (state c) n.

Definition with_heap (h : gmap Ref ConnReq) (cm : ConnManager) : ConnManager :=
  mkConnManager (stop cm) (failedAttempts cm) (Cfg cm) h
    (pending cm) (conns cm) (actions cm).

Definition with_pending (p : gmap Z Ref) (cm : ConnManager) : ConnManager :=
  mkConnManager (stop cm) (failedAttempts cm) (Cfg cm) (heap cm)
    p (conns cm) (actions cm).

Definition with_conns (c : gmap Z Ref) (cm : ConnManager) : ConnManager :=
  mkConnManager (stop cm) (failedAttempts cm) (Cfg cm) (heap cm)
    (pending cm) c (actions cm).

Definition with_failedAttempts (n : Z) (cm : ConnManager) : ConnManager :=
  mkConnManager (stop cm) n (Cfg cm) (heap cm)
    (pending cm) (conns cm) (actions cm).

Definition act (a : Action) (cm : ConnManager) : ConnManager :=
  mkConnManager (stop cm) (failedAttempts cm) (Cfg cm) (heap cm)
    (pending cm) (conns cm) (actions cm ++ [a]).

(** [handleFailedConn(c)]; [r] is the pointer, [c] the object it points to. *)
Definition handleFailedConn (r : Ref) (c : ConnReq) (cm : ConnManager)
  : ConnManager :=
  if negb (stop cm =? 0) then cm
  else if Permanent c then
    let n := (retryCount c + 1) mod 2 ^ 32 in
    let d := wrap64 (n * RetryDuration (Cfg cm)) in
    let d := if d >? maxRetryDuration then maxRetryDuration else d in
    act (AfterFuncConnect d r)
      (with_heap (<[r := set_retryCount n c]> (heap cm)) cm)
  else if GetNewAddress (Cfg cm) then
    let n := (failedAttempts cm + 1) mod 2 ^ 64 in
    let cm := with_failedAttempts n cm in
    if n >=? maxFailedAttempts
    then act (AfterFuncNewConnReq (RetryDuration (Cfg cm))) cm
    else act GoNewConnReq cm
  else cm.

(** One iteration of the [select] of [connHandler] that receives [req].
    A pointer that is not in [heap] does not occur in Go; the step
    leaves the manager as it is there. *)
Definition connHandler (cm : ConnManager) (req : Request) : ConnManager :=
  match req with
  | registerPending r =>
      match heap cm !! r with
      | None => cm
      | Some c =>
          let c := updateState ConnPending c in
          act (DoneQ r)
            (with_pending (<[id c := r]> (pending cm))
               (with_heap (<[r := c]> (heap cm)) cm))
      end
  | handleConnected r cn =>
      match heap cm !! r with
      | None => cm
      | Some c =>
          match pending cm !! id c with
          | None =>
              match cn with
              | Some k => act (CloseConn k) cm
              | None => cm
              end
          | Some _ =>
              let c := set_retryCount 0 (set_conn cn (updateState ConnEstablished c)) in
              let cm := with_heap (<[r := c]> (heap cm)) cm in
              let cm := with_conns (<[id c := r]> (conns cm)) cm in
              let cm := with_failedAttempts 0 cm in
              let cm := with_pending (delete (id c) (pending cm)) cm in
              if OnConnection (Cfg cm) then act (GoOnConnection r cn) cm else cm
          end
      end
  | handleDisconnected rid retry =>
      match conns cm !! rid with
      | None =>
          match pending cm !! rid with
          | None => cm
          | Some r =>
              match heap cm !! r with
              | None => cm
              | Some c =>
                  with_pending (delete rid (pending cm))
                    (with_heap (<[r := updateState ConnCanceled c]> (heap cm)) cm)
              end
          end
      | Some r =>
          match heap cm !! r with
          | None => cm
          | Some c =>
              let cm := with_conns (delete rid (conns cm)) cm in
              let cm := match conn c with
                        | Some k => act (CloseConn k) cm
                        | None => cm
                        end in
              let cm := if OnDisconnection (Cfg cm)
                        then act (GoOnDisconnection r) cm else cm in
              if negb retry then
                with_heap (<[r := updateState ConnDisconnected c]> (heap cm)) cm
              else if (Z.of_nat (size (conns cm)) mod 2 ^ 32 <? TargetOutbound (Cfg cm))
                      || Permanent c then
                let c := updateState ConnPending c in
                let cm := with_heap (<[r := c]> (heap cm)) cm in
                let cm := with_pending (<[rid := r]> (pending cm)) cm in
                handleFailedConn r c cm
              else cm
          end
      end
  | handleFailed r =>
      match heap cm !! r with
      | None => cm
      | Some c =>
          match pending cm !! id c with
          | None => cm
          | Some _ =>
              let c := updateState ConnFailing c in
              handleFailedConn r c (with_heap (<[r := c]> (heap cm)) cm)
          end
      end
  end.

(** [Remove(id)]: nothing once the manager is stopped, otherwise the
    request [handleDisconnected{id, false}] reaches the loop (the other
    branch of the [select], a closed [quit], drops it). *)
Definition Remove (rid : Z) (cm : ConnManager) : ConnManager :=
  if negb (stop cm =? 0) then cm
  else connHandler cm (handleDisconnected rid false).

(** [Disconnect(id)] sends the same request with [retry] set. *)
Definition Disconnect (rid : Z) (cm : ConnManager) : ConnManager :=
  if negb (stop cm =? 0) then cm
  else connHandler cm (handleDisconnected rid true).

(** The actions that dial again: a timer that calls [Connect] or
    [NewConnReq], or a [NewConnReq] goroutine. *)
Definition is_retry (a : Action) : bool :=
  match a with
  | AfterFuncConnect _ _ | AfterFuncNewConnReq _ | GoNewConnReq => true
  | _ => false
  end.

(** An established outbound connection with id 7, and a manager that
    holds it. *)
Definition established_req : ConnReq :=
  mkConnReq 7 (Some "10.0.0.1:11047"%string) false (Some 1%N) ConnEstablished 0.

Definition pending_req : ConnReq :=
  mkConnReq 8 (Some "10.0.0.2:11047"%string) true None ConnPending 2.

Definition example_cfg : Config := mkConfig 9 5000000000 true true true.

Definition example_cm : ConnManager :=
  mkConnManager 0 0 example_cfg
    (<[1%positive := established_req]> (<[2%positive := pending_req]> ∅))
    (<[8 := 2%positive]> ∅)
    (<[7 := 1%positive]> ∅)
    [].

(** ** The loop over a sequence of requests, and what it keeps *)

Definition connHandler_run (cm : ConnManager) (reqs : list Request)
  : ConnManager :=
  fold_left connHandler reqs cm.

(** Ids tell requests apart; [conns] holds established requests and
    [pending] holds pending or failing ones, each under its own id. *)
Definition ids_unique (h : gmap Ref ConnReq) : Prop :=
  forall r1 r2 c1 c2,
    h !! r1 = Some c1 -> h !! r2 = Some c2 -> id c1 = id c2 -> r1 = r2.

Definition holds (h : gmap Ref ConnReq) (St : ConnState -> Prop)
  (m : gmap Z Ref) : Prop :=
  map_Forall
    (fun k r => exists c, h !! r = Some c /\ id c = k /\ St (state c)) m.

Definition consistent (cm : ConnManager) : Prop :=
  ids_unique (heap cm)
  /\ holds (heap cm) (fun s => s = ConnEstablished) (conns cm)
  /\ holds (heap cm) (fun s => s = ConnPending \/ s = ConnFailing) (pending cm).

(** [registerPending] is sent by [NewConnReq] and by [Connect] for a
    request that has just been given the next id of the counter. *)
Definition fresh (cm : ConnManager) (req : Request) : Prop :=
  match req with
  | registerPending r =>
      forall c, heap cm !! r = Some c -> conns cm !! id c = None
  | _ => True
  end.

(** A persistent peer that has not failed yet, registered under id 8,
    with a retry duration of 5 seconds. *)
Definition persistent_req : ConnReq :=
  mkConnReq 8 (Some "10.0.0.2:11047"%string) true None ConnPending 0.

Definition persistent_cm : ConnManager :=
  mkConnManager 0 0 example_cfg
    (<[2%positive := persistent_req]> ∅) (<[8 := 2%positive]> ∅) ∅ [].



(** ** Connect and NewConnReq

    The callers of the dispatch loop.  A request they send is served
    by [connHandler] before they go on ([registerPending] is waited for
    through [done]); the branch of each [select] that a closed [quit]
    takes, dropping the request, is left out as for [Remove]. *)



















End ConnMgr.

(* ===================================================================== *)
(** * The sync manager *)
(* ===================================================================== *)

Module NetSync.

(** A [chainhash.Hash] is 32 bytes; it is read as the number they spell. *)
Abbreviation Hash := N.
Definition zeroHash : Hash := 0%N.

(** A [*peerpkg.Peer]: peers are compared and used as map keys by pointer. *)
Abbreviation Peer := positive.

Inductive InvType :=
| InvTypeError
| InvTypeTx
| InvTypeBlock
| InvTypeFilteredBlock
| InvTypeOther (n : N).

Record InvVect := mkInvVect { ivType : InvType; ivHash : Hash }.

Definition InvType_eqb (a b : InvType) : bool :=
  match a, b with
  | InvTypeError, InvTypeError => true
  | InvTypeTx, InvTypeTx => true
  | InvTypeBlock, InvTypeBlock => true
  | InvTypeFilteredBlock, InvTypeFilteredBlock => true
  | InvTypeOther x, InvTypeOther y => (x =? y)%N
  | _, _ => false
  end.

(** The dynamic types of the [error] values the handlers tell apart. *)
Inductive DBErrorCode := ErrCorruption | ErrDbOther (n : N).

Inductive error :=
| BlockchainRuleError (description : string)
| DBError (ErrorCode : DBErrorCode) (description : string)
| MempoolRuleError (description : string)
| OtherError (description : string).

Record BlockHeader := mkBlockHeader {
  Version : Z;
  PrevBlock : Hash;
  BlockHash : Hash           (* the value of BlockHash() *)
}.

Record Tx := mkTx { TxHash : Hash; TxPayload : list Byte.byte }.

(** A [*block.Block], by what its accessors return. *)
Record Block := mkBlock {
  BHash : Hash;              (* Hash() *)
  Header : BlockHeader;      (* WireBlock().Header *)
  Transactions : list Tx     (* Transactions() *)
}.

Record Checkpoint := mkCheckpoint { Height : Z; CHash : Hash }.

Record BestState := mkBestState { BestHash : Hash; BestHeight : Z }.

(** [sm.chainParams] is only compared with [&chaincfg.RegressionTestParams]. *)
Inductive ChainParams := RegressionTestParams | OtherParams (net : string).

Definition isRegressionTest (p : ChainParams) : bool :=
  match p with RegressionTestParams => true | OtherParams _ => false end.

(** [blockchain.BehaviorFlags] is a bit set. *)
Definition BFNone : N := 0.
Definition BFFastAdd : N := 1.

Definition minInFlightBlocks : Z := 10.
Definition maxRejectedTxns : Z := 1000.

Record headerNode := mkHeaderNode { height : Z; hash : Hash }.

(** A [*list.Element] of [headerList].  [container/list] keeps an
    element that [Remove] took out, or that [Init] left behind, alive
    for whoever still points to it: a removed element has no [Next()],
    an element dropped by [Init] still reaches the elements that
    followed it. *)
Inductive cursor :=
| CursorNil
| CursorAt (i : nat)                          (* element [i] of headerList *)
| CursorDetached (chain : list headerNode).   (* itself, then what Next() reaches *)

Record peerSyncState := mkPeerSyncState {
  syncCandidate : bool;
  requestQueue : list InvVect;
  peerRequestedTxns : gset Hash;      (* requestedTxns *)
  peerRequestedBlocks : gset Hash     (* requestedBlocks *)
}.

Record TxDesc := mkTxDesc { DescTx : Tx }.

(** Calls made on peers, the notifier, the chain and the mempool, in
    program order. *)
Inductive Event :=
| Disconnect (p : Peer)
| PushRejectMsg (p : Peer) (command : string) (code : N) (reason : string)
    (h : Hash) (wait : bool)
| PushGetBlocksMsg (p : Peer) (locator : list Hash) (stopHash : Hash)
| PushGetHeadersMsg (p : Peer) (locator : list Hash) (stopHash : Hash)
| QueueMessage (p : Peer) (getdata : list InvVect)
| UpdateLastBlockHeightCall (p : Peer) (newHeight : Z)
| UpdateLastAnnouncedBlock (p : Peer) (h : Hash)
| AddKnownInventory (p : Peer) (iv : InvVect)
| UpdatePeerHeights (h : Hash) (newHeight : Z) (origin : Peer)
| AnnounceNewTransactions (txs : list TxDesc)
| ProcessBlockCall (b : Block) (flags : N) (heightUpdate : Z)
| ProcessTransactionCall (t : Tx) (tag : Z)
| LogBlockHeight (b : Block)
| SetLastLogTime.

(** The collaborators whose code is outside this package: the chain, the
    mempool, the peers, helper functions of [blockchain], [mempool] and
    [wire], and the order in which Go's [range] visits a map (which may
    differ from one [range] statement to the next, hence the counter).
    [W] is their joint state.  A Go result [(x, err)] is a pair whose
    second component is [Some] for a non-nil error.  [ProcessBlock]
    answers [(isOrphan, err)]; the chain runs its notification
    callbacks, which write to the mempool and the notifier only, before
    it returns.  [FetchUtxoEntry] answers whether the entry is spent,
    [None] for a nil entry.  [SplitHost] is [net.SplitHostPort] of the
    peer's address, [None] when it fails.  [PushGetHeadersMsgErr] tells
    whether [PushGetHeadersMsg] to that peer returns an error. *)
Class External (W : Type) := {
  (* chain *)
  ProcessBlock : W -> Block -> N -> Z -> W * (bool * option error);
  BestChainHeight : W -> Z;
  BestSnapshot : W -> BestState;
  HaveBlock : W -> Hash -> bool * option error;
  IsKnownOrphan : W -> Hash -> bool;
  GetOrphanRoot : W -> Hash -> Hash;
  LatestBlockLocator : W -> list Hash * option error;
  BlockLocatorFromHash : W -> Hash -> list Hash;
  BlockHeightByHash : W -> Hash -> Z * option error;
  IsCurrent : W -> bool;
  Checkpoints : W -> list Checkpoint;
  FetchUtxoEntry : W -> Hash -> Z -> option bool * option error;
  (* mempool *)
  ProcessTransaction : W -> Tx -> Z -> W * (list TxDesc * option error);
  HaveTransaction : W -> Hash -> bool;
  (* peers *)
  LastBlock : W -> Peer -> Z;
  UpdateLastBlockHeight : W -> Peer -> Z -> W;
  PeerID : Peer -> Z;
  SplitHost : W -> Peer -> option string;
  PushGetHeadersMsgErr : W -> Peer -> bool;
  (* helpers *)
  ShouldHaveSerializedBlockHeight : BlockHeader -> bool;
  ExtractCoinbaseHeight : Tx -> Z + error;
  ErrToRejectErr : error -> N * string;
  MaxInvPerMsg : Z;
  AddInvVect : list InvVect -> InvVect -> list InvVect;
  (* range over a map *)
  rangeHashes : nat -> gset Hash -> list Hash;
  rangePeers : nat -> gmap Peer peerSyncState -> list (Peer * peerSyncState)
}.

Section Manager.
Context {W : Type} {ext : External W}.

Record SyncManager := mkSyncManager {
  world : W;
  chainParams : ChainParams;
  shutdown : Z;
  rejectedTxns : gset Hash;
  requestedTxns : gset Hash;
  requestedBlocks : gset Hash;
  syncPeer : option Peer;
  peerStates : gmap Peer peerSyncState;
  headersFirstMode : bool;
  headerList : list headerNode;
  startHeader : cursor;
  nextCheckpoint : option Checkpoint;
  ranges : nat;                (* range statements executed so far *)
  events : list Event
}.

(** Field updates. *)
Definition set_world (v : W) (sm : SyncManager) : SyncManager :=
  mkSyncManager v (chainParams sm) (shutdown sm) (rejectedTxns sm)
    (requestedTxns sm) (requestedBlocks sm) (syncPeer sm) (peerStates sm)
    (headersFirstMode sm) (headerList sm) (startHeader sm)
    (nextCheckpoint sm) (ranges sm) (events sm).

Definition set_rejectedTxns (v : gset Hash) (sm : SyncManager) : SyncManager :=
  mkSyncManager (world sm) (chainParams sm) (shutdown sm) v
    (requestedTxns sm) (requestedBlocks sm) (syncPeer sm) (peerStates sm)
    (headersFirstMode sm) (headerList sm) (startHeader sm)
    (nextCheckpoint sm) (ranges sm) (events sm).

Definition set_requestedTxns (v : gset Hash) (sm : SyncManager) : SyncManager :=
  mkSyncManager (world sm) (chainParams sm) (shutdown sm) (rejectedTxns sm)
    v (requestedBlocks sm) (syncPeer sm) (peerStates sm)
    (headersFirstMode sm) (headerList sm) (startHeader sm)
    (nextCheckpoint sm) (ranges sm) (events sm).

Definition set_requestedBlocks (v : gset Hash) (sm : SyncManager) : SyncManager :=
  mkSyncManager (world sm) (chainParams sm) (shutdown sm) (rejectedTxns sm)
    (requestedTxns sm) v (syncPeer sm) (peerStates sm) (headersFirstMode sm)
    (headerList sm) (startHeader sm) (nextCheckpoint sm) (ranges sm)
    (events sm).

Definition set_syncPeer (v : option Peer) (sm : SyncManager) : SyncManager :=
  mkSyncManager (world sm) (chainParams sm) (shutdown sm) (rejectedTxns sm)
    (requestedTxns sm) (requestedBlocks sm) v (peerStates sm)
    (headersFirstMode sm) (headerList sm) (startHeader sm)
    (nextCheckpoint sm) (ranges sm) (events sm).

Definition set_peerStates (v : gmap Peer peerSyncState) (sm : SyncManager) : SyncManager :=
  mkSyncManager (world sm) (chainParams sm) (shutdown sm) (rejectedTxns sm)
    (requestedTxns sm) (requestedBlocks sm) (syncPeer sm) v
    (headersFirstMode sm) (headerList sm) (startHeader sm)
    (nextCheckpoint sm) (ranges sm) (events sm).

Definition set_headersFirstMode (v : bool) (sm : SyncManager) : SyncManager :=
  mkSyncManager (world sm) (chainParams sm) (shutdown sm) (rejectedTxns sm)
    (requestedTxns sm) (requestedBlocks sm) (syncPeer sm) (peerStates sm) v
    (headerList sm) (startHeader sm) (nextCheckpoint sm) (ranges sm)
    (events sm).

Definition set_headerList (v : list headerNode) (sm : SyncManager) : SyncManager :=
  mkSyncManager (world sm) (chainParams sm) (shutdown sm) (rejectedTxns sm)
    (requestedTxns sm) (requestedBlocks sm) (syncPeer sm) (peerStates sm)
    (headersFirstMode sm) v (startHeader sm) (nextCheckpoint sm) (ranges sm)
    (events sm).

Definition set_startHeader (v : cursor) (sm : SyncManager) : SyncManager :=
  mkSyncManager (world sm) (chainParams sm) (shutdown sm) (rejectedTxns sm)
    (requestedTxns sm) (requestedBlocks sm) (syncPeer sm) (peerStates sm)
    (headersFirstMode sm) (headerList sm) v (nextCheckpoint sm) (ranges sm)
    (events sm).

Definition set_nextCheckpoint (v : option Checkpoint) (sm : SyncManager) : SyncManager :=
  mkSyncManager (world sm) (chainParams sm) (shutdown sm) (rejectedTxns sm)
    (requestedTxns sm) (requestedBlocks sm) (syncPeer sm) (peerStates sm)
    (headersFirstMode sm) (headerList sm) (startHeader sm) v (ranges sm)
    (events sm).

Definition set_ranges (v : nat) (sm : SyncManager) : SyncManager :=
  mkSyncManager (world sm) (chainParams sm) (shutdown sm) (rejectedTxns sm)
    (requestedTxns sm) (requestedBlocks sm) (syncPeer sm) (peerStates sm)
    (headersFirstMode sm) (headerList sm) (startHeader sm)
    (nextCheckpoint sm) v (events sm).

Definition set_events (v : list Event) (sm : SyncManager) : SyncManager :=
  mkSyncManager (world sm) (chainParams sm) (shutdown sm) (rejectedTxns sm)
    (requestedTxns sm) (requestedBlocks sm) (syncPeer sm) (peerStates sm)
    (headersFirstMode sm) (headerList sm) (startHeader sm)
    (nextCheckpoint sm) (ranges sm) v.

Definition emit (e : Event) (sm : SyncManager) : SyncManager :=
  set_events (events sm ++ [e]) sm.

Definition maxRequestedBlocks : Z := MaxInvPerMsg.
Definition maxRequestedTxns : Z := MaxInvPerMsg.

(** ** Header list cursors *)

(** The elements [sh], [sh.Next()], ... that a walk from [c] visits. *)
Definition cursor_chain (l : list headerNode) (c : cursor) : list headerNode :=
  match c with
  | CursorNil => []
  | CursorAt i => drop i l
  | CursorDetached ch => ch
  end.

(** [sh.Next()], for a cursor whose walk is [_ :: rest]. *)
Definition cursor_next (c : cursor) (rest : list headerNode) : cursor :=
  match rest with
  | [] => CursorNil
  | _ :: _ =>
      match c with
      | CursorNil => CursorNil
      | CursorAt i => CursorAt (S i)
      | CursorDetached _ => CursorDetached rest
      end
  end.

(** The cursor after [headerList.Remove(headerList.Front())], the front
    being [front]. *)
Definition cursor_remove_front (front : headerNode) (c : cursor) : cursor :=
  match c with
  | CursorAt O => CursorDetached [front]
  | CursorAt (S i) => CursorAt i
  | _ => c
  end.

(** The cursor after [headerList.Init()] on the list [l]. *)
Definition cursor_init (l : list headerNode) (c : cursor) : cursor :=
  match c with
  | CursorAt i =>
      match drop i l with
      | [] => CursorNil
      | ch => CursorDetached ch
      end
  | _ => c
  end.

Definition cursor_is_nil (c : cursor) : bool :=
  match c with CursorNil => true | _ => false end.

(** ** Helpers *)

(** [current()] *)
Definition current (sm : SyncManager) : bool :=
  if negb (IsCurrent (world sm)) then false
  else
    match syncPeer sm with
    | None => true
    | Some sp =>
        if BestHeight (BestSnapshot (world sm)) <? LastBlock (world sm) sp
        then false else true
    end.

(** The loop [for i := uint32(0); i < 2; i++] of [haveInventory]. *)
Fixpoint haveInventory_utxo (w : W) (h : Hash) (indices : list Z)
  : bool * option error :=
  match indices with
  | [] => (false, None)
  | i :: rest =>
      match FetchUtxoEntry w h i with
      | (_, Some e) => (false, Some e)
      | (Some spent, None) =>
          if negb spent then (true, None) else haveInventory_utxo w h rest
      | (None, None) => haveInventory_utxo w h rest
      end
  end.

Definition haveInventory (sm : SyncManager) (iv : InvVect)
  : bool * option error :=
  match ivType iv with
  | InvTypeBlock => HaveBlock (world sm) (ivHash iv)
  | InvTypeTx =>
      if HaveTransaction (world sm) (ivHash iv) then (true, None)
      else haveInventory_utxo (world sm) (ivHash iv) [0; 1]
  | _ => (true, None)
  end.

(** [isSyncCandidate(peer)] *)
Definition isSyncCandidate (sm : SyncManager) (p : Peer) : bool :=
  if isRegressionTest (chainParams sm) then
    match SplitHost (world sm) p with
    | None => false
    | Some host =>
        if negb (String.eqb host "127.0.0.1") && negb (String.eqb host "localhost")
        then false else true
    end
  else true.

(** [limitMap(m, limit)]; [order] is the order in which the [range]
    statement visits [m]. *)
Definition limitMap (order : list Hash) (m : gset Hash) (limit : Z) : gset Hash :=
  if Z.of_nat (size m) + 1 >? limit then
    match order with
    | txHash :: _ => m ∖ {[txHash]}
    | [] => m
    end
  else m.

(** [resetHeaderState(newestHash, newestHeight)] *)
Definition resetHeaderState (newestHash : Hash) (newestHeight : Z)
  (sm : SyncManager) : SyncManager :=
  let sm := set_headersFirstMode false sm in
  let sm := set_headerList [] sm in
  let sm := set_startHeader CursorNil sm in
  match nextCheckpoint sm with
  | Some _ => set_headerList [mkHeaderNode newestHeight newestHash] sm
  | None => sm
  end.

(** The loop [for i := len(checkpoints) - 2; i >= 0; i--] of
    [findNextHeaderCheckpoint], over the checkpoints before the final
    one, latest first. *)
Fixpoint findNextHeaderCheckpoint_scan (h : Z) (earlier : list Checkpoint)
  (next : Checkpoint) : Checkpoint :=
  match earlier with
  | [] => next
  | c :: rest =>
      if h >=? Height c then next
      else findNextHeaderCheckpoint_scan h rest c
  end.

Definition findNextHeaderCheckpoint (sm : SyncManager) (h : Z)
  : option Checkpoint :=
  match rev (Checkpoints (world sm)) with
  | [] => None
  | finalCheckpoint :: earlier =>
      if h >=? Height finalCheckpoint then None
      else Some (findNextHeaderCheckpoint_scan h earlier finalCheckpoint)
  end.

(** ** fetchHeaderBlocks *)

Definition add_peer_requestedBlock (h : Hash) (st : peerSyncState) : peerSyncState :=
  mkPeerSyncState (syncCandidate st) (requestQueue st)
    (peerRequestedTxns st) ({[h]} ∪ peerRequestedBlocks st).

Definition add_peer_requestedTxn (h : Hash) (st : peerSyncState) : peerSyncState :=
  mkPeerSyncState (syncCandidate st) (requestQueue st)
    ({[h]} ∪ peerRequestedTxns st) (peerRequestedBlocks st).

Definition del_peer_requestedBlock (h : Hash) (st : peerSyncState) : peerSyncState :=
  mkPeerSyncState (syncCandidate st) (requestQueue st)
    (peerRequestedTxns st) (peerRequestedBlocks st ∖ {[h]}).

Definition del_peer_requestedTxn (h : Hash) (st : peerSyncState) : peerSyncState :=
  mkPeerSyncState (syncCandidate st) (requestQueue st)
    (peerRequestedTxns st ∖ {[h]}) (peerRequestedBlocks st).

Definition set_requestQueue (q : list InvVect) (st : peerSyncState) : peerSyncState :=
  mkPeerSyncState (syncCandidate st) q
    (peerRequestedTxns st) (peerRequestedBlocks st).

(** [sm.peerStates[sm.syncPeer]], with the key it was found under. *)
Definition syncPeerState (sm : SyncManager) : option (Peer * peerSyncState) :=
  match syncPeer sm with
  | None => None
  | Some sp =>
      match peerStates sm !! sp with
      | None => None
      | Some st => Some (sp, st)
      end
  end.

(** The body of [for sh = sm.startHeader; sh != nil; sh = sh.Next()];
    [walk] is what is left to visit and [sh] the element at its head.
    A missing sync peer state makes [syncPeerState] nil, and the write
    through it panics, after the write to the global map. *)
Fixpoint fetchHeaderBlocks_loop (walk : list headerNode) (sh : cursor)
  (gdmsg : list InvVect) (numRequested : Z) (sm : SyncManager)
  : Result (SyncManager * list InvVect) :=
  match walk with
  | [] => Ok (sm, gdmsg)
  | node :: rest =>
      let iv := mkInvVect InvTypeBlock (hash node) in
      let haveInv := fst (haveInventory sm iv) in
      r ← (if negb haveInv then
             let sm := set_requestedBlocks ({[hash node]} ∪ requestedBlocks sm) sm in
             match syncPeerState sm with
             | None => Panic
             | Some (sp, st) =>
                 Ok (set_peerStates
                       (<[sp := add_peer_requestedBlock (hash node) st]> (peerStates sm)) sm,
                     AddInvVect gdmsg iv, numRequested + 1)
             end
           else Ok (sm, gdmsg, numRequested));
      let '(sm, gdmsg, numRequested) := r in
      let next := cursor_next sh rest in
      let sm := set_startHeader next sm in
      if numRequested >=? MaxInvPerMsg then Ok (sm, gdmsg)
      else fetchHeaderBlocks_loop rest next gdmsg numRequested sm
  end.

Definition fetchHeaderBlocks (sm : SyncManager) : Result SyncManager :=
  if cursor_is_nil (startHeader sm) then Ok sm
  else
    r ← fetchHeaderBlocks_loop
          (cursor_chain (headerList sm) (startHeader sm)) (startHeader sm) [] 0 sm;
    let '(sm, gdmsg) := r in
    if (0 <? length gdmsg)%nat then
      match syncPeer sm with
      | None => Panic
      | Some sp => Ok (emit (QueueMessage sp gdmsg) sm)
      end
    else Ok sm.

(** ** startSync *)

(** The loop [for peer, state := range sm.peerStates], over the pairs in
    the order the [range] statement yields them. *)
Fixpoint startSync_pick (bestHeight : Z) (w : W)
  (visited : list (Peer * peerSyncState)) (bestPeer : option Peer)
  : option Peer :=
  match visited with
  | [] => bestPeer
  | (p, st) :: rest =>
      if negb (syncCandidate st) then startSync_pick bestHeight w rest bestPeer
      else if LastBlock w p <? bestHeight
      then startSync_pick bestHeight w rest bestPeer
      else startSync_pick bestHeight w rest (Some p)
  end.

Definition startSync (sm : SyncManager) : SyncManager :=
  match syncPeer sm with
  | Some _ => sm
  | None =>
      let best := BestSnapshot (world sm) in
      let visited := rangePeers (ranges sm) (peerStates sm) in
      let sm := set_ranges (S (ranges sm)) sm in
      match startSync_pick (BestHeight best) (world sm) visited None with
      | Some bestPeer =>
          let sm := set_requestedBlocks ∅ sm in
          match LatestBlockLocator (world sm) with
          | (_, Some _) => sm
          | (locator, None) =>
              let getblocks := emit (PushGetBlocksMsg bestPeer locator zeroHash) sm in
              let sm :=
                match nextCheckpoint sm with
                | Some cp =>
                    if (BestHeight best <? Height cp)
                       && negb (isRegressionTest (chainParams sm))
                    then set_headersFirstMode true
                           (emit (PushGetHeadersMsg bestPeer locator (CHash cp)) sm)
                    else getblocks
                | None => getblocks
                end in
              set_syncPeer (Some bestPeer) sm
          end
      | None => sm
      end
  end.

(** ** handleBlockMsg *)

Definition update_peer (p : Peer) (f : peerSyncState -> peerSyncState)
  (sm : SyncManager) : SyncManager :=
  set_peerStates (alter f p (peerStates sm)) sm.

(** [if blockchain.ShouldHaveSerializedBlockHeight(header) { coinbaseTx
    := bmsg.block.Transactions()[0]; cbHeight, e :=
    blockchain.ExtractCoinbaseHeight(coinbaseTx) ... }]: the extracted
    height when there is one; indexing an empty slice panics. *)
Definition coinbaseHeight (b : Block) : Result (option Z) :=
  if ShouldHaveSerializedBlockHeight (Header b) then
    match Transactions b with
    | [] => Panic
    | coinbaseTx :: _ =>
        match ExtractCoinbaseHeight coinbaseTx with
        | inl cbHeight => Ok (Some cbHeight)
        | inr _ => Ok None
        end
    end
  else Ok None.

(** The same extraction in the [processBlockMsg] case of [blockHandler]:
    guarded by [len(mbt) > 0], and reading [mbt[len(mbt)-1]]. *)
Definition processBlockMsg_heightUpdate (b : Block) : Z :=
  if ShouldHaveSerializedBlockHeight (Header b) then
    match last (Transactions b) with
    | Some coinbaseTx =>
        match ExtractCoinbaseHeight coinbaseTx with
        | inl cbHeight => cbHeight
        | inr _ => 0
        end
    | None => 0
    end
  else 0.

(** From [if isOrphan {] to the end of [handleBlockMsg]. *)
Definition handleBlockMsg_finish (pp : Peer) (b : Block)
  (isCheckpointBlock isOrphan : bool) (heightUpdate : Z)
  (blkHashUpdate : option Hash) (sm : SyncManager) : Result SyncManager :=
  let blockHash := BHash b in
  r ← (if isOrphan then
         cb ← coinbaseHeight b;
         let '(heightUpdate, blkHashUpdate) :=
           match cb with
           | Some cbHeight => (cbHeight, Some blockHash)
           | None => (heightUpdate, blkHashUpdate)
           end in
         let orphanRoot := GetOrphanRoot (world sm) blockHash in
         let sm :=
           match LatestBlockLocator (world sm) with
           | (_, Some _) => sm
           | (locator, None) => emit (PushGetBlocksMsg pp locator orphanRoot) sm
           end in
         Ok (heightUpdate, blkHashUpdate, sm)
       else
         let sm := emit (LogBlockHeight b) sm in
         let best := BestSnapshot (world sm) in
         Ok (BestHeight best, Some (BestHash best), set_rejectedTxns ∅ sm));
  let '(heightUpdate, blkHashUpdate, sm) := r in
  let sm :=
    match blkHashUpdate with
    | Some h =>
        if negb (heightUpdate =? 0) then
          let sm := emit (UpdateLastBlockHeightCall pp heightUpdate)
                      (set_world (UpdateLastBlockHeight (world sm) pp heightUpdate) sm) in
          if isOrphan || current sm
          then emit (UpdatePeerHeights h heightUpdate pp) sm else sm
        else sm
    | None => sm
    end in
  if negb (headersFirstMode sm) then Ok sm
  else if negb isCheckpointBlock then
    let inFlight :=
      match peerStates sm !! pp with
      | Some state => Z.of_nat (size (peerRequestedBlocks state))
      | None => 0
      end in
    if negb (cursor_is_nil (startHeader sm)) && (inFlight <? minInFlightBlocks)
    then fetchHeaderBlocks sm else Ok sm
  else
    match nextCheckpoint sm with
    | None => Panic
    | Some cp =>
        let prevHeight := Height cp in
        let prevHash := CHash cp in
        let sm := set_nextCheckpoint (findNextHeaderCheckpoint sm prevHeight) sm in
        match nextCheckpoint sm with
        | Some next =>
            let sm := emit (PushGetHeadersMsg pp [prevHash] (CHash next)) sm in
            if PushGetHeadersMsgErr (world sm) pp then Ok sm
            else
              (* the log line evaluates sm.syncPeer.Addr() *)
              match syncPeer sm with
              | None => Panic
              | Some _ => Ok sm
              end
        | None =>
            let sm := set_headersFirstMode false sm in
            let sm := set_startHeader (cursor_init (headerList sm) (startHeader sm)) sm in
            let sm := set_headerList [] sm in
            Ok (emit (PushGetBlocksMsg pp [blockHash] zeroHash) sm)
        end
    end.

(** [handleBlockMsg] from the headers-first bookkeeping up to the call
    of [chain.ProcessBlock]: whether the block is the checkpoint block,
    the behaviour flags, [heightUpdate], [blkHashUpdate] and the manager. *)
Definition handleBlockMsg_prepare (pp : Peer) (b : Block) (sm : SyncManager)
  : Result (bool * N * Z * option Hash * SyncManager) :=
  let blockHash := BHash b in
  r ← (if headersFirstMode sm then
         match headerList sm with
         | [] => Ok (false, BFNone, sm)
         | firstNode :: rest =>
             if (blockHash =? hash firstNode)%N then
               match nextCheckpoint sm with
               | None => Panic
               | Some cp =>
                   if (hash firstNode =? CHash cp)%N
                   then Ok (true, N.lor BFNone BFFastAdd, sm)
                   else Ok (false, N.lor BFNone BFFastAdd,
                            set_headerList rest
                              (set_startHeader
                                 (cursor_remove_front firstNode (startHeader sm)) sm))
               end
             else Ok (false, BFNone, sm)
         end
       else Ok (false, BFNone, sm));
  let '(isCheckpointBlock, behaviorFlags, sm) := r in
  let sm := update_peer pp (del_peer_requestedBlock blockHash) sm in
  let sm := set_requestedBlocks (requestedBlocks sm ∖ {[blockHash]}) sm in
  cb ← coinbaseHeight b;
  let heightUpdate := default 0 cb in
  let blkHashUpdate := match cb with Some _ => Some blockHash | None => None end in
  Ok (isCheckpointBlock, behaviorFlags, heightUpdate, blkHashUpdate, sm).

(** [handleBlockMsg] past the check for an unrequested block. *)
Definition handleBlockMsg_process (pp : Peer) (b : Block) (sm : SyncManager)
  : Result SyncManager :=
  let blockHash := BHash b in
  r ← handleBlockMsg_prepare pp b sm;
  let '(isCheckpointBlock, behaviorFlags, heightUpdate, blkHashUpdate, sm) := r in
  let '(w, (isOrphan, e)) :=
    ProcessBlock (world sm) b behaviorFlags heightUpdate in
  let sm := emit (ProcessBlockCall b behaviorFlags heightUpdate) (set_world w sm) in
  match e with
  | Some err =>
      if wrap32 (heightUpdate + 1) <=? BestChainHeight (world sm) then
        match err with
        | DBError ErrCorruption _ => Panic
        | _ =>
            let '(code, reason) := ErrToRejectErr err in
            Ok (emit (PushRejectMsg pp "block" code reason blockHash false) sm)
        end
      else
        handleBlockMsg_finish pp b isCheckpointBlock true
          heightUpdate blkHashUpdate sm
  | None =>
      handleBlockMsg_finish pp b isCheckpointBlock isOrphan
        heightUpdate blkHashUpdate sm
  end.

Definition handleBlockMsg (pp : Peer) (b : Block) (sm : SyncManager)
  : Result SyncManager :=
  match peerStates sm !! pp with
  | None => Ok sm
  | Some state =>
      if negb (bool_decide (BHash b ∈ peerRequestedBlocks state))
         && negb (isRegressionTest (chainParams sm))
      then Ok (emit (Disconnect pp) sm)
      else handleBlockMsg_process pp b sm
  end.

(** ** handleHeadersMsg *)

(** How the loop over [msg.Headers] is left: by [return] after a
    disconnect, or at its end (or by [break]) with [receivedCheckpoint]. *)
Inductive HeadersLoop :=
| HeadersReturn (sm : SyncManager)
| HeadersDone (receivedCheckpoint : bool) (finalHash : Hash) (sm : SyncManager).

Definition loop_manager (r : HeadersLoop) : SyncManager :=
  match r with
  | HeadersReturn sm => sm
  | HeadersDone _ _ sm => sm
  end.

Fixpoint handleHeadersMsg_loop (p : Peer) (headers : list BlockHeader)
  (finalHash : Hash) (sm : SyncManager) : Result HeadersLoop :=
  match headers with
  | [] => Ok (HeadersDone false finalHash sm)
  | blockHeader :: rest =>
      let blockHash := BlockHash blockHeader in
      match last (headerList sm) with
      | None => Ok (HeadersReturn (emit (Disconnect p) sm))
      | Some prevNode =>
          if (hash prevNode =? PrevBlock blockHeader)%N then
            let node := mkHeaderNode (wrap32 (height prevNode + 1)) blockHash in
            let e := length (headerList sm) in
            let sm := set_headerList (headerList sm ++ [node]) sm in
            let sm := if cursor_is_nil (startHeader sm)
                      then set_startHeader (CursorAt e) sm else sm in
            match nextCheckpoint sm with
            | None => Panic
            | Some cp =>
                if height node =? Height cp then
                  if (hash node =? CHash cp)%N
                  then Ok (HeadersDone true blockHash sm)
                  else Ok (HeadersReturn (emit (Disconnect p) sm))
                else handleHeadersMsg_loop p rest blockHash sm
            end
          else Ok (HeadersReturn (emit (Disconnect p) sm))
      end
  end.

Definition handleHeadersMsg (p : Peer) (headers : list BlockHeader)
  (sm : SyncManager) : Result SyncManager :=
  match peerStates sm !! p with
  | None => Ok sm
  | Some _ =>
      if negb (headersFirstMode sm) then Ok (emit (Disconnect p) sm)
      else if (length headers =? 0)%nat then Ok sm
      else
        r ← handleHeadersMsg_loop p headers zeroHash sm;
        match r with
        | HeadersReturn sm => Ok sm
        | HeadersDone true _ sm =>
            match headerList sm with
            | [] => Panic
            | front :: rest =>
                let sm := set_startHeader
                            (cursor_remove_front front (startHeader sm)) sm in
                let sm := set_headerList rest sm in
                fetchHeaderBlocks (emit SetLastLogTime sm)
            end
        | HeadersDone false finalHash sm =>
            match nextCheckpoint sm with
            | None => Panic
            | Some cp => Ok (emit (PushGetHeadersMsg p [finalHash] (CHash cp)) sm)
            end
        end
  end.

(** ** handleInvMsg *)

Definition isBlockInv (iv : InvVect) : bool := InvType_eqb (ivType iv) InvTypeBlock.
Definition isTxInv (iv : InvVect) : bool := InvType_eqb (ivType iv) InvTypeTx.

(** The index of the last block entry of [invVects], counted from [i];
    [-1] when there is none. *)
Fixpoint lastBlockIndex (i : Z) (invVects : list InvVect) : Z :=
  match invVects with
  | [] => -1
  | iv :: rest =>
      let later := lastBlockIndex (i + 1) rest in
      if negb (later =? -1) then later
      else if isBlockInv iv then i else -1
  end.

(** The loop [for i, iv := range invVects]. *)
Fixpoint handleInvMsg_scan (p : Peer) (lastBlock : Z) (i : Z)
  (invVects : list InvVect) (sm : SyncManager) : SyncManager :=
  match invVects with
  | [] => sm
  | iv :: rest =>
      let continue := handleInvMsg_scan p lastBlock (i + 1) rest in
      if negb (isBlockInv iv || isTxInv iv) then continue sm
      else
        let sm := emit (AddKnownInventory p iv) sm in
        if headersFirstMode sm then continue sm
        else
          match haveInventory sm iv with
          | (_, Some _) => continue sm
          | (false, None) =>
              if isTxInv iv && bool_decide (ivHash iv ∈ rejectedTxns sm)
              then continue sm
              else continue
                     (update_peer p
                        (fun st => set_requestQueue (requestQueue st ++ [iv]) st) sm)
          | (true, None) =>
              if isBlockInv iv then
                if IsKnownOrphan (world sm) (ivHash iv) then
                  let orphanRoot := GetOrphanRoot (world sm) (ivHash iv) in
                  match LatestBlockLocator (world sm) with
                  | (_, Some _) => continue sm
                  | (locator, None) =>
                      continue (emit (PushGetBlocksMsg p locator orphanRoot) sm)
                  end
                else if i =? lastBlock then
                  let locator := BlockLocatorFromHash (world sm) (ivHash iv) in
                  continue (emit (PushGetBlocksMsg p locator zeroHash) sm)
                else continue sm
              else continue sm
          end
  end.

(** The loop [for len(requestQueue) != 0]; returns the manager, the
    getdata message and the part of the queue that is left. *)
Fixpoint handleInvMsg_drain (p : Peer) (requestQueue : list InvVect)
  (gdmsg : list InvVect) (numRequested : Z) (sm : SyncManager)
  : SyncManager * list InvVect * list InvVect :=
  match requestQueue with
  | [] => (sm, gdmsg, [])
  | iv :: rest =>
      let '(sm, gdmsg, numRequested) :=
        match ivType iv with
        | InvTypeBlock =>
            if bool_decide (ivHash iv ∈ requestedBlocks sm)
            then (sm, gdmsg, numRequested)
            else
              let m := {[ivHash iv]} ∪ requestedBlocks sm in
              let m := limitMap (rangeHashes (ranges sm) m) m maxRequestedBlocks in
              let sm := set_ranges (S (ranges sm)) (set_requestedBlocks m sm) in
              let sm := update_peer p (add_peer_requestedBlock (ivHash iv)) sm in
              (sm, AddInvVect gdmsg iv, numRequested + 1)
        | InvTypeTx =>
            if bool_decide (ivHash iv ∈ requestedTxns sm)
            then (sm, gdmsg, numRequested)
            else
              let m := {[ivHash iv]} ∪ requestedTxns sm in
              let m := limitMap (rangeHashes (ranges sm) m) m maxRequestedTxns in
              let sm := set_ranges (S (ranges sm)) (set_requestedTxns m sm) in
              let sm := update_peer p (add_peer_requestedTxn (ivHash iv)) sm in
              (sm, AddInvVect gdmsg iv, numRequested + 1)
        | _ => (sm, gdmsg, numRequested)
        end in
      if numRequested >=? MaxInvPerMsg then (sm, gdmsg, rest)
      else handleInvMsg_drain p rest gdmsg numRequested sm
  end.

Definition handleInvMsg (p : Peer) (invVects : list InvVect)
  (sm : SyncManager) : SyncManager :=
  match peerStates sm !! p with
  | None => sm
  | Some _ =>
      let lastBlock := lastBlockIndex 0 invVects in
      let lastHash :=
        match invVects !! Z.to_nat lastBlock with
        | Some iv => ivHash iv
        | None => zeroHash
        end in
      let notSync := negb (bool_decide (syncPeer sm = Some p)) in
      let sm :=
        if negb (lastBlock =? -1) && (notSync || current sm)
        then emit (UpdateLastAnnouncedBlock p lastHash) sm else sm in
      if notSync && negb (current sm) then sm
      else
        let sm :=
          if negb (lastBlock =? -1) && current sm then
            match BlockHeightByHash (world sm) lastHash with
            | (blkHeight, None) =>
                emit (UpdateLastBlockHeightCall p blkHeight)
                  (set_world (UpdateLastBlockHeight (world sm) p blkHeight) sm)
            | (_, Some _) => sm
            end
          else sm in
        let sm := handleInvMsg_scan p lastBlock 0 invVects sm in
        let queue :=
          match peerStates sm !! p with
          | Some state => requestQueue state
          | None => []
          end in
        let '(sm, gdmsg, requestQueue) := handleInvMsg_drain p queue [] 0 sm in
        let sm := update_peer p (set_requestQueue requestQueue) sm in
        if (0 <? length gdmsg)%nat then emit (QueueMessage p gdmsg) sm else sm
  end.

(** ** handleNewPeerMsg, handleTxMsg, handleDonePeerMsg *)

Definition handleNewPeerMsg (p : Peer) (sm : SyncManager) : SyncManager :=
  if negb (shutdown sm =? 0) then sm
  else
    let candidate := isSyncCandidate sm p in
    let sm := set_peerStates
                (<[p := mkPeerSyncState candidate [] ∅ ∅]> (peerStates sm)) sm in
    if candidate && bool_decide (syncPeer sm = None) then startSync sm else sm.

Definition handleTxMsg (p : Peer) (tx : Tx) (sm : SyncManager) : SyncManager :=
  match peerStates sm !! p with
  | None => sm
  | Some _ =>
      let txHash := TxHash tx in
      if bool_decide (txHash ∈ rejectedTxns sm) then sm
      else
        let '(w, (acceptedTxs, e)) := ProcessTransaction (world sm) tx (PeerID p) in
        let sm := emit (ProcessTransactionCall tx (PeerID p)) (set_world w sm) in
        let sm := update_peer p (del_peer_requestedTxn txHash) sm in
        let sm := set_requestedTxns (requestedTxns sm ∖ {[txHash]}) sm in
        match e with
        | Some err =>
            let m := {[txHash]} ∪ rejectedTxns sm in
            let m := limitMap (rangeHashes (ranges sm) m) m maxRejectedTxns in
            let sm := set_ranges (S (ranges sm)) (set_rejectedTxns m sm) in
            let '(code, reason) := ErrToRejectErr err in
            emit (PushRejectMsg p "tx" code reason txHash false) sm
        | None => emit (AnnounceNewTransactions acceptedTxs) sm
        end
  end.

(** [for h := range m { delete(global, h) }], in the order [visited]. *)
Definition delete_all (visited : list Hash) (global : gset Hash) : gset Hash :=
  fold_left (fun g h => g ∖ {[h]}) visited global.

Definition handleDonePeerMsg (p : Peer) (sm : SyncManager) : SyncManager :=
  match peerStates sm !! p with
  | None => sm
  | Some state =>
      let sm := set_peerStates (delete p (peerStates sm)) sm in
      let sm := set_requestedTxns
                  (delete_all (rangeHashes (ranges sm) (peerRequestedTxns state))
                     (requestedTxns sm)) sm in
      let sm := set_ranges (S (ranges sm)) sm in
      let sm := set_requestedBlocks
                  (delete_all (rangeHashes (ranges sm) (peerRequestedBlocks state))
                     (requestedBlocks sm)) sm in
      let sm := set_ranges (S (ranges sm)) sm in
      if bool_decide (syncPeer sm = Some p) then
        let sm := set_syncPeer None sm in
        let sm :=
          if headersFirstMode sm then
            let best := BestSnapshot (world sm) in
            resetHeaderState (BestHash best) (BestHeight best) sm
          else sm in
        startSync sm
      else sm
  end.

(** ** Vocabulary of the properties *)

Definition is_Disconnect (e : Event) : bool :=
  match e with Disconnect _ => true | _ => false end.

Definition is_PushRejectMsg (e : Event) : bool :=
  match e with PushRejectMsg _ _ _ _ _ _ => true | _ => false end.

Definition is_ProcessBlockCall (e : Event) : bool :=
  match e with ProcessBlockCall _ _ _ => true | _ => false end.

(** [sm'] has the events of [sm] followed by events that satisfy [P]. *)
Definition adds (P : Event -> Prop) (sm sm' : SyncManager) : Prop :=
  exists l, events sm' = events sm ++ l /\ Forall P l.

(** What a handler that only talks to the chain and to peers other than
    by disconnecting, rejecting or processing a block may emit. *)
Definition benign (e : Event) : Prop :=
  is_Disconnect e = false /\ is_PushRejectMsg e = false
  /\ is_ProcessBlockCall e = false.

(** Every hash a tracked peer owes is in the global map. *)
Definition containment (sm : SyncManager) : Prop :=
  map_Forall (fun _ st => peerRequestedBlocks st ⊆ requestedBlocks sm)
    (peerStates sm).

(** The headers of a message link up from the hash [prev]. *)
Fixpoint links (prev : Hash) (headers : list BlockHeader) : Prop :=
  match headers with
  | [] => True
  | h :: rest => PrevBlock h = prev /\ links (BlockHash h) rest
  end.

(** The height [handleHeadersMsg] computes for the [n]-th header after a
    node of height [h0]: [n] times [prevNode.height + 1] in [int32]. *)
Fixpoint computedHeight (h0 : Z) (n : nat) : Z :=
  match n with
  | O => h0
  | S n' => computedHeight (wrap32 (h0 + 1)) n'
  end.

(** A tracked peer that [startSync] may select. *)
Definition eligible (w : W) (bestHeight : Z) (ps : Peer * peerSyncState) : bool :=
  syncCandidate ps.2 && negb (LastBlock w ps.1 <? bestHeight).

(** ** New and blockHandler *)

(** [New(config)], by what it reads from the configuration: the chain
    with the other collaborators, [ChainParams] and [DisableCheckpoints].
    The subscription of [handleBlockchainNotification] to the chain and
    the message channel are not part of the manager's state here. *)
Definition New (w : W) (params : ChainParams) (disableCheckpoints : bool)
  : SyncManager :=
  let sm := mkSyncManager w params 0 ∅ ∅ ∅ None ∅ false [] CursorNil None
              0%nat [] in
  let best := BestSnapshot (world sm) in
  if negb disableCheckpoints then
    let sm := set_nextCheckpoint
                (findNextHeaderCheckpoint sm (BestHeight best)) sm in
    match nextCheckpoint sm with
    | Some _ => resetHeaderState (BestHash best) (BestHeight best) sm
    | None => sm
    end
  else sm.

(** What arrives on [sm.msgChan]. *)
Inductive Msg :=
| newPeerMsg (peer : Peer)
| txMsg (peer : Peer) (tx : Tx)
| blockMsg (peer : Peer) (b : Block)
| invMsg (peer : Peer) (inv : list InvVect)
| headersMsg (peer : Peer) (headers : list BlockHeader)
| donePeerMsg (peer : Peer)
| getSyncPeerMsg
| processBlockMsg (b : Block) (flags : N)
| isCurrentMsg
| pauseMsg.

(** What the handler sends on the message's reply channel. *)
Inductive Reply :=
| ReplyDone                                   (* msg.reply <- struct{}{} *)
| ReplyPeerID (peerID : Z)
| ReplyProcessBlock (isOrphan : bool) (err : option error)
| ReplyCurrent (isCurrent : bool).

(** One iteration of the loop of [blockHandler] that received [m]:
    the manager afterwards and the replies sent, in order. *)
Definition blockHandler_step (m : Msg) (sm : SyncManager)
  : Result (SyncManager * list Reply) :=
  match m with
  | newPeerMsg peer => Ok (handleNewPeerMsg peer sm, [])
  | txMsg peer tx => Ok (handleTxMsg peer tx sm, [ReplyDone])
  | blockMsg peer b =>
      sm ← handleBlockMsg peer b sm; Ok (sm, [ReplyDone])
  | invMsg peer inv => Ok (handleInvMsg peer inv sm, [])
  | headersMsg peer headers =>
      sm ← handleHeadersMsg peer headers sm; Ok (sm, [])
  | donePeerMsg peer => Ok (handleDonePeerMsg peer sm, [])
  | getSyncPeerMsg =>
      Ok (sm, [ReplyPeerID match syncPeer sm with
                           | Some sp => PeerID sp
                           | None => 0
                           end])
  | processBlockMsg b flags =>
      let heightUpdate := processBlockMsg_heightUpdate b in
      let '(w, (isOrphan, e)) :=
        ProcessBlock (world sm) b flags heightUpdate in
      let sm := emit (ProcessBlockCall b flags heightUpdate) (set_world w sm) in
      Ok (sm,
          match e with
          | Some err => [ReplyProcessBlock false (Some err);
                         ReplyProcessBlock isOrphan None]
          | None => [ReplyProcessBlock isOrphan None]
          end)
  | isCurrentMsg => Ok (sm, [ReplyCurrent (current sm)])
  | pauseMsg => Ok (sm, [])
  end.

(** The loop over the messages received before [quit]. *)
Fixpoint blockHandler_run (msgs : list Msg) (sm : SyncManager)
  : Result (SyncManager * list Reply) :=
  match msgs with
  | [] => Ok (sm, [])
  | m :: rest =>
      r ← blockHandler_step m sm;
      r' ← blockHandler_run rest r.1;
      Ok (r'.1, r.2 ++ r'.2)
  end.

(** A [range] over a map visits each of its entries once. *)
Definition range_visits_all : Prop :=
  (forall n (m : gset Hash), rangeHashes n m ≡ₚ elements m)
  /\ (forall n (m : gmap Peer peerSyncState), rangePeers n m ≡ₚ map_to_list m).

(** What the handlers rely on without checking it: in headers-first
    mode there is a next checkpoint and a sync peer, and the sync peer
    is a tracked peer. *)
Definition well_formed (sm : SyncManager) : Prop :=
  (headersFirstMode sm = true ->
   is_Some (nextCheckpoint sm) /\ is_Some (syncPeer sm))
  /\ (forall sp, syncPeer sm = Some sp -> is_Some (peerStates sm !! sp)).

(** The two maps that [limitMap] keeps small. *)
Definition within_caps (sm : SyncManager) : Prop :=
  Z.of_nat (size (rejectedTxns sm)) <= maxRejectedTxns
  /\ Z.of_nat (size (requestedTxns sm)) <= maxRequestedTxns.

(** A message that cannot make the handler panic when the collaborators
    are in state [w]: any message but a block that should carry a
    coinbase height and has no transaction, or for which the chain
    reports a corrupted database. *)
Definition harmless (w : W) (m : Msg) : Prop :=
  match m with
  | blockMsg _ b =>
      (ShouldHaveSerializedBlockHeight (Header b) = true -> Transactions b <> [])
      /\ forall flags heightUpdate description,
           (ProcessBlock w b flags heightUpdate).2.2
           <> Some (DBError ErrCorruption description)
  | _ => True
  end.

(** The checkpoints are listed by strictly increasing height. *)
Fixpoint ascending (cs : list Checkpoint) : Prop :=
  match cs with
  | [] => True
  | c :: rest => Forall (fun d => Height c < Height d) rest /\ ascending rest
  end.

(** [r] returns a value that satisfies [Q], or it panics and [E] holds. *)
Definition ensures {A} (r : Result A) (Q : A -> Prop) (E : Prop) : Prop :=
  match r with
  | Ok a => Q a
  | Panic => E
  end.

(** [sm'] has the sync peer, the tracked peers, the mode and the next
    checkpoint of [sm]. *)
Definition same_sync (sm sm' : SyncManager) : Prop :=
  syncPeer sm' = syncPeer sm
  /\ dom (peerStates sm') = dom (peerStates sm)
  /\ headersFirstMode sm' = headersFirstMode sm
  /\ nextCheckpoint sm' = nextCheckpoint sm.

(** No transaction was added to [requestedTxns] or [rejectedTxns]. *)
Definition shrinks (sm sm' : SyncManager) : Prop :=
  requestedTxns sm' ⊆ requestedTxns sm
  /\ rejectedTxns sm' ⊆ rejectedTxns sm.

(** The nodes that [handleHeadersMsg] appends to [headerList] for
    [headers], after a node of height [h0]. *)
Fixpoint appended (h0 : Z) (headers : list BlockHeader) : list headerNode :=
  match headers with
  | [] => []
  | h :: rest =>
      mkHeaderNode (wrap32 (h0 + 1)) (BlockHash h)
      :: appended (wrap32 (h0 + 1)) rest
  end.

(** Calls that only record what peer [p] has announced. *)
Definition announces (p : Peer) (e : Event) : Prop :=
  match e with
  | AddKnownInventory q _ => q = p
  | UpdateLastAnnouncedBlock q _ => q = p
  | UpdateLastBlockHeightCall q _ => q = p
  | _ => False
  end.

(** No event, or one [getdata] message with at least one entry queued
    for [sp]. *)
Definition at_most_one_request (sp : Peer) (l : list Event) : Prop :=
  l = [] \/ exists gdmsg, gdmsg <> [] /\ l = [QueueMessage sp gdmsg].

(** [ivs] holds an inventory vector of type [T] for the hash [h]. *)
Definition announced (T : InvType) (ivs : list InvVect) (h : Hash) : Prop :=
  exists iv, iv ∈ ivs /\ ivType iv = T /\ ivHash iv = h.

(** The request for the ancestors of the orphan [b]: [getblocks] from
    the locator of the best chain up to the root of the orphan's chain,
    unless the locator cannot be had. *)
Definition orphan_requests (pp : Peer) (b : Block) (w : W) : list Event :=
  match LatestBlockLocator w with
  | (locator, None) => [PushGetBlocksMsg pp locator (GetOrphanRoot w (BHash b))]
  | (_, Some _) => []
  end.

(** [sm'] has the global [requestedBlocks] of [sm], and every peer
    tracked in one is tracked in the other and owes the same blocks. *)
Definition same_blocks (sm sm' : SyncManager) : Prop :=
  requestedBlocks sm' = requestedBlocks sm
  /\ forall q,
       peerRequestedBlocks <$> peerStates sm' !! q
       = peerRequestedBlocks <$> peerStates sm !! q.

End Manager.

Arguments SyncManager W : clear implicits.

(** ** A small world to evaluate the handlers in

    The chain answers every [ProcessBlock] with a fixed verdict and
    knows the blocks of [toyHave]; [maxInv] stands for
    [wire.MaxInvPerMsg]; [range] visits a map in the order of
    [elements] and [map_to_list], or in the reverse of it when
    [reversed] is set. *)
Record Toy := mkToy {
  toyBest : BestState;
  toyChainHeight : Z;
  toyVerdict : bool * option error;
  toyHave : gset Hash;
  toyLastBlock : gmap Peer Z;
  toyCheckpoints : list Checkpoint;
  toyCurrent : bool
}.

Definition toy_order {A} (reversed : bool) (l : list A) : list A :=
  if reversed then rev l else l.

Definition toy_external (maxInv : Z) (reversed : bool) : External Toy := {|
  ProcessBlock w _ _ _ := (w, toyVerdict w);
  BestChainHeight := toyChainHeight;
  BestSnapshot := toyBest;
  HaveBlock w h := (bool_decide (h ∈ toyHave w), None);
  IsKnownOrphan _ _ := false;
  GetOrphanRoot _ h := h;
  LatestBlockLocator w := ([BestHash (toyBest w)], None);
  BlockLocatorFromHash _ h := [h];
  BlockHeightByHash w _ := (0, Some (OtherError "not found"));
  IsCurrent := toyCurrent;
  Checkpoints := toyCheckpoints;
  FetchUtxoEntry _ _ _ := (None, None);
  ProcessTransaction w _ _ := (w, ([], None));
  HaveTransaction _ _ := false;
  LastBlock w p := default 0 (toyLastBlock w !! p);
  UpdateLastBlockHeight w p h :=
    mkToy (toyBest w) (toyChainHeight w) (toyVerdict w) (toyHave w)
      (<[p := h]> (toyLastBlock w)) (toyCheckpoints w) (toyCurrent w);
  PeerID p := Z.pos p;
  SplitHost _ _ := Some "127.0.0.1"%string;
  PushGetHeadersMsgErr _ _ := false;
  ShouldHaveSerializedBlockHeight h := 2 <=? Version h;
  ExtractCoinbaseHeight t := inl (Z.of_N (TxHash t));
  ErrToRejectErr _ := (16%N, "rejected"%string);
  MaxInvPerMsg := maxInv;
  AddInvVect l iv := l ++ [iv];
  rangeHashes _ m := toy_order reversed (elements m);
  rangePeers _ m := toy_order reversed (map_to_list m)
|}.

(** The mainnet wire limit, and [range] visiting a map as [elements]
    and [map_to_list] list it, or the other way round. *)
Definition listed_order : External Toy := toy_external 50000 false.
Definition reverse_order : External Toy := toy_external 50000 true.

(** A mainnet node whose best chain has height [h], told by the chain
    that every block is against the rules; peer 1 was asked for block 5. *)
Definition rejecting_world (h : Z) : Toy :=
  mkToy (mkBestState 100 h) h (false, Some (BlockchainRuleError "bad block"))
    ∅ (<[1%positive := 10]> ∅) [] true.

Definition asked_peer : peerSyncState := mkPeerSyncState true [] ∅ {[5%N]}.

Definition asked_manager (h : Z) (params : ChainParams) : SyncManager Toy :=
  mkSyncManager (rejecting_world h) params 0 ∅ ∅ {[5%N]}
    (Some 1%positive) (<[1%positive := asked_peer]> ∅)
    false [] CursorNil None 0%nat [].

(** Block 5 in the old format (no height in the coinbase), the same
    block in the new format, and one in the new format without any
    transaction. *)
Definition block_v1 : Block :=
  mkBlock 5 (mkBlockHeader 1 100 5) [mkTx 77 []].
Definition block_v2 : Block :=
  mkBlock 5 (mkBlockHeader 2 100 5) [mkTx 0 []].
Definition block_empty : Block :=
  mkBlock 5 (mkBlockHeader 2 100 5) [].

(** Headers-first download towards the checkpoint (2, 22) from the
    stored tip 100 of height 0; the peer answers with a header 11 on top
    of 100 and a header 99 on top of 11. *)
Definition syncing_world : Toy :=
  mkToy (mkBestState 100 0) 0 (false, None) {[100%N]}
    (<[1%positive := 10]> ∅) [mkCheckpoint 2 22] false.

Definition syncing_manager : SyncManager Toy :=
  mkSyncManager syncing_world (OtherParams "mainnet") 0 ∅ ∅ ∅
    (Some 1%positive) (<[1%positive := mkPeerSyncState true [] ∅ ∅]> ∅)
    true [mkHeaderNode 0 100] CursorNil (Some (mkCheckpoint 2 22)) 0%nat [].

(** Two sync candidates ahead of a node at height 5 that has no sync
    peer; peer 1 still owes block 5, asked for while the node was
    current. *)
Definition idle_world : Toy :=
  mkToy (mkBestState 100 5) 5 (false, None) ∅
    (<[1%positive := 10]> (<[2%positive := 10]> ∅)) [] true.

Definition two_candidates : SyncManager Toy :=
  mkSyncManager idle_world (OtherParams "mainnet") 0 ∅ ∅ {[5%N]} None
    (<[1%positive := asked_peer]>
       (<[2%positive := mkPeerSyncState true [] ∅ ∅]> ∅))
    false [] CursorNil None 0%nat [].

(** The same node before peer 2 arrives: peer 1 is behind (its last
    block is 3), so it was not selected, and it owes block 5. *)
Definition lagging_world : Toy :=
  mkToy (mkBestState 100 5) 5 (false, None) ∅
    (<[1%positive := 3]> (<[2%positive := 10]> ∅)) [] true.

Definition one_candidate : SyncManager Toy :=
  mkSyncManager lagging_world (OtherParams "mainnet") 0 ∅ ∅ {[5%N]} None
    (<[1%positive := asked_peer]> ∅)
    false [] CursorNil None 0%nat [].

(** Headers-first download with a wire limit of 2: block 5 is still in
    flight from the sync peer and the header list holds two further
    blocks, 6 and 7, from [startHeader] on. *)
Definition small_limit : External Toy := toy_external 2 false.

Definition fetching_manager : SyncManager Toy :=
  mkSyncManager syncing_world (OtherParams "mainnet") 0 ∅ ∅ {[5%N]}
    (Some 1%positive) (<[1%positive := asked_peer]> ∅)
    true [mkHeaderNode 1 5; mkHeaderNode 2 6; mkHeaderNode 3 7] (CursorAt 1)
    (Some (mkCheckpoint 3 7)) 0%nat [].

Definition header_11 : BlockHeader := mkBlockHeader 2 100 11.
Definition header_99 : BlockHeader := mkBlockHeader 2 11 99.

(** A peer connects to a new node, answers the request for headers
    with header 11, relays a transaction and an inventory of one block
    and one transaction, and disconnects. *)
Definition handled_messages : list Msg :=
  [newPeerMsg 1%positive;
   headersMsg 1%positive [header_11];
   txMsg 1%positive (mkTx 7 []);
   invMsg 1%positive [mkInvVect InvTypeBlock 11; mkInvVect InvTypeTx 8];
   getSyncPeerMsg;
   donePeerMsg 1%positive].

(** The same collaborators with a mempool that refuses every
    transaction. *)
Definition refusing_mempool : External Toy := {|
  ProcessBlock := ProcessBlock (External := listed_order);
  BestChainHeight := BestChainHeight (External := listed_order);
  BestSnapshot := BestSnapshot (External := listed_order);
  HaveBlock := HaveBlock (External := listed_order);
  IsKnownOrphan := IsKnownOrphan (External := listed_order);
  GetOrphanRoot := GetOrphanRoot (External := listed_order);
  LatestBlockLocator := LatestBlockLocator (External := listed_order);
  BlockLocatorFromHash := BlockLocatorFromHash (External := listed_order);
  BlockHeightByHash := BlockHeightByHash (External := listed_order);
  IsCurrent := IsCurrent (External := listed_order);
  Checkpoints := Checkpoints (External := listed_order);
  FetchUtxoEntry := FetchUtxoEntry (External := listed_order);
  ProcessTransaction w _ _ := (w, ([], Some (MempoolRuleError "refused")));
  HaveTransaction := HaveTransaction (External := listed_order);
  LastBlock := LastBlock (External := listed_order);
  UpdateLastBlockHeight := UpdateLastBlockHeight (External := listed_order);
  PeerID := PeerID (External := listed_order);
  SplitHost := SplitHost (External := listed_order);
  PushGetHeadersMsgErr := PushGetHeadersMsgErr (External := listed_order);
  ShouldHaveSerializedBlockHeight :=
    ShouldHaveSerializedBlockHeight (External := listed_order);
  ExtractCoinbaseHeight := ExtractCoinbaseHeight (External := listed_order);
  ErrToRejectErr := ErrToRejectErr (External := listed_order);
  MaxInvPerMsg := MaxInvPerMsg (External := listed_order);
  AddInvVect := AddInvVect (External := listed_order);
  rangeHashes := rangeHashes (External := listed_order);
  rangePeers := rangePeers (External := listed_order)
|}.

(** Header 22 on top of header 11: the block of the checkpoint (2, 22). *)
Definition header_22 : BlockHeader := mkBlockHeader 2 11 22.

(** Headers-first download whose only checkpoint is block 5 at height
    1: the block is the first of the header list and was asked for. *)
Definition checkpoint_world : Toy :=
  mkToy (mkBestState 100 0) 0 (false, None) {[100%N]}
    (<[1%positive := 10]> ∅) [mkCheckpoint 1 5] false.

Definition checkpoint_manager : SyncManager Toy :=
  mkSyncManager checkpoint_world (OtherParams "mainnet") 0 ∅ ∅ {[5%N]}
    (Some 1%positive) (<[1%positive := asked_peer]> ∅)
    true [mkHeaderNode 1 5] CursorNil (Some (mkCheckpoint 1 5)) 0%nat [].

(** ** blockProgressLogger

    Times are nanoseconds; [time.Time.Sub] saturates at the ends of
    [int64].  The lines logged are kept by their numbers: the blocks and
    the transactions counted and the duration printed. *)
Record LogLine := mkLogLine {
  lineBlocks : Z;
  lineTxs : Z;
  lineDuration : Z
}.

Record blockProgressLogger := mkBlockProgressLogger {
  receivedLogBlocks : Z;        (* int64 *)
  receivedLogTx : Z;            (* int64 *)
  lastBlockLogTime : Z;
  logLines : list LogLine
}.

Definition newBlockProgressLogger (now : Z) : blockProgressLogger :=
  mkBlockProgressLogger 0 0 now [].

Definition time_Sub (t u : Z) : Z :=
  Z.max (- 2 ^ 63) (Z.min (2 ^ 63 - 1) (t - u)).

(** A call of [LogBlockHeight(block)] for a block of [numTx]
    transactions when [time.Now()] is [now], or of [SetLastLogTime(t)]. *)
Inductive LoggerCall :=
| CallLogBlockHeight (numTx : nat) (now : Z)
| CallSetLastLogTime (t : Z).

Definition LogBlockHeight_step (l : blockProgressLogger) (numTx : nat) (now : Z)
  : blockProgressLogger :=
  let blocks := wrap64 (receivedLogBlocks l + 1) in
  let txs := wrap64 (receivedLogTx l + wrap64 (Z.of_nat numTx)) in
  let duration := time_Sub now (lastBlockLogTime l) in
  if duration <? 1000000000 * 2 then
    mkBlockProgressLogger blocks txs (lastBlockLogTime l) (logLines l)
  else
    let durationMillis := Z.quot duration 1000000 in
    let tDuration := wrap64 (wrap64 (10 * 1000000) * Z.quot durationMillis 10) in
    mkBlockProgressLogger 0 0 now
      (logLines l ++ [mkLogLine blocks txs tDuration]).

Definition SetLastLogTime_step (l : blockProgressLogger) (t : Z)
  : blockProgressLogger :=
  mkBlockProgressLogger (receivedLogBlocks l) (receivedLogTx l) t (logLines l).

Definition logger_step (l : blockProgressLogger) (c : LoggerCall)
  : blockProgressLogger :=
  match c with
  | CallLogBlockHeight numTx now => LogBlockHeight_step l numTx now
  | CallSetLastLogTime t => SetLastLogTime_step l t
  end.

Definition logger_run (l : blockProgressLogger) (calls : list LoggerCall)
  : blockProgressLogger :=
  fold_left logger_step calls l.

(** The blocks handed to the logger by [calls], and their transactions. *)
Definition blocks_logged (calls : list LoggerCall) : Z :=
  fold_right (fun c n => match c with
                         | CallLogBlockHeight _ _ => n + 1
                         | CallSetLastLogTime _ => n
                         end) 0 calls.

Definition txs_logged (calls : list LoggerCall) : Z :=
  fold_right (fun c n => match c with
                         | CallLogBlockHeight numTx _ => n + Z.of_nat numTx
                         | CallSetLastLogTime _ => n
                         end) 0 calls.

(** Three blocks, the second more than two seconds after the start. *)
Definition three_blocks : list LoggerCall :=
  [CallLogBlockHeight 1 500000000; CallSetLastLogTime 400000000;
   CallLogBlockHeight 3 2500000000; CallLogBlockHeight 2 2600000000].

Definition sumZ (zs : list Z) : Z := fold_right Z.add 0 zs.

(** A node whose chain files every block as an orphan, and block 5 in
    the new format with height 77 in its coinbase. *)
Definition orphan_world : Toy :=
  mkToy (mkBestState 100 5) 5 (true, None) ∅
    (<[1%positive := 10]> ∅) [] true.

Definition orphan_manager : SyncManager Toy :=
  mkSyncManager orphan_world (OtherParams "mainnet") 0 ∅ ∅ {[5%N]}
    (Some 1%positive) (<[1%positive := asked_peer]> ∅)
    false [] CursorNil None 0%nat [].

Definition block_77 : Block :=
  mkBlock 5 (mkBlockHeader 2 100 5) [mkTx 77 []].

(** Peers 1 and 2 both owe block 5, which is in the global map once;
    peer 2 is the sync peer. *)
Definition shared_request : SyncManager Toy :=
  mkSyncManager idle_world (OtherParams "mainnet") 0 ∅ ∅ {[5%N]}
    (Some 2%positive)
    (<[1%positive := asked_peer]> (<[2%positive := asked_peer]> ∅))
    false [] CursorNil None 0%nat [].

End NetSync.

(* ===================================================================== *)
(** * Properties *)
(* ===================================================================== *)

Lemma wrap32_small z : - 2 ^ 31 <= z < 2 ^ 31 -> wrap32 z = z.
Proof.
  intros Hz. unfold wrap32, wrap.
  change (2 ^ (32 - 1)) with (2 ^ 31). rewrite Z.mod_small; lia.
Qed.

Lemma wrap64_small z : - 2 ^ 63 <= z < 2 ^ 63 -> wrap64 z = z.
Proof.
  intros Hz. unfold wrap64, wrap.
  change (2 ^ (64 - 1)) with (2 ^ 63). rewrite Z.mod_small; lia.
Qed.

Lemma wrap32_add_l a k : wrap32 (wrap32 a + k) = wrap32 (a + k).
Proof.
  unfold wrap32, wrap. change (2 ^ (32 - 1)) with 2147483648.
  change (2 ^ 32) with 4294967296. f_equal.
  replace ((a + 2147483648) mod 4294967296 - 2147483648 + k + 2147483648)
    with ((a + 2147483648) mod 4294967296 + k) by lia.
  rewrite Zplus_mod_idemp_l. f_equal. lia.
Qed.

(** Two numbers less than 2^32 apart wrap to different [int32] values. *)
Lemma wrap32_inj_near a b :
  wrap32 a = wrap32 b -> 0 <= a - b < 2 ^ 32 -> a = b.
Proof.
  unfold wrap32, wrap. change (2 ^ (32 - 1)) with 2147483648.
  change (2 ^ 32) with 4294967296. intros Heq Hnear.
  pose proof (Z.div_mod (a + 2147483648) 4294967296 ltac:(lia)) as Ha.
  pose proof (Z.div_mod (b + 2147483648) 4294967296 ltac:(lia)) as Hb.
  lia.
Qed.

(** ** Mining controller *)

Section ControlProperties.
Import Control.

Lemma walletRPCWatcher_run_app w xs ys :
  walletRPCWatcher_run w (xs ++ ys)
  = walletRPCWatcher_run (walletRPCWatcher_run w xs) ys.
Proof. apply fold_left_app. Qed.

(** One failed attempt and the expiry of its timer. *)
Lemma walletRPCWatcher_failure w :
  phase w = Trying ->
  walletRPCWatcher_run w [InDial true; InTimer]
  = mkWatcher Trying
      (if backoffTime w <=? Second * 5 then backoffTime w + Second
       else backoffTime w)
      false (sleeps w ++ [backoffTime w]).
Proof. destruct w as [ph b m sl]. cbn. intros ->. reflexivity. Qed.

(** The state after [k] straight failures: still trying, and a back-off
    that stops growing at six seconds. *)
Lemma walletRPCWatcher_after_failures (k : nat) :
  let w := walletRPCWatcher_run walletRPCWatcher_init (failures k) in
  phase w = Trying
  /\ backoffTime w = Z.min (Z.of_nat k + 1) 6 * Second
  /\ sleeps w = map (fun i => Z.min (Z.of_nat i) 6 * Second) (seq 1 k).
Proof.
  induction k as [|k IH]; [done|].
  cbn zeta in *. destruct IH as (Hp & Hb & Hs).
  cbn [failures]. rewrite walletRPCWatcher_run_app.
  rewrite (walletRPCWatcher_failure _ Hp). cbn [phase backoffTime sleeps].
  split; [done|]. split.
  - rewrite Hb. unfold Second.
    destruct (Z.leb_spec (Z.min (Z.of_nat k + 1) 6 * 1000000000) (1000000000 * 5)); lia.
  - rewrite Hs, Hb, seq_S, map_app. cbn [map]. do 3 f_equal. lia.
Qed.

(** C7. The wait requested after the k-th failure in a row is
    min(k, 6) seconds: the delay grows by one second per failure from
    one second on, and stops at six seconds, one more than the bound
    of five seconds that the test [backoffTime <= time.Second*5] names. *)
Theorem walletRPCWatcher_backoff (k : nat) :
  Control.sleeps
    (Control.walletRPCWatcher_run Control.walletRPCWatcher_init
       (Control.failures k))
  = map (fun i => Z.min (Z.of_nat i) 6 * Control.Second) (seq 1 k).
Proof. apply (walletRPCWatcher_after_failures k). Qed.

(** Six failures in a row: the sixth wait is six seconds. *)
Example walletRPCWatcher_sixth_wait :
  sleeps (walletRPCWatcher_run walletRPCWatcher_init (failures 6))
  = [1 * Second; 2 * Second; 3 * Second; 4 * Second; 5 * Second; 6 * Second].
Proof. reflexivity. Qed.

(** A successful connection brings the back-off to one second again. *)
Lemma walletRPCWatcher_reset (k : nat) :
  backoffTime
    (walletRPCWatcher_run walletRPCWatcher_init (failures k ++ [InDial false]))
  = Second.
Proof.
  rewrite walletRPCWatcher_run_app.
  destruct (walletRPCWatcher_after_failures k) as (Hp & _ & _).
  cbn [walletRPCWatcher_run fold_left]. unfold walletRPCWatcher_step.
  now rewrite Hp.
Qed.

(** C8. With an [int64] in [lastGenerated] the call returns; the flag
    [getNew] is set exactly in the three cases of the staleness policy;
    whatever the flag, the shards that are sent and stored back are the
    cached ones (none when nothing is cached): no template is generated,
    also not in case (c), where only the two time stamps are renewed. *)
Theorem updateAndSendWork_resends_cached (c : Controller) (e : Env) (g : Z) :
  lastGenerated c = VInt64 g ->
  exists o,
    updateAndSendWork c e = Ok o
    /\ getNew o = getNew_policy c e g
    /\ sent o = default [] (oldBlocks c)
    /\ oldBlocks (after o) = Some (default [] (oldBlocks c))
    /\ (forall sh shs,
          oldBlocks c = Some (sh :: shs) -> getNew o = true ->
          lastTxUpdate (after o) = VInt64 (nowTxUpdate e)
          /\ lastGenerated (after o) = VInt64 (nowGenerated e)).
Proof.
  intros Hg. unfold updateAndSendWork, getNew_policy, stale.
  destruct (oldBlocks c) as [[|sh shs]|] eqn:Hob; cbn.
  - eexists. repeat split; done.
  - rewrite Hg.
    destruct (GoValue_eqb (lastTxUpdate c) (txLastUpdated e)); cbn;
      [eexists; repeat split; done|].
    destruct (wrap64 (g + Minute) <? nowAfter e); cbn;
      eexists; repeat split; done.
  - eexists. repeat split; done.
Qed.

Lemma updateAndSendWork_resends_cached_witness :
  exists o,
    updateAndSendWork stale_controller stale_env = Ok o
    /\ getNew o = true
    /\ sent o = [[Byte.x01; Byte.x02]]
    /\ oldBlocks (after o) = Some [[Byte.x01; Byte.x02]].
Proof.
  destruct (updateAndSendWork_resends_cached stale_controller stale_env 0
              eq_refl) as (o & Hrun & Hflag & Hsent & Hstored & _).
  exists o. repeat split; assumption.
Defined.

End ControlProperties.

(** ** Connection manager *)

Section ConnMgrProperties.
Import ConnMgr.





End ConnMgrProperties.

(** Projections of a manager under setters and [emit]. *)
Ltac sm_simpl :=
  cbn [NetSync.world NetSync.chainParams NetSync.shutdown
       NetSync.rejectedTxns NetSync.requestedTxns NetSync.requestedBlocks
       NetSync.syncPeer NetSync.peerStates NetSync.headersFirstMode
       NetSync.headerList NetSync.startHeader NetSync.nextCheckpoint
       NetSync.ranges NetSync.events NetSync.set_world
       NetSync.set_rejectedTxns
       NetSync.set_requestedTxns NetSync.set_requestedBlocks
       NetSync.set_syncPeer NetSync.set_peerStates
       NetSync.set_headersFirstMode NetSync.set_headerList
       NetSync.set_startHeader NetSync.set_nextCheckpoint NetSync.set_ranges
       NetSync.set_events NetSync.emit NetSync.update_peer] in *.

Ltac rsimpl := cbn [mbind Result_bind mret Result_ret] in *.

(** ** Sync manager: handleBlockMsg *)

Section HandleBlockMsg.
Import NetSync.
Context {W : Type} {ext : External W}.
Implicit Types (sm : SyncManager W) (pp : Peer) (b : Block).

Ltac ev_simpl :=
  cbn [events emit set_world set_rejectedTxns
       set_requestedTxns set_requestedBlocks set_syncPeer set_peerStates
       set_headersFirstMode set_headerList set_startHeader
       set_nextCheckpoint set_ranges set_events update_peer] in *.

Lemma adds_refl P sm : adds P sm sm.
Proof. exists []. by rewrite app_nil_r. Qed.

Lemma adds_trans P sm1 sm2 sm3 :
  adds P sm1 sm2 -> adds P sm2 sm3 -> adds P sm1 sm3.
Proof.
  intros (l1 & E1 & F1) (l2 & E2 & F2). exists (l1 ++ l2).
  rewrite E2, E1, app_assoc. split; [done|]. by apply Forall_app.
Qed.

Lemma adds_events P sm sm' : events sm' = events sm -> adds P sm sm'.
Proof. intros E. exists []. by rewrite app_nil_r. Qed.

Lemma adds_emit P e sm sm' : P e -> adds P sm sm' -> adds P sm (emit e sm').
Proof.
  intros He (l & E & F). exists (l ++ [e]). ev_simpl.
  rewrite E, app_assoc. split; [done|]. apply Forall_app. by split; [|constructor].
Qed.

(** The fetch loop sends nothing by itself. *)
Lemma fetchHeaderBlocks_loop_events walk sh gdmsg n sm sm' gd' :
  fetchHeaderBlocks_loop walk sh gdmsg n sm = Ok (sm', gd') ->
  events sm' = events sm.
Proof.
  revert sh gdmsg n sm. induction walk as [|node rest IH]; intros sh gdmsg n sm.
  - cbn. by intros [= <- <-].
  - cbn [fetchHeaderBlocks_loop].
    destruct (negb (fst (haveInventory sm _))).
    + destruct (syncPeerState _) as [[sp st]|]; rsimpl; [|done].
      destruct (_ >=? _); [by intros [= <- <-]|].
      intros H. by rewrite (IH _ _ _ _ H).
    + rsimpl. destruct (_ >=? _); [by intros [= <- <-]|].
      intros H. by rewrite (IH _ _ _ _ H).
Qed.

Lemma fetchHeaderBlocks_events sm sm' :
  fetchHeaderBlocks sm = Ok sm' -> adds benign sm sm'.
Proof.
  unfold fetchHeaderBlocks. destruct (cursor_is_nil _).
  { intros [= <-]. apply adds_refl. }
  destruct (fetchHeaderBlocks_loop _ _ _ _ _) as [[sm1 gd]|] eqn:Hloop;
    rsimpl; [|done].
  apply fetchHeaderBlocks_loop_events in Hloop.
  destruct (0 <? length gd)%nat.
  - destruct (syncPeer sm1); [|done]. intros [= <-].
    apply adds_emit; [done|]. by apply adds_events.
  - intros [= <-]. by apply adds_events.
Qed.

(** Closes [adds P sm sm'] when [sm'] is [sm] under setters and [emit]s. *)
Ltac adds_by_computation :=
  first
    [ apply adds_events; reflexivity
    | unfold adds; ev_simpl; rewrite <- ?app_assoc;
      eexists; split; [reflexivity|]; repeat constructor ].

Ltac adds_leaf :=
  lazymatch goal with
  | |- Ok _ = Ok _ -> _ => intros [= <-]; adds_by_computation
  | |- Panic = Ok _ -> _ => discriminate
  | |- fetchHeaderBlocks _ = Ok _ -> _ =>
      let H := fresh in
      intros H; apply fetchHeaderBlocks_events in H;
      eapply adds_trans; [|exact H]; adds_by_computation
  end.


Lemma handleBlockMsg_prepare_coinbase pp b sm r :
  handleBlockMsg_prepare pp b sm = Ok r ->
  exists cb, coinbaseHeight b = Ok cb.
Proof.
  unfold handleBlockMsg_prepare.
  destruct (coinbaseHeight b) as [cb|]; [by exists cb|].
  repeat (case_match; rsimpl; simplify_eq); done.
Qed.

(** The orphan branch asks for the ancestors first; what follows is
    neither a disconnect, nor a reject, nor another block. *)
Lemma handleBlockMsg_finish_orphan pp b ck hu bhu sm sm' :
  handleBlockMsg_finish pp b ck true hu bhu sm = Ok sm' ->
  exists l,
    events sm' = events sm ++ orphan_requests pp b (world sm) ++ l
    /\ Forall benign l.
Proof.
  intros Hf.
  assert (Hbase : exists smA,
    events smA = events sm ++ orphan_requests pp b (world sm)
    /\ adds benign smA sm').
  { revert Hf. unfold handleBlockMsg_finish, orphan_requests.
    destruct (coinbaseHeight b) as [cb|]; rsimpl; [|done].
    destruct (LatestBlockLocator (world sm)) as [loc [e|]].
    - exists sm. split; [by rewrite app_nil_r|]. revert Hf.
      destruct cb as [h|]; rsimpl;
        repeat (case_match; rsimpl; simplify_eq);
        adds_leaf.
    - set (smA := emit (PushGetBlocksMsg pp loc _) sm) in *.
      exists smA. split; [done|]. clearbody smA. revert Hf.
      destruct cb as [h|]; rsimpl;
        repeat (case_match; rsimpl; simplify_eq);
        adds_leaf. }
  destruct Hbase as (smA & EA & l & El & Fl).
  exists l. by rewrite El, EA, <- app_assoc.
Qed.

Lemma handleBlockMsg_prepare_events pp b sm ck fl hu bhu sm1 :
  handleBlockMsg_prepare pp b sm = Ok (ck, fl, hu, bhu, sm1) ->
  events sm1 = events sm
  /\ world sm1 = world sm
  /\ rejectedTxns sm1 = rejectedTxns sm
  /\ requestedTxns sm1 = requestedTxns sm
  /\ requestedBlocks sm1 = requestedBlocks sm ∖ {[BHash b]}
  /\ peerStates sm1 = alter (del_peer_requestedBlock (BHash b)) pp (peerStates sm)
  /\ nextCheckpoint sm1 = nextCheckpoint sm
  /\ headersFirstMode sm1 = headersFirstMode sm
  /\ syncPeer sm1 = syncPeer sm.
Proof.
  unfold handleBlockMsg_prepare.
  destruct (coinbaseHeight b) as [cb|];
    repeat (case_match; rsimpl; simplify_eq); try done;
    intros [= <- <- <- <- <-]; done.
Qed.

Lemma handleBlockMsg_requested pp b sm state :
  peerStates sm !! pp = Some state ->
  BHash b ∈ peerRequestedBlocks state ->
  handleBlockMsg pp b sm = handleBlockMsg_process pp b sm.
Proof.
  intros Hst Hin. unfold handleBlockMsg. rewrite Hst.
  by rewrite bool_decide_eq_true_2.
Qed.


Lemma Forall_benign_no_PushRejectMsg l :
  Forall benign l -> Forall (fun e => is_PushRejectMsg e = false) l.
Proof. intros H. eapply Forall_impl; [exact H|]. by intros e (_ & ? & _). Qed.



(** C10. A requested block whose header announces a serialized height
    and whose transaction list is empty makes [handleBlockMsg] panic (it
    indexes [Transactions()[0]]), while the [processBlockMsg] case, which
    tests [len(mbt) > 0], goes on with height 0. *)
Theorem handleBlockMsg_empty_block pp b sm state :
  peerStates sm !! pp = Some state ->
  BHash b ∈ peerRequestedBlocks state ->
  ShouldHaveSerializedBlockHeight (Header b) = true ->
  Transactions b = [] ->
  handleBlockMsg pp b sm = Panic /\ processBlockMsg_heightUpdate b = 0.
Proof.
  intros Hst Hin Hser Htx.
  rewrite (handleBlockMsg_requested _ _ _ _ Hst Hin). split.
  - unfold handleBlockMsg_process, handleBlockMsg_prepare, coinbaseHeight.
    rewrite Hser, Htx.
    repeat (case_match; rsimpl; simplify_eq); done.
  - unfold processBlockMsg_heightUpdate. by rewrite Hser, Htx.
Qed.

End HandleBlockMsg.

Section HandleBlockMsgExamples.
Import NetSync.


Lemma asked_for_block_5 : 5%N ∈ peerRequestedBlocks asked_peer.
Proof. change (5%N ∈ ({[5%N]} : gset N)). by apply elem_of_singleton. Qed.

(** On a node at height 0 the chain rejects the requested block 5
    (old format, so [heightUpdate] is 0) with a rule error: no reject
    message is pushed; the block is taken for an orphan and its
    ancestors are asked for. *)
Lemma handleBlockMsg_rule_error_not_rejected :
  ProcessBlock (External := listed_order) (rejecting_world 0) block_v1 BFNone 0
  = (rejecting_world 0, (false, Some (BlockchainRuleError "bad block")))
  /\ events <$> handleBlockMsg (ext := listed_order) 1%positive block_v1
                  (asked_manager 0 (OtherParams "mainnet"))
     = Ok [ProcessBlockCall block_v1 BFNone 0;
           PushGetBlocksMsg 1%positive [100%N] 5%N].
Proof. split; vm_compute; reflexivity. Qed.

Lemma handleBlockMsg_empty_block_witness :
  handleBlockMsg (ext := listed_order) 1%positive block_empty
    (asked_manager 10 (OtherParams "mainnet")) = Panic
  /\ processBlockMsg_heightUpdate (ext := listed_order) block_empty = 0.
Proof.
  exact (handleBlockMsg_empty_block (ext := listed_order) 1%positive block_empty
           (asked_manager 10 (OtherParams "mainnet")) asked_peer
           eq_refl asked_for_block_5 eq_refl eq_refl).
Defined.

End HandleBlockMsgExamples.


(** ** Sync manager: handleHeadersMsg *)

Section HandleHeadersMsg.
Import NetSync.
Context {W : Type} {ext : External W}.
Implicit Types (sm : SyncManager W) (p : Peer).

Lemma fetchHeaderBlocks_loop_frame walk sh gdmsg n sm sm' gd' :
  fetchHeaderBlocks_loop walk sh gdmsg n sm = Ok (sm', gd') ->
  nextCheckpoint sm' = nextCheckpoint sm
  /\ headersFirstMode sm' = headersFirstMode sm.
Proof.
  revert sh gdmsg n sm. induction walk as [|node rest IH]; intros sh gdmsg n sm.
  - cbn. by intros [= <- <-].
  - cbn [fetchHeaderBlocks_loop].
    destruct (negb (fst (haveInventory sm _))).
    + destruct (syncPeerState _) as [[sp st]|]; rsimpl; [|done].
      destruct (_ >=? _); [by intros [= <- <-]|].
      intros H. by destruct (IH _ _ _ _ H) as [-> ->].
    + rsimpl. destruct (_ >=? _); [by intros [= <- <-]|].
      intros H. by destruct (IH _ _ _ _ H) as [-> ->].
Qed.

Lemma fetchHeaderBlocks_frame sm sm' :
  fetchHeaderBlocks sm = Ok sm' ->
  nextCheckpoint sm' = nextCheckpoint sm
  /\ headersFirstMode sm' = headersFirstMode sm.
Proof.
  unfold fetchHeaderBlocks. destruct (cursor_is_nil _); [by intros [= <-]|].
  destruct (fetchHeaderBlocks_loop _ _ _ _ _) as [[sm1 gd]|] eqn:Hloop;
    rsimpl; [|done].
  apply fetchHeaderBlocks_loop_frame in Hloop as [H1 H2].
  destruct (0 <? length gd)%nat.
  - destruct (syncPeer sm1); [|done]. by intros [= <-].
  - by intros [= <-].
Qed.

Lemma handleHeadersMsg_loop_frame p headers fh sm r :
  handleHeadersMsg_loop p headers fh sm = Ok r ->
  nextCheckpoint (loop_manager r) = nextCheckpoint sm
  /\ headersFirstMode (loop_manager r) = headersFirstMode sm.
Proof.
  revert fh sm. induction headers as [|h rest IH]; intros fh sm.
  - cbn. by intros [= <-].
  - cbn [handleHeadersMsg_loop].
    destruct (last (headerList sm)) as [prevNode|]; [|by intros [= <-]].
    destruct (_ =? _)%N; [|by intros [= <-]].
    set (sm1 := if cursor_is_nil _ then _ else _).
    assert (nextCheckpoint sm1 = nextCheckpoint sm
            /\ headersFirstMode sm1 = headersFirstMode sm) as [E1 E2]
      by (subst sm1; by destruct (cursor_is_nil _)).
    destruct (nextCheckpoint sm1) as [cp|] eqn:Hcp; [|done].
    destruct (_ =? Height cp).
    + destruct (_ =? _)%N; intros [= <-]; cbn; by rewrite ?Hcp, ?E2, <- ?E1.
    + intros H. apply IH in H as [-> ->]. by rewrite Hcp, E2, <- E1.
Qed.

(** Whatever the message, [handleHeadersMsg] returns with
    [nextCheckpoint] and [headersFirstMode] as they were. *)
Lemma handleHeadersMsg_frame p headers sm sm' :
  handleHeadersMsg p headers sm = Ok sm' ->
  nextCheckpoint sm' = nextCheckpoint sm
  /\ headersFirstMode sm' = headersFirstMode sm.
Proof.
  unfold handleHeadersMsg.
  destruct (peerStates sm !! p); [|by intros [= <-]].
  destruct (negb (headersFirstMode sm)); [by intros [= <-]|].
  destruct (_ =? _)%nat; [by intros [= <-]|].
  destruct (handleHeadersMsg_loop _ _ _ _) as [r|] eqn:Hloop; rsimpl; [|done].
  apply handleHeadersMsg_loop_frame in Hloop as [E1 E2].
  destruct r as [sm1|[] fh sm1]; cbn in E1, E2.
  - by intros [= <-].
  - destruct (headerList sm1) as [|front rest]; [done|].
    intros H. apply fetchHeaderBlocks_frame in H as [-> ->]. done.
  - destruct (nextCheckpoint sm1) eqn:Hcp; [|done].
    intros [= <-]. cbn. by rewrite Hcp, E2.
Qed.

Lemma last_snoc_node (l : list headerNode) x : last (l ++ [x]) = Some x.
Proof. apply last_snoc. Qed.

(** The loop reaches the header at the checkpoint height and leaves by
    the disconnect of the mismatch branch. *)
Lemma handleHeadersMsg_loop_mismatch p pre h post cp :
  forall sm back fh,
    nextCheckpoint sm = Some cp ->
    last (headerList sm) = Some back ->
    links (hash back) (pre ++ [h]) ->
    (forall j, (j < length pre)%nat ->
               computedHeight (height back) (S j) <> Height cp) ->
    computedHeight (height back) (S (length pre)) = Height cp ->
    BlockHash h <> CHash cp ->
    exists sm',
      handleHeadersMsg_loop p (pre ++ h :: post) fh sm
      = Ok (HeadersReturn (emit (Disconnect p) sm'))
      /\ events sm' = events sm.
Proof.
  induction pre as [|x pre IH]; intros sm back fh Hcp Hlast Hlinks Hlow Hat Hne.
  - cbn [app handleHeadersMsg_loop]. rewrite Hlast.
    destruct Hlinks as [Hprev _]. rewrite Hprev, N.eqb_refl.
    set (sm1 := if cursor_is_nil _ then _ else _).
    assert (nextCheckpoint sm1 = Some cp /\ events sm1 = events sm) as [E1 E2]
      by (subst sm1; by destruct (cursor_is_nil _)).
    rewrite E1. cbn [height hash]. cbn in Hat. rewrite Hat, Z.eqb_refl.
    rewrite (proj2 (N.eqb_neq _ _) Hne). by exists sm1.
  - cbn [app handleHeadersMsg_loop]. rewrite Hlast.
    destruct Hlinks as [Hprev Hlinks]. rewrite Hprev, N.eqb_refl.
    set (node := mkHeaderNode _ _).
    set (sm1 := if cursor_is_nil _ then _ else _).
    assert (nextCheckpoint sm1 = Some cp /\ events sm1 = events sm
            /\ last (headerList sm1) = Some node) as (E1 & E2 & E3).
    { subst sm1. destruct (cursor_is_nil _); cbn; by rewrite last_snoc_node. }
    rewrite E1. cbn [height hash].
    pose proof (Hlow 0%nat ltac:(cbn; lia)) as H0. cbn [computedHeight] in H0.
    change (height node) with (wrap32 (height back + 1)).
    rewrite (proj2 (Z.eqb_neq _ _) H0).
    destruct (IH sm1 node (BlockHash x) E1 E3 Hlinks) as (sm' & Hrun & Hev);
      [|exact Hat|exact Hne|].
    + intros j Hj. apply (Hlow (S j)). cbn. lia.
    + exists sm'. by rewrite Hrun, Hev.
Qed.

Lemma computedHeight_wrap h0 n :
  computedHeight h0 (S n) = wrap32 (h0 + Z.of_nat (S n)).
Proof.
  revert h0. induction n as [|n IH]; intros h0; [done|].
  change (computedHeight h0 (S (S n)))
    with (computedHeight (wrap32 (h0 + 1)) (S n)).
  rewrite IH, wrap32_add_l. f_equal. lia.
Qed.

(** C5. In headers-first mode, a headers message from a tracked peer
    whose headers link up to one that lands on the height of
    [nextCheckpoint] with another hash: the handler returns after
    disconnecting the peer, and [nextCheckpoint] and [headersFirstMode]
    are what they were. *)
Theorem handleHeadersMsg_checkpoint_mismatch p pre h post sm st cp back :
  peerStates sm !! p = Some st ->
  headersFirstMode sm = true ->
  nextCheckpoint sm = Some cp ->
  last (headerList sm) = Some back ->
  links (hash back) (pre ++ [h]) ->
  Z.of_nat (length pre) < 2 ^ 32 ->
  computedHeight (height back) (S (length pre)) = Height cp ->
  BlockHash h <> CHash cp ->
  exists sm',
    handleHeadersMsg p (pre ++ h :: post) sm = Ok sm'
    /\ events sm' = events sm ++ [Disconnect p]
    /\ nextCheckpoint sm' = nextCheckpoint sm
    /\ headersFirstMode sm' = headersFirstMode sm.
Proof.
  intros Hst Hhf Hcp Hlast Hlinks Hlen Hat Hne.
  assert (Hlow : forall j, (j < length pre)%nat ->
                   computedHeight (height back) (S j) <> Height cp).
  { intros j Hj Heq. rewrite <- Hat, !computedHeight_wrap in Heq.
    symmetry in Heq. apply wrap32_inj_near in Heq; lia. }
  destruct (handleHeadersMsg_loop_mismatch p pre h post cp sm back zeroHash
              Hcp Hlast Hlinks Hlow Hat Hne) as (sm1 & Hrun & Hev).
  assert (Hres : handleHeadersMsg p (pre ++ h :: post) sm
                 = Ok (emit (Disconnect p) sm1)).
  { unfold handleHeadersMsg. rewrite Hst, Hhf. cbn [negb].
    replace (length (pre ++ h :: post) =? 0)%nat with false
      by (symmetry; apply Nat.eqb_neq; rewrite length_app; cbn; lia).
    by rewrite Hrun. }
  exists (emit (Disconnect p) sm1). split; [done|]. split.
  - cbn. by rewrite Hev.
  - by apply handleHeadersMsg_frame in Hres.
Qed.

End HandleHeadersMsg.

Section HandleHeadersMsgExamples.
Import NetSync.

Lemma handleHeadersMsg_checkpoint_mismatch_witness :
  exists sm',
    handleHeadersMsg (ext := listed_order) 1%positive [header_11; header_99]
      syncing_manager = Ok sm'
    /\ events sm' = [Disconnect 1%positive]
    /\ nextCheckpoint sm' = Some (mkCheckpoint 2 22)
    /\ headersFirstMode sm' = true.
Proof.
  refine (handleHeadersMsg_checkpoint_mismatch (ext := listed_order) 1%positive
            [header_11] header_99 [] syncing_manager
            (mkPeerSyncState true [] ∅ ∅) (mkCheckpoint 2 22)
            (mkHeaderNode 0 100) eq_refl eq_refl eq_refl eq_refl _ _ _ _).
  - cbn. auto.
  - cbn. lia.
  - vm_compute. reflexivity.
  - cbn. discriminate.
Defined.

End HandleHeadersMsgExamples.

(** ** Sync manager: choice of the sync peer *)

Section StartSync.
Import NetSync.
Context {W : Type} {ext : External W}.
Implicit Types (sm : SyncManager W) (p : Peer).

(** The loop of [startSync] keeps the last eligible pair it visits. *)
Lemma startSync_pick_last bh (w : W) visited acc :
  startSync_pick bh w visited acc
  = match last (List.filter (eligible w bh) visited) with
    | Some ps => Some ps.1
    | None => acc
    end.
Proof.
  revert acc. induction visited as [|[p st] rest IH]; intros acc; [done|].
  cbn [startSync_pick List.filter]. unfold eligible at 1. cbn [fst snd].
  destruct (syncCandidate st); cbn [negb andb]; [|apply IH].
  destruct (LastBlock w p <? bh); cbn [negb]; [apply IH|].
  rewrite IH, last_cons. by destruct (last _).
Qed.

Lemma startSync_syncPeer sm :
  syncPeer sm = None ->
  (LatestBlockLocator (world sm)).2 = None ->
  syncPeer (startSync sm)
  = startSync_pick (BestHeight (BestSnapshot (world sm))) (world sm)
      (rangePeers (ranges sm) (peerStates sm)) None.
Proof.
  intros Hsp Hloc. unfold startSync. rewrite Hsp. sm_simpl.
  destruct (startSync_pick _ _ _ _) as [bp|]; [|done].
  destruct (LatestBlockLocator (world sm)) as [loc [e|]]; [done|].
  by repeat case_match.
Qed.

(** C9 (as the code has it). Without a sync peer and with a block
    locator at hand, [startSync] selects the last pair that the [range]
    over [peerStates] visits among the tracked sync candidates whose
    [LastBlock()] is not below the local best height: such a peer is
    selected whenever there is one, and no other peer ever is. *)
Theorem startSync_choice sm :
  syncPeer sm = None ->
  (LatestBlockLocator (world sm)).2 = None ->
  rangePeers (ranges sm) (peerStates sm) ≡ₚ map_to_list (peerStates sm) ->
  let bh := BestHeight (BestSnapshot (world sm)) in
  syncPeer (startSync sm)
  = fst <$> last (List.filter (eligible (world sm) bh)
                    (rangePeers (ranges sm) (peerStates sm)))
  /\ (forall p, syncPeer (startSync sm) = Some p ->
        exists st, peerStates sm !! p = Some st
                   /\ syncCandidate st = true
                   /\ bh <= LastBlock (world sm) p)
  /\ (forall p st, peerStates sm !! p = Some st ->
        syncCandidate st = true ->
        bh <= LastBlock (world sm) p ->
        is_Some (syncPeer (startSync sm))).
Proof.
  intros Hsp Hloc Hperm bh.
  rewrite (startSync_syncPeer sm Hsp Hloc), startSync_pick_last. fold bh.
  set (visited := rangePeers (ranges sm) (peerStates sm)) in *.
  assert (Hin : forall ps, ps ∈ List.filter (eligible (world sm) bh) visited <->
                 peerStates sm !! ps.1 = Some ps.2
                 /\ syncCandidate ps.2 = true
                 /\ bh <= LastBlock (world sm) ps.1).
  { intros [q stq]. rewrite list_elem_of_In, filter_In, <- list_elem_of_In.
    rewrite Hperm, elem_of_map_to_list. unfold eligible. cbn [fst snd].
    rewrite andb_true_iff, negb_true_iff, Z.ltb_ge. tauto. }
  split; [by destruct (last _)|]. split.
  - intros p Hp. destruct (last _) as [[q stq]|] eqn:Hlast; [|done].
    injection Hp as <-. apply last_Some_elem_of, Hin in Hlast. by exists stq.
  - intros p st Hst Hc Hh.
    assert (Hne : List.filter (eligible (world sm) bh) visited <> []).
    { intros Hnil. pose proof (proj2 (Hin (p, st)) (conj Hst (conj Hc Hh))) as Hel.
      rewrite Hnil in Hel. by apply elem_of_nil in Hel. }
    apply last_is_Some in Hne as [ps ->]. by eexists.
Qed.

End StartSync.

Section StartSyncExamples.
Import NetSync.

(** The same two candidates give two different sync peers under two
    orders of the [range] over [peerStates], and with peer 1 visited
    first it is peer 2 that is selected. *)
Lemma startSync_depends_on_range_order :
  (rangePeers (External := reverse_order) 0 (peerStates two_candidates)).*1
  = [1%positive; 2%positive]
  /\ syncPeer (startSync (ext := reverse_order) two_candidates) = Some 2%positive
  /\ syncPeer (startSync (ext := listed_order) two_candidates) = Some 1%positive.
Proof. repeat split; vm_compute; reflexivity. Qed.

Lemma startSync_choice_witness :
  syncPeer (startSync (ext := listed_order) two_candidates) = Some 1%positive.
Proof.
  destruct (startSync_choice (ext := listed_order) two_candidates
              eq_refl eq_refl (reflexivity _)) as [H _].
  rewrite H. vm_compute. reflexivity.
Defined.

End StartSyncExamples.

(** ** Sync manager: the request maps *)

Section RequestMaps.
Import NetSync.
Context {W : Type} {ext : External W}.
Implicit Types (sm : SyncManager W) (p : Peer).

Lemma containment_weaken sm sm' :
  peerStates sm' = peerStates sm ->
  requestedBlocks sm ⊆ requestedBlocks sm' ->
  containment sm -> containment sm'.
Proof.
  unfold containment. intros -> Hsub H.
  eapply map_Forall_impl; [exact H|]. cbn. intros _ st Hst. set_solver.
Qed.

(** One turn of the fetch loop on a block the chain does not have. *)
Lemma containment_request sm sp st h :
  peerStates sm !! sp = Some st ->
  containment sm ->
  containment
    (set_peerStates (<[sp := add_peer_requestedBlock h st]> (peerStates sm))
       (set_requestedBlocks ({[h]} ∪ requestedBlocks sm) sm)).
Proof.
  unfold containment. intros Hst H. sm_simpl.
  apply map_Forall_insert_2.
  - cbn. specialize (H sp st Hst). cbn in H. set_solver.
  - eapply map_Forall_impl; [exact H|]. cbn. intros _ st' Hst'. set_solver.
Qed.

Lemma syncPeerState_Some sm sp st :
  syncPeerState sm = Some (sp, st) ->
  syncPeer sm = Some sp /\ peerStates sm !! sp = Some st.
Proof.
  unfold syncPeerState. destruct (syncPeer sm) as [q|]; [|done].
  destruct (peerStates sm !! q) eqn:E; [|done]. by intros [= <- <-].
Qed.

(** The fetch loop only adds to the global map, and what it adds to the
    sync peer's set it adds to the global map. *)
Lemma fetchHeaderBlocks_loop_maps walk :
  forall sh gdmsg n sm sm' gd',
    fetchHeaderBlocks_loop walk sh gdmsg n sm = Ok (sm', gd') ->
    requestedBlocks sm ⊆ requestedBlocks sm'
    /\ syncPeer sm' = syncPeer sm
    /\ (containment sm -> containment sm').
Proof.
  induction walk as [|node rest IH]; intros sh gdmsg n sm sm' gd'.
  - cbn. by intros [= <- <-].
  - cbn [fetchHeaderBlocks_loop].
    destruct (negb (fst (haveInventory sm _))).
    + destruct (syncPeerState _) as [[sp st]|] eqn:Hsps; rsimpl; [|done].
      apply syncPeerState_Some in Hsps as [Hsp Hst]. sm_simpl.
      set (sm1 := set_peerStates _ _).
      assert (H1 : requestedBlocks sm ⊆ requestedBlocks sm1
                   /\ syncPeer sm1 = syncPeer sm
                   /\ (containment sm -> containment sm1)).
      { subst sm1. sm_simpl. split; [set_solver|]. split; [done|].
        by apply containment_request. }
      destruct H1 as (S1 & P1 & C1).
      destruct (_ >=? _).
      * intros [= <- <-]. done.
      * intros H. apply IH in H as (S2 & P2 & C2). sm_simpl.
        split; [set_solver|]. split; [congruence|]. auto.
    + rsimpl. destruct (_ >=? _); [by intros [= <- <-]|].
      intros H. apply IH in H as (S2 & P2 & C2). sm_simpl. auto.
Qed.

Lemma fetchHeaderBlocks_containment sm sm' :
  fetchHeaderBlocks sm = Ok sm' -> containment sm -> containment sm'.
Proof.
  unfold fetchHeaderBlocks. destruct (cursor_is_nil _); [by intros [= <-]|].
  destruct (fetchHeaderBlocks_loop _ _ _ _ _) as [[sm1 gd]|] eqn:Hloop;
    rsimpl; [|done].
  apply fetchHeaderBlocks_loop_maps in Hloop as (_ & _ & C).
  destruct (0 <? length gd)%nat.
  - destruct (syncPeer sm1); [|done]. intros [= <-]. exact C.
  - by intros [= <-].
Qed.

(** [startSync] never writes to a peer's state, and either leaves the
    global map alone or replaces it by an empty one. *)
Lemma startSync_maps sm :
  peerStates (startSync sm) = peerStates sm
  /\ (requestedBlocks (startSync sm) = requestedBlocks sm
      \/ requestedBlocks (startSync sm) = ∅).
Proof.
  unfold startSync. repeat case_match; sm_simpl; auto.
Qed.

Lemma startSync_clears sm bp :
  syncPeer sm = None ->
  startSync_pick (BestHeight (BestSnapshot (world sm))) (world sm)
    (rangePeers (ranges sm) (peerStates sm)) None = Some bp ->
  requestedBlocks (startSync sm) = ∅.
Proof.
  intros Hsp Hpick. unfold startSync. rewrite Hsp. sm_simpl. rewrite Hpick.
  repeat case_match; sm_simpl; auto.
Qed.

Lemma containment_of_empty sm :
  requestedBlocks sm = ∅ ->
  containment sm
  <-> map_Forall (fun _ st => peerRequestedBlocks st = ∅) (peerStates sm).
Proof.
  intros He. unfold containment. rewrite He.
  split; intros H; (eapply map_Forall_impl; [exact H|]); cbn;
    intros _ st Hst; set_solver.
Qed.

Lemma elem_of_delete_all visited (global : gset N) h :
  h ∈ delete_all visited global <-> h ∈ global /\ h ∉ visited.
Proof.
  unfold delete_all. revert global.
  induction visited as [|x l IH]; intros global; cbn [fold_left].
  - set_solver.
  - rewrite IH. set_solver.
Qed.

Lemma handleDonePeerMsg_containment sm p st :
  (forall n m h, h ∈ rangeHashes n m -> h ∈ m) ->
  peerStates sm !! p = Some st ->
  syncPeer sm <> Some p ->
  (forall q stq, q <> p -> peerStates sm !! q = Some stq ->
                 peerRequestedBlocks stq ## peerRequestedBlocks st) ->
  containment sm ->
  containment (handleDonePeerMsg p sm).
Proof.
  intros Hrange Hst Hsp Hdisj Hc. unfold handleDonePeerMsg. rewrite Hst.
  sm_simpl. rewrite bool_decide_eq_false_2 by done.
  unfold containment. sm_simpl.
  intros q stq Hq. apply lookup_delete_Some in Hq as [Hne Hq]. cbn.
  intros h Hh. apply elem_of_delete_all. split.
  - by apply (Hc q stq Hq).
  - intros Hin%Hrange. specialize (Hdisj q stq ltac:(congruence) Hq). set_solver.
Qed.

Lemma same_blocks_refl sm : same_blocks sm sm.
Proof. by split. Qed.

Lemma same_blocks_trans sm1 sm2 sm3 :
  same_blocks sm1 sm2 -> same_blocks sm2 sm3 -> same_blocks sm1 sm3.
Proof.
  intros [G1 P1] [G2 P2]. split; [congruence|]. intros q. by rewrite P2, P1.
Qed.

Lemma same_blocks_containment sm sm' :
  same_blocks sm sm' -> containment sm -> containment sm'.
Proof.
  intros [G P] H q st' Hq. cbn. rewrite G.
  specialize (P q). rewrite Hq in P.
  destruct (peerStates sm !! q) as [st|] eqn:E; [|done].
  cbn in P. injection P as ->. exact (H q st E).
Qed.

Lemma lookup_alter_blocks (f : peerSyncState -> peerSyncState) p
  (m : gmap Peer peerSyncState) q :
  (forall st, peerRequestedBlocks (f st) = peerRequestedBlocks st) ->
  peerRequestedBlocks <$> alter f p m !! q = peerRequestedBlocks <$> m !! q.
Proof.
  intros Hf. destruct (decide (p = q)) as [->|Hne].
  - rewrite lookup_alter_eq. destruct (m !! q); cbn; [by rewrite Hf|done].
  - by rewrite lookup_alter_ne.
Qed.

(** Closes [same_blocks sm sm'] when [sm'] is [sm] under setters that
    leave the blocks alone. *)
Ltac same_blocks_solve :=
  split; sm_simpl;
  [reflexivity
  |intros ?; rewrite ?lookup_alter_blocks by (intros; reflexivity); reflexivity].

Lemma handleTxMsg_blocks p tx sm : same_blocks sm (handleTxMsg p tx sm).
Proof.
  unfold handleTxMsg.
  destruct (peerStates sm !! p); [|apply same_blocks_refl].
  destruct (bool_decide _); [apply same_blocks_refl|].
  destruct (ProcessTransaction _ _ _) as [w [acc [err|]]]; sm_simpl.
  - destruct (ErrToRejectErr err). same_blocks_solve.
  - same_blocks_solve.
Qed.

Lemma handleHeadersMsg_loop_blocks p headers fh sm r :
  handleHeadersMsg_loop p headers fh sm = Ok r ->
  same_blocks sm (loop_manager r).
Proof.
  revert fh sm. induction headers as [|h rest IH]; intros fh sm.
  - cbn. intros [= <-]. apply same_blocks_refl.
  - cbn [handleHeadersMsg_loop].
    destruct (last (headerList sm)) as [prevNode|];
      [|intros [= <-]; cbn; same_blocks_solve].
    destruct (_ =? _)%N; [|intros [= <-]; cbn; same_blocks_solve].
    set (sm1 := if cursor_is_nil _ then _ else _).
    assert (S1 : same_blocks sm sm1)
      by (subst sm1; destruct (cursor_is_nil _); same_blocks_solve).
    clearbody sm1.
    destruct (nextCheckpoint sm1) as [cp|]; [|done].
    destruct (_ =? Height cp).
    + destruct (_ =? _)%N; intros [= <-]; cbn; [done|].
      eapply same_blocks_trans; [exact S1|]. same_blocks_solve.
    + intros H. apply IH in H. by eapply same_blocks_trans.
Qed.

Lemma handleHeadersMsg_containment p headers sm sm' :
  handleHeadersMsg p headers sm = Ok sm' ->
  containment sm -> containment sm'.
Proof.
  unfold handleHeadersMsg. intros H Hc. revert H.
  destruct (peerStates sm !! p); [|by intros [= <-]].
  destruct (negb (headersFirstMode sm)); [by intros [= <-]|].
  destruct (_ =? _)%nat; [by intros [= <-]|].
  destruct (handleHeadersMsg_loop _ _ _ _) as [r|] eqn:Hloop; rsimpl; [|done].
  apply handleHeadersMsg_loop_blocks in Hloop.
  pose proof (same_blocks_containment _ _ Hloop Hc) as Hc1.
  destruct r as [sm1|[] fh sm1]; cbn in Hc1.
  - by intros [= <-].
  - destruct (headerList sm1) as [|front rest]; [done|].
    intros H. eapply fetchHeaderBlocks_containment; [exact H|].
    eapply same_blocks_containment; [|exact Hc1]. same_blocks_solve.
  - destruct (nextCheckpoint sm1); [|done]. by intros [= <-].
Qed.

Lemma handleBlockMsg_finish_containment pp b ck orphan hu bhu sm sm' :
  handleBlockMsg_finish pp b ck orphan hu bhu sm = Ok sm' ->
  containment sm -> containment sm'.
Proof.
  intros H Hc. revert H. unfold handleBlockMsg_finish.
  assert (Hleaf : forall smX, same_blocks sm smX ->
            (Ok smX = Ok sm' -> containment sm')
            /\ (fetchHeaderBlocks smX = Ok sm' -> containment sm')).
  { intros smX S. split.
    - intros [= <-]. by eapply same_blocks_containment.
    - intros H. eapply fetchHeaderBlocks_containment; [exact H|].
      by eapply same_blocks_containment. }
  destruct orphan; rsimpl.
  - destruct (coinbaseHeight b) as [cb|]; rsimpl; [|done].
    repeat (case_match; rsimpl; simplify_eq); try done;
      apply Hleaf; same_blocks_solve.
  - repeat (case_match; rsimpl; simplify_eq); try done;
      apply Hleaf; same_blocks_solve.
Qed.

Lemma handleBlockMsg_containment pp b sm sm' :
  handleBlockMsg pp b sm = Ok sm' ->
  (forall q stq, q <> pp -> peerStates sm !! q = Some stq ->
                 BHash b ∉ peerRequestedBlocks stq) ->
  containment sm -> containment sm'.
Proof.
  unfold handleBlockMsg. intros H Hother Hc. revert H.
  destruct (peerStates sm !! pp) as [state|]; [|by intros [= <-]].
  destruct (_ && _); [by intros [= <-]|].
  unfold handleBlockMsg_process.
  destruct (handleBlockMsg_prepare pp b sm)
    as [[[[[ck fl] hu] bhu] sm1]|] eqn:Hprep; rsimpl; [|done].
  apply handleBlockMsg_prepare_events in Hprep
    as (_ & _ & _ & _ & E5 & E6 & _).
  destruct (ProcessBlock _ _ _ _) as [w [orphan e]].
  set (sm2 := emit _ (set_world w sm1)).
  assert (Hc2 : containment sm2).
  { subst sm2. unfold containment. sm_simpl. rewrite E5, E6.
    intros q stq Hq. cbn.
    apply lookup_alter_Some in Hq as [(-> & st & Hst & ->)|(Hne & Hq)].
    - specialize (Hc _ _ Hst). cbn in Hc. cbn. set_solver.
    - specialize (Hc _ _ Hq). cbn in Hc.
      specialize (Hother q stq ltac:(congruence) Hq). set_solver. }
  clearbody sm2.
  destruct e as [err|].
  - destruct (_ <=? _).
    + destruct (ErrToRejectErr err) as [code reason].
      destruct err as [?|[|?] ?|?|?]; try done; by intros [= <-].
    + intros H. by eapply handleBlockMsg_finish_containment.
  - intros H. by eapply handleBlockMsg_finish_containment.
Qed.

Lemma handleInvMsg_scan_blocks p lastBlock invVects :
  forall i sm,
    same_blocks sm (handleInvMsg_scan p lastBlock i invVects sm)
    /\ forall st',
         peerStates (handleInvMsg_scan p lastBlock i invVects sm) !! p = Some st' ->
         exists st,
           peerStates sm !! p = Some st
           /\ (length (requestQueue st')
               <= length (requestQueue st) + length invVects)%nat.
Proof.
  induction invVects as [|iv rest IH]; intros i sm.
  - cbn. split; [apply same_blocks_refl|]. intros st' H. exists st'.
    split; [done|lia].
  - cbn [handleInvMsg_scan length].
    assert (Hstep : forall sm1,
      same_blocks sm sm1 ->
      (forall st1, peerStates sm1 !! p = Some st1 ->
         exists st, peerStates sm !! p = Some st
           /\ (length (requestQueue st1) <= length (requestQueue st) + 1)%nat) ->
      same_blocks sm (handleInvMsg_scan p lastBlock (i + 1) rest sm1)
      /\ forall st',
           peerStates (handleInvMsg_scan p lastBlock (i + 1) rest sm1) !! p
           = Some st' ->
           exists st,
             peerStates sm !! p = Some st
             /\ (length (requestQueue st')
                 <= length (requestQueue st) + S (length rest))%nat).
    { intros sm1 S1 Q1. destruct (IH (i + 1) sm1) as [S2 Q2].
      split; [by eapply same_blocks_trans|].
      intros st' H. destruct (Q2 st' H) as (st1 & H1 & L1).
      destruct (Q1 st1 H1) as (st & H0 & L0). exists st. split; [done|lia]. }
    clear IH.
    repeat case_match; apply Hstep; try same_blocks_solve;
      try (intros st1 Hst1; sm_simpl; exists st1; split; [exact Hst1|lia]).
    intros st1 Hst1. sm_simpl. rewrite lookup_alter_eq in Hst1.
    destruct (peerStates sm !! p) as [st|]; [|done].
    injection Hst1 as <-. exists st. split; [done|].
    cbn. rewrite length_app. cbn. lia.
Qed.

Lemma containment_add sm p h n :
  containment sm ->
  containment
    (update_peer p (add_peer_requestedBlock h)
       (set_ranges n (set_requestedBlocks ({[h]} ∪ requestedBlocks sm) sm))).
Proof.
  unfold containment. sm_simpl. intros H q st' Hq. cbn.
  apply lookup_alter_Some in Hq as [(-> & st & Hst & ->)|(Hne & Hq)].
  - specialize (H _ _ Hst). cbn in H. cbn. set_solver.
  - specialize (H _ _ Hq). cbn in H. set_solver.
Qed.

(** While the global map stays below its limit, [limitMap] evicts
    nothing and the drain loop keeps containment. *)
Lemma handleInvMsg_drain_containment p queue :
  forall gdmsg n sm sm' gd' rest,
    handleInvMsg_drain p queue gdmsg n sm = (sm', gd', rest) ->
    Z.of_nat (size (requestedBlocks sm)) + Z.of_nat (length queue)
    < maxRequestedBlocks ->
    containment sm -> containment sm'.
Proof.
  induction queue as [|iv queue IH]; intros gdmsg n sm sm' gd' rest.
  - cbn. by intros [= <- <- <-].
  - cbn [handleInvMsg_drain length]. intros Hrun Hb Hc.
    destruct (ivType iv);
      try (destruct (n >=? MaxInvPerMsg);
           [by injection Hrun as <- <- <-
           |apply IH in Hrun; [done|lia|done]]).
    + destruct (bool_decide (ivHash iv ∈ requestedTxns sm)).
      * destruct (n >=? MaxInvPerMsg);
          [by injection Hrun as <- <- <-
          |apply IH in Hrun; [done|lia|done]].
      * set (sm1 := update_peer _ _ _) in Hrun.
        assert (S1 : same_blocks sm sm1) by (subst sm1; same_blocks_solve).
        pose proof (same_blocks_containment _ _ S1 Hc) as Hc1.
        destruct S1 as [G1 _]. clearbody sm1.
        destruct (n + 1 >=? MaxInvPerMsg).
        -- by injection Hrun as <- <- <-.
        -- apply IH in Hrun; [done|rewrite G1; lia|done].
    + destruct (bool_decide (ivHash iv ∈ requestedBlocks sm)).
      * destruct (n >=? MaxInvPerMsg);
          [by injection Hrun as <- <- <-
          |apply IH in Hrun; [done|lia|done]].
      * pose proof (size_union_alt {[ivHash iv]} (requestedBlocks sm)) as Hu.
        rewrite size_singleton in Hu.
        pose proof (subseteq_size (requestedBlocks sm ∖ {[ivHash iv]})
                      (requestedBlocks sm) ltac:(set_solver)) as Hs.
        unfold limitMap in Hrun.
        destruct (Z.gtb_spec
                    (Z.of_nat (size ({[ivHash iv]} ∪ requestedBlocks sm)) + 1)
                    maxRequestedBlocks) as [Hgt|Hle]; [lia|].
        pose proof (containment_add sm p (ivHash iv) (S (ranges sm)) Hc) as Hc1.
        destruct (n + 1 >=? MaxInvPerMsg).
        -- by injection Hrun as <- <- <-.
        -- apply IH in Hrun; [done| |done]. sm_simpl. lia.
Qed.

Lemma handleInvMsg_containment p invVects sm :
  (forall st, peerStates sm !! p = Some st ->
     Z.of_nat (size (requestedBlocks sm)) + Z.of_nat (length (requestQueue st))
     + Z.of_nat (length invVects) < maxRequestedBlocks) ->
  containment sm -> containment (handleInvMsg p invVects sm).
Proof.
  intros Hb Hc. unfold handleInvMsg.
  destruct (peerStates sm !! p) as [st|] eqn:Hst; [|done].
  specialize (Hb st eq_refl).
  set (lastBlock := lastBlockIndex 0 invVects).
  set (lastHash := match invVects !! _ with Some iv => _ | None => _ end).
  set (sm0 := if _ && (_ || current sm) then _ else sm).
  assert (S0 : same_blocks sm sm0 /\ peerStates sm0 = peerStates sm).
  { subst sm0. destruct (_ && (_ || _)); split; try done; same_blocks_solve. }
  clearbody sm0. destruct S0 as [S0 P0].
  pose proof (same_blocks_containment _ _ S0 Hc) as Hc0.
  destruct (_ && negb (current sm0)); [done|].
  set (sm1 := if _ && current sm0 then _ else sm0).
  assert (S1 : same_blocks sm0 sm1 /\ peerStates sm1 = peerStates sm0).
  { subst sm1. destruct (_ && current sm0); [|by split].
    destruct (BlockHeightByHash _ _) as [h [e|]]; split; try done;
      same_blocks_solve. }
  clearbody sm1. destruct S1 as [S1 P1].
  pose proof (same_blocks_containment _ _ S1 Hc0) as Hc1.
  destruct (handleInvMsg_scan_blocks p lastBlock invVects 0 sm1) as [S2 Q2].
  set (sm2 := handleInvMsg_scan _ _ _ _ _) in *.
  pose proof (same_blocks_containment _ _ S2 Hc1) as Hc2.
  assert (G2 : requestedBlocks sm2 = requestedBlocks sm).
  { destruct S0 as [E0 _], S1 as [E1 _], S2 as [E2 _]. congruence. }
  clearbody sm2.
  set (queue := match peerStates sm2 !! p with Some s => _ | None => _ end).
  assert (Hq : (length queue <= length (requestQueue st) + length invVects)%nat).
  { subst queue. destruct (peerStates sm2 !! p) as [st2|] eqn:H2; [|cbn; lia].
    destruct (Q2 st2 eq_refl) as (st1 & H1 & L1).
    rewrite P1, P0, Hst in H1. by injection H1 as <-. }
  clearbody queue.
  destruct (handleInvMsg_drain p queue [] 0 sm2) as [[sm3 gd] rq] eqn:Hd.
  apply handleInvMsg_drain_containment in Hd; [|rewrite G2; lia|done].
  destruct (0 <? length gd)%nat;
    (eapply same_blocks_containment; [|exact Hd]); same_blocks_solve.
Qed.

Lemma handleNewPeerMsg_maps p sm :
  handleNewPeerMsg p sm = sm
  \/ exists c,
       peerStates (handleNewPeerMsg p sm)
       = <[p := mkPeerSyncState c [] ∅ ∅]> (peerStates sm)
       /\ (requestedBlocks (handleNewPeerMsg p sm) = requestedBlocks sm
           \/ requestedBlocks (handleNewPeerMsg p sm) = ∅).
Proof.
  unfold handleNewPeerMsg. destruct (negb (_ =? 0)); [by left|]. right.
  exists (isSyncCandidate sm p).
  set (sm1 := set_peerStates _ sm).
  destruct (_ && _).
  - destruct (startSync_maps sm1) as [-> G]. split; [done|exact G].
  - split; [done|by left].
Qed.

Lemma handleNewPeerMsg_containment p sm :
  containment sm ->
  containment (handleNewPeerMsg p sm)
  <-> (requestedBlocks (handleNewPeerMsg p sm) = requestedBlocks sm
       \/ forall q st, q <> p -> peerStates sm !! q = Some st ->
                       peerRequestedBlocks st = ∅).
Proof.
  intros Hc.
  destruct (handleNewPeerMsg_maps p sm) as [->|(c & P & G)]; [by split; [left|]|].
  unfold containment. rewrite P. split.
  - intros H. destruct G as [G|G]; [by left|]. right. intros q st Hne Hq.
    specialize (H q st). rewrite lookup_insert_ne in H by done.
    specialize (H Hq). cbn in H. rewrite G in H. set_solver.
  - intros H q st Hq. cbn.
    apply lookup_insert_Some in Hq as [[<- <-]|[Hne Hq]]; [cbn; set_solver|].
    destruct H as [->|H].
    + exact (Hc q st Hq).
    + rewrite (H q st ltac:(congruence) Hq). set_solver.
Qed.

Lemma startSync_containment sm :
  containment sm ->
  containment (startSync sm)
  <-> (requestedBlocks (startSync sm) = requestedBlocks sm
       \/ map_Forall (fun _ st => peerRequestedBlocks st = ∅) (peerStates sm)).
Proof.
  intros Hc. destruct (startSync_maps sm) as [P G].
  unfold containment. rewrite P. split.
  - intros H. destruct G as [G|G]; [by left|]. right. intros q st Hq.
    specialize (H q st Hq). cbn in H. rewrite G in H. cbn. set_solver.
  - intros [->|H] q st Hq; [exact (Hc q st Hq)|].
    specialize (H q st Hq). cbn in H. cbn. rewrite H. set_solver.
Qed.

Lemma resetHeaderState_blocks h n sm : same_blocks sm (resetHeaderState h n sm).
Proof.
  unfold resetHeaderState. sm_simpl.
  destruct (nextCheckpoint sm); same_blocks_solve.
Qed.

Lemma handleDonePeerMsg_maps p sm st :
  peerStates sm !! p = Some st ->
  peerStates (handleDonePeerMsg p sm) = delete p (peerStates sm)
  /\ exists n,
       requestedBlocks (handleDonePeerMsg p sm)
       = delete_all (rangeHashes n (peerRequestedBlocks st)) (requestedBlocks sm)
       \/ requestedBlocks (handleDonePeerMsg p sm) = ∅.
Proof.
  intros Hst. unfold handleDonePeerMsg. rewrite Hst. sm_simpl.
  destruct (bool_decide _).
  - match goal with |- context [startSync ?s] => set (smX := s) end.
    destruct (startSync_maps smX) as [P G]. rewrite P.
    assert (PX : peerStates smX = delete p (peerStates sm)
                 /\ requestedBlocks smX
                    = delete_all (rangeHashes (S (ranges sm))
                                    (peerRequestedBlocks st))
                        (requestedBlocks sm)).
    { subst smX. destruct (headersFirstMode sm); [|done].
      unfold resetHeaderState. sm_simpl. by destruct (nextCheckpoint sm). }
    destruct PX as [PX GX]. split; [done|].
    exists (S (ranges sm)). destruct G as [-> | ->]; [by left|by right].
  - split; [done|]. exists (S (ranges sm)). by left.
Qed.

(** Exactly when containment survives the departure of a tracked peer. *)
Lemma handleDonePeerMsg_containment_iff sm p st :
  (forall n m h, h ∈ rangeHashes n m <-> h ∈ m) ->
  peerStates sm !! p = Some st ->
  containment sm ->
  containment (handleDonePeerMsg p sm)
  <-> forall q stq,
        q <> p -> peerStates sm !! q = Some stq ->
        peerRequestedBlocks stq ## peerRequestedBlocks st
        /\ (requestedBlocks (handleDonePeerMsg p sm) = ∅ ->
            peerRequestedBlocks stq = ∅).
Proof.
  intros Hrange Hst Hc.
  destruct (handleDonePeerMsg_maps p sm st Hst) as (P & n & G).
  unfold containment. rewrite P. split.
  - intros H q stq Hne Hq.
    specialize (H q stq). rewrite lookup_delete_ne in H by done.
    specialize (H Hq). cbn in H. split.
    + intros h H1 H2. apply H in H1. destruct G as [G|G]; rewrite G in H1.
      * apply elem_of_delete_all in H1 as [_ H1]. apply H1. by apply Hrange.
      * set_solver.
    + intros G0. rewrite G0 in H. set_solver.
  - intros H q stq Hq. apply lookup_delete_Some in Hq as [Hne Hq]. cbn.
    destruct (H q stq ltac:(congruence) Hq) as [Hd He].
    destruct G as [G|G].
    + rewrite G. intros h Hh. apply elem_of_delete_all. split.
      * by apply (Hc q stq Hq).
      * intros Hin%Hrange. set_solver.
    + rewrite (He G). set_solver.
Qed.

(** C2 (as the code has it). From a state in which every tracked
    peer's [requestedBlocks] is contained in the global map:
    [handleTxMsg], [handleHeadersMsg] and [fetchHeaderBlocks] keep the
    containment; [handleBlockMsg] keeps it when no other tracked peer
    owes the block; [handleInvMsg] keeps it when the global map has room
    for the peer's whole request queue, so that [limitMap] evicts
    nothing; [handleDonePeerMsg] keeps it exactly when every remaining
    peer owes no block of the departed one and owes nothing if the
    global map ends up empty; [handleNewPeerMsg] and [startSync] leave
    the sets of the other peers as they are and either leave the global
    map or, when a sync peer is selected, replace it by an empty one,
    and keep the containment exactly when the global map is as before
    or no (other) tracked peer owes a block. *)
Theorem requestedBlocks_containment sm :
  containment sm ->
  (forall n m h, h ∈ rangeHashes n m <-> h ∈ m) ->
  (forall p tx, containment (handleTxMsg p tx sm))
  /\ (forall p headers sm',
        handleHeadersMsg p headers sm = Ok sm' -> containment sm')
  /\ (forall sm', fetchHeaderBlocks sm = Ok sm' -> containment sm')
  /\ (forall pp b sm',
        handleBlockMsg pp b sm = Ok sm' ->
        (forall q stq, q <> pp -> peerStates sm !! q = Some stq ->
                       BHash b ∉ peerRequestedBlocks stq) ->
        containment sm')
  /\ (forall p invVects,
        (forall st, peerStates sm !! p = Some st ->
           Z.of_nat (size (requestedBlocks sm))
           + Z.of_nat (length (requestQueue st))
           + Z.of_nat (length invVects) < maxRequestedBlocks) ->
        containment (handleInvMsg p invVects sm))
  /\ (forall p,
        peerStates sm !! p = None -> containment (handleDonePeerMsg p sm))
  /\ (forall p st,
        peerStates sm !! p = Some st ->
        (containment (handleDonePeerMsg p sm)
         <-> forall q stq,
               q <> p -> peerStates sm !! q = Some stq ->
               peerRequestedBlocks stq ## peerRequestedBlocks st
               /\ (requestedBlocks (handleDonePeerMsg p sm) = ∅ ->
                   peerRequestedBlocks stq = ∅))
        /\ (syncPeer sm <> Some p ->
            (forall q stq, q <> p -> peerStates sm !! q = Some stq ->
                           peerRequestedBlocks stq ## peerRequestedBlocks st) ->
            containment (handleDonePeerMsg p sm)))
  /\ (forall p,
        containment (handleNewPeerMsg p sm)
        <-> (requestedBlocks (handleNewPeerMsg p sm) = requestedBlocks sm
             \/ forall q st, q <> p -> peerStates sm !! q = Some st ->
                             peerRequestedBlocks st = ∅))
  /\ peerStates (startSync sm) = peerStates sm
  /\ (requestedBlocks (startSync sm) = requestedBlocks sm
      \/ requestedBlocks (startSync sm) = ∅)
  /\ (containment (startSync sm)
      <-> (requestedBlocks (startSync sm) = requestedBlocks sm
           \/ map_Forall (fun _ st => peerRequestedBlocks st = ∅)
                (peerStates sm)))
  /\ (forall bp,
        syncPeer sm = None ->
        startSync_pick (BestHeight (BestSnapshot (world sm))) (world sm)
          (rangePeers (ranges sm) (peerStates sm)) None = Some bp ->
        requestedBlocks (startSync sm) = ∅
        /\ (containment (startSync sm)
            <-> map_Forall (fun _ st => peerRequestedBlocks st = ∅)
                  (peerStates sm))).
Proof.
  intros Hc Hrange.
  split; [|split; [|split; [|split; [|split; [|split; [|split; [|split;
    [|split; [|split; [|split]]]]]]]]]].
  - intros p tx. eapply same_blocks_containment; [apply handleTxMsg_blocks|done].
  - intros p headers sm' H. by apply (handleHeadersMsg_containment p headers sm).
  - intros sm' H. by apply (fetchHeaderBlocks_containment sm).
  - intros pp b sm' H Hother. by apply (handleBlockMsg_containment pp b sm).
  - intros p invVects Hb. by apply handleInvMsg_containment.
  - intros p Hp. unfold handleDonePeerMsg. by rewrite Hp.
  - intros p st Hst. split.
    + by apply handleDonePeerMsg_containment_iff.
    + intros Hsp Hdisj. apply (handleDonePeerMsg_containment sm p st); try done.
      intros n m h. apply Hrange.
  - intros p. by apply handleNewPeerMsg_containment.
  - apply startSync_maps.
  - apply startSync_maps.
  - by apply startSync_containment.
  - intros bp Hsp Hpick. pose proof (startSync_clears sm bp Hsp Hpick) as He.
    split; [done|]. rewrite (containment_of_empty _ He).
    by rewrite (proj1 (startSync_maps sm)).
Qed.

(** [limitMap] on a map that already holds the new entry: with at most
    [limit + 1] entries going in, at most [limit] come out. *)
Lemma limitMap_bound order (m : gset N) limit :
  order ≡ₚ elements m ->
  0 < limit ->
  Z.of_nat (size m) <= limit + 1 ->
  Z.of_nat (size (limitMap order m limit)) <= limit.
Proof.
  intros Hperm Hpos Hsize. unfold limitMap.
  destruct (Z.gtb_spec (Z.of_nat (size m) + 1) limit) as [Hgt|Hle]; [|lia].
  destruct order as [|h rest].
  - apply Permutation_nil_l in Hperm. symmetry in Hperm.
    apply elements_empty_inv in Hperm.
    apply leibniz_equiv in Hperm. subst m. rewrite size_empty. lia.
  - assert (Hin : h ∈ m).
    { apply elem_of_elements. rewrite <- Hperm. by left. }
    assert (size m = S (size (m ∖ {[h]}))) as Hs.
    { rewrite (union_difference_singleton_L h m Hin) at 1.
      rewrite size_union by set_solver. by rewrite size_singleton. }
    lia.
Qed.

Lemma limitMap_insert_bound order (m : gset N) h limit :
  order ≡ₚ elements ({[h]} ∪ m) ->
  0 < limit ->
  Z.of_nat (size m) <= limit ->
  Z.of_nat (size (limitMap order ({[h]} ∪ m) limit)) <= limit.
Proof.
  intros Hperm Hpos Hsize. apply limitMap_bound; [done..|].
  pose proof (size_union_alt {[h]} m) as Hu. rewrite size_singleton in Hu.
  pose proof (subseteq_size (m ∖ {[h]}) m ltac:(set_solver)). lia.
Qed.

(** The inv path keeps both request maps within [MaxInvPerMsg]. *)
Lemma handleInvMsg_drain_bound p queue :
  (forall n m, rangeHashes n m ≡ₚ elements m) ->
  0 < MaxInvPerMsg ->
  forall gdmsg n sm sm' gd' rest,
    handleInvMsg_drain p queue gdmsg n sm = (sm', gd', rest) ->
    Z.of_nat (size (requestedBlocks sm)) <= maxRequestedBlocks ->
    Z.of_nat (size (requestedTxns sm)) <= maxRequestedTxns ->
    Z.of_nat (size (requestedBlocks sm')) <= maxRequestedBlocks
    /\ Z.of_nat (size (requestedTxns sm')) <= maxRequestedTxns.
Proof.
  intros Hrange Hpos. induction queue as [|iv queue IH];
    intros gdmsg n sm sm' gd' rest.
  - cbn. by intros [= <- <- <-].
  - cbn [handleInvMsg_drain]. intros Hrun Hb Ht.
    destruct (ivType iv);
      try (destruct (n >=? MaxInvPerMsg);
           [by injection Hrun as <- <- <- | by apply IH in Hrun]).
    + destruct (bool_decide (ivHash iv ∈ requestedTxns sm)).
      * destruct (n >=? MaxInvPerMsg);
          [by injection Hrun as <- <- <- | by apply IH in Hrun].
      * destruct (n + 1 >=? MaxInvPerMsg).
        -- injection Hrun as <- <- <-. sm_simpl. split; [done|].
           by apply limitMap_insert_bound.
        -- apply IH in Hrun; [done|by sm_simpl|].
           sm_simpl. by apply limitMap_insert_bound.
    + destruct (bool_decide (ivHash iv ∈ requestedBlocks sm)).
      * destruct (n >=? MaxInvPerMsg);
          [by injection Hrun as <- <- <- | by apply IH in Hrun].
      * destruct (n + 1 >=? MaxInvPerMsg).
        -- injection Hrun as <- <- <-. sm_simpl. split; [|done].
           by apply limitMap_insert_bound.
        -- apply IH in Hrun; [done| |by sm_simpl].
           sm_simpl. by apply limitMap_insert_bound.
Qed.

(** The tx path keeps [rejectedTxns] within [maxRejectedTxns]. *)
Lemma handleTxMsg_bound p tx sm :
  (forall n m, rangeHashes n m ≡ₚ elements m) ->
  Z.of_nat (size (rejectedTxns sm)) <= maxRejectedTxns ->
  Z.of_nat (size (rejectedTxns (handleTxMsg p tx sm))) <= maxRejectedTxns.
Proof.
  intros Hrange Hb. unfold handleTxMsg.
  destruct (peerStates sm !! p); [|done].
  destruct (bool_decide _); [done|].
  destruct (ProcessTransaction _ _ _) as [w [acc [err|]]]; sm_simpl; [|done].
  destruct (ErrToRejectErr err). sm_simpl.
  by apply limitMap_insert_bound.
Qed.

(** C3. [fetchHeaderBlocks] records every header it visits whose block
    the chain does not have in the global [requestedBlocks], up to
    [MaxInvPerMsg] of them per call, and evicts nothing: the map grows
    by the number of headers visited, whatever its size was, so it
    passes [maxRequestedBlocks] as soon as it was not empty and a full
    batch is requested. *)
Theorem fetchHeaderBlocks_exceeds_cap sm sp st i nodes :
  syncPeer sm = Some sp ->
  peerStates sm !! sp = Some st ->
  startHeader sm = CursorAt i ->
  drop i (headerList sm) = nodes ->
  NoDup (hash <$> nodes) ->
  (forall nd, nd ∈ nodes -> fst (HaveBlock (world sm) (hash nd)) = false) ->
  (forall nd, nd ∈ nodes -> hash nd ∉ requestedBlocks sm) ->
  Z.of_nat (length nodes) <= MaxInvPerMsg ->
  exists sm',
    fetchHeaderBlocks sm = Ok sm'
    /\ requestedBlocks sm' = list_to_set (hash <$> nodes) ∪ requestedBlocks sm
    /\ size (requestedBlocks sm')
       = (length nodes + size (requestedBlocks sm))%nat
    /\ (maxRequestedBlocks
        < Z.of_nat (length nodes) + Z.of_nat (size (requestedBlocks sm)) ->
        maxRequestedBlocks < Z.of_nat (size (requestedBlocks sm'))).
Proof.
  intros Hsp Hst Hcur Hdrop Hnodup Hhave Hfresh Hlen.
  assert (Hloop : forall walk sh gdmsg n sm0 st0,
    syncPeer sm0 = Some sp -> peerStates sm0 !! sp = Some st0 ->
    world sm0 = world sm ->
    (forall nd, nd ∈ walk -> fst (HaveBlock (world sm) (hash nd)) = false) ->
    n + Z.of_nat (length walk) <= MaxInvPerMsg ->
    exists sm1 gd,
      fetchHeaderBlocks_loop walk sh gdmsg n sm0 = Ok (sm1, gd)
      /\ syncPeer sm1 = Some sp
      /\ requestedBlocks sm1
         = list_to_set (hash <$> walk) ∪ requestedBlocks sm0).
  { induction walk as [|node rest IH]; intros sh gdmsg n sm0 st0 Hs0 Hp0 Hw0 Hh Hn.
    - exists sm0, gdmsg. cbn. split; [done|]. split; [done|]. set_solver.
    - cbn [fetchHeaderBlocks_loop]. unfold haveInventory at 1. cbn [ivType ivHash].
      rewrite Hw0, (Hh node) by set_solver. cbn [negb].
      unfold syncPeerState. sm_simpl. rewrite Hs0, Hp0. rsimpl. sm_simpl.
      destruct (Z.geb_spec (n + 1) MaxInvPerMsg) as [Hge|Hlt].
      + assert (rest = []) as -> by (destruct rest; [done|cbn in Hn; lia]).
        eexists _, _. split; [reflexivity|]. sm_simpl. split; [done|]. set_solver.
      + edestruct (IH (cursor_next sh rest) (AddInvVect gdmsg (mkInvVect InvTypeBlock (hash node))) (n + 1)
                    (set_startHeader (cursor_next sh rest)
                       (set_peerStates
                          (<[sp := add_peer_requestedBlock (hash node) st0]> (peerStates sm0))
                          (set_requestedBlocks ({[hash node]} ∪ requestedBlocks sm0) sm0))))
          as (sm1 & gd & Hrun & Hsp1 & Hrb1).
        * done.
        * sm_simpl. apply lookup_insert_eq.
        * done.
        * intros nd Hnd. apply Hh. set_solver.
        * cbn [length] in Hn. lia.
        * exists sm1, gd. split; [exact Hrun|]. split; [done|].
          rewrite Hrb1. sm_simpl. set_solver. }
  destruct (Hloop nodes (CursorAt i) [] 0 sm st Hsp Hst eq_refl Hhave
              ltac:(lia)) as (sm1 & gd & Hrun & Hsp1 & Hrb1).
  assert (Hsize : size (list_to_set (hash <$> nodes) ∪ requestedBlocks sm)
                  = (length nodes + size (requestedBlocks sm))%nat).
  { rewrite size_union.
    - by rewrite size_list_to_set, length_fmap.
    - intros h Hin1 Hin2. apply elem_of_list_to_set, list_elem_of_fmap in Hin1
        as (nd & -> & Hnd). by apply (Hfresh nd). }
  assert (Hres : exists sm', fetchHeaderBlocks sm = Ok sm'
                             /\ requestedBlocks sm' = requestedBlocks sm1).
  { unfold fetchHeaderBlocks. rewrite Hcur. cbn [cursor_is_nil cursor_chain].
    rewrite Hdrop, Hrun. rsimpl. rewrite Hsp1.
    destruct (0 <? length gd)%nat; by eexists. }
  destruct Hres as (sm' & Hres & Hrb). exists sm'.
  split; [done|]. rewrite Hrb, Hrb1. split; [done|]. split; [done|].
  rewrite Hsize. lia.
Qed.

End RequestMaps.

Section RequestMapsExamples.
Import NetSync.

Lemma containment_one_candidate : containment one_candidate.
Proof.
  unfold containment, one_candidate. cbn [peerStates requestedBlocks].
  apply map_Forall_insert_2; [done|]. apply map_Forall_empty.
Qed.

Lemma containment_two_candidates : containment two_candidates.
Proof.
  unfold containment, two_candidates. cbn [peerStates requestedBlocks].
  apply map_Forall_insert_2; [done|].
  apply map_Forall_insert_2; [cbn; set_solver|]. apply map_Forall_empty.
Qed.

Lemma containment_shared_request : containment shared_request.
Proof.
  unfold containment, shared_request. cbn [peerStates requestedBlocks].
  apply map_Forall_insert_2; [done|].
  apply map_Forall_insert_2; [done|]. apply map_Forall_empty.
Qed.

Lemma containment_asked_manager h params : containment (asked_manager h params).
Proof.
  unfold containment, asked_manager. cbn [peerStates requestedBlocks].
  apply map_Forall_insert_2; [done|]. apply map_Forall_empty.
Qed.

(** A tracked peer that owes a block the global map does not hold. *)
Lemma not_containment {W} (sm : SyncManager W) q st h :
  peerStates sm !! q = Some st ->
  h ∈ peerRequestedBlocks st ->
  h ∉ requestedBlocks sm ->
  ~ containment sm.
Proof. intros Hq Hin Hout Hc. apply Hout. by apply (Hc q st Hq). Qed.

Ltac owes q h :=
  eapply (not_containment _ q _ h);
  [vm_compute; reflexivity
  |refine (bool_decide_unpack _ _); vm_compute; exact I
  |refine (bool_decide_unpack _ _); vm_compute; exact I].

(** Five ways out of containment.  Peer 1 owes block 5 when peer 2,
    which is ahead of the node, arrives: [startSync] selects peer 2 and
    empties the global map.  The same when [startSync] is called with
    both peers tracked.  Peers 1 and 2 both owe block 5: when peer 1
    leaves, or when it delivers the block, the hash leaves the global
    map and peer 2 still owes it.  With a limit of two entries and block
    5 in flight, the sync peer announces block 6: the request is sent,
    [limitMap] evicts the new hash, and the peer owes a block that the
    global map does not hold. *)
Lemma containment_breaks :
  (containment one_candidate
   /\ ~ containment (handleNewPeerMsg (ext := listed_order) 2%positive one_candidate))
  /\ (containment two_candidates
      /\ ~ containment (startSync (ext := listed_order) two_candidates))
  /\ (containment shared_request
      /\ ~ containment (handleDonePeerMsg (ext := listed_order) 1%positive
                          shared_request)
      /\ exists sm',
           handleBlockMsg (ext := listed_order) 1%positive block_v1
             shared_request = Ok sm'
           /\ ~ containment sm')
  /\ (containment (asked_manager 10 (OtherParams "mainnet"))
      /\ events (handleInvMsg (ext := small_limit) 1%positive
                   [mkInvVect InvTypeBlock 6]
                   (asked_manager 10 (OtherParams "mainnet")))
         = [UpdateLastAnnouncedBlock 1%positive 6%N;
            AddKnownInventory 1%positive (mkInvVect InvTypeBlock 6);
            QueueMessage 1%positive [mkInvVect InvTypeBlock 6]]
      /\ ~ containment (handleInvMsg (ext := small_limit) 1%positive
                          [mkInvVect InvTypeBlock 6]
                          (asked_manager 10 (OtherParams "mainnet")))).
Proof.
  split; [|split; [|split]].
  - split; [exact containment_one_candidate|]. owes 1%positive 5%N.
  - split; [exact containment_two_candidates|]. owes 1%positive 5%N.
  - split; [exact containment_shared_request|]. split.
    + owes 2%positive 5%N.
    + eexists. split; [vm_compute; reflexivity|]. owes 2%positive 5%N.
  - split; [apply containment_asked_manager|]. split; [vm_compute; reflexivity|].
    owes 1%positive 6%N.
Qed.

(** With two candidates and peer 1 owing block 5, a transaction from
    peer 1 keeps the containment and [startSync] breaks it. *)
Lemma requestedBlocks_containment_witness :
  containment (handleTxMsg (ext := listed_order) 1%positive (mkTx 7 [])
                 two_candidates)
  /\ requestedBlocks (startSync (ext := listed_order) two_candidates) = ∅
  /\ ~ containment (startSync (ext := listed_order) two_candidates).
Proof.
  destruct (requestedBlocks_containment (ext := listed_order) two_candidates
              containment_two_candidates
              (fun n m h => elem_of_elements m h))
    as (Htx & _ & _ & _ & _ & _ & _ & _ & _ & _ & _ & H).
  split; [exact (Htx 1%positive (mkTx 7 []))|].
  destruct (H 1%positive eq_refl eq_refl) as [He Hiff].
  split; [exact He|]. intros Hc. apply Hiff in Hc.
  specialize (Hc 1%positive asked_peer eq_refl). cbn in Hc.
  assert (Hin : 5%N ∈ (∅ : gset N)) by (rewrite <- Hc; by apply elem_of_singleton).
  by apply not_elem_of_empty in Hin.
Defined.

(** With a wire limit of two entries and block 5 in flight,
    [fetchHeaderBlocks] asks for blocks 6 and 7 and the global map
    holds three hashes. *)
Lemma fetchHeaderBlocks_exceeds_cap_witness :
  exists sm',
    fetchHeaderBlocks (ext := small_limit) fetching_manager = Ok sm'
    /\ size (requestedBlocks sm') = 3%nat
    /\ @maxRequestedBlocks Toy small_limit < 3.
Proof.
  destruct (fetchHeaderBlocks_exceeds_cap (ext := small_limit) fetching_manager
              1%positive asked_peer 1%nat [mkHeaderNode 2 6; mkHeaderNode 3 7]
              eq_refl eq_refl eq_refl eq_refl)
    as (sm' & Hrun & _ & Hsize & Hcap).
  - cbn. apply NoDup_cons. split; [by intros [=]%list_elem_of_singleton|].
    apply NoDup_singleton.
  - intros nd Hnd. vm_compute in Hnd.
    apply elem_of_cons in Hnd as [->|Hnd]; [vm_compute; reflexivity|].
    apply list_elem_of_singleton in Hnd as ->. vm_compute. reflexivity.
  - intros nd Hnd. change (requestedBlocks fetching_manager) with ({[5%N]} : gset N).
    apply elem_of_cons in Hnd as [->|Hnd]; [by intros [=]%elem_of_singleton|].
    apply list_elem_of_singleton in Hnd as ->. by intros [=]%elem_of_singleton.
  - vm_compute. discriminate.
  - exists sm'. split; [exact Hrun|]. split.
    + rewrite Hsize. change (requestedBlocks fetching_manager) with ({[5%N]} : gset N).
      by rewrite size_singleton.
    + reflexivity.
Defined.

(** With a limit of two and one hash in the map, the insertion of a
    second hash is followed by an eviction, and it is the new hash that
    goes: the request for block 6 is sent and forgotten. *)
Example limitMap_evicts_new_entry :
  limitMap (rangeHashes (External := listed_order) 0 ({[6%N]} ∪ {[5%N]}))
    ({[6%N]} ∪ {[5%N]}) 2
  = ({[5%N]} : gset N).
Proof. vm_compute. reflexivity. Qed.

End RequestMapsExamples.

(** ** Connection manager: the state machine *)

Ltac cm_simpl :=
  cbn [ConnMgr.stop ConnMgr.failedAttempts ConnMgr.Cfg ConnMgr.heap
       ConnMgr.pending ConnMgr.conns ConnMgr.actions ConnMgr.with_heap
       ConnMgr.with_pending ConnMgr.with_conns ConnMgr.with_failedAttempts
       ConnMgr.act ConnMgr.id ConnMgr.state ConnMgr.Permanent
       ConnMgr.retryCount ConnMgr.conn ConnMgr.Addr ConnMgr.updateState
       ConnMgr.set_conn ConnMgr.set_retryCount] in *.

Section ConnMgrInvariant.
Import ConnMgr.
Implicit Types (cm : ConnManager) (h : gmap positive ConnReq).

Lemma ids_unique_update h r c c' :
  h !! r = Some c -> id c' = id c -> ids_unique h ->
  ids_unique (<[r := c']> h).
Proof.
  intros Hr Hid Hu r1 r2 c1 c2 H1 H2 Heq.
  apply lookup_insert_Some in H1 as [[<- <-]|[Hn1 H1]];
    apply lookup_insert_Some in H2 as [[<- <-]|[Hn2 H2]]; [done| | |].
  - apply (Hu _ _ c c2); [done..|congruence].
  - apply (Hu _ _ c1 c); [done..|congruence].
  - by apply (Hu _ _ c1 c2).
Qed.

(** Writing a request back under its id keeps the entries of a map,
    provided the new state suits the map when the request is in it. *)
Lemma holds_update h St m r c c' :
  h !! r = Some c -> id c' = id c -> ids_unique h ->
  (m !! id c = Some r -> St (state c')) ->
  holds h St m -> holds (<[r := c']> h) St m.
Proof.
  intros Hr Hid Hu Hst Hm k r0 Hk. destruct (Hm k r0 Hk) as (c0 & H0 & Hk0 & Hs0).
  destruct (decide (r0 = r)) as [->|Hne].
  - assert (c0 = c) as -> by congruence. exists c'.
    rewrite lookup_insert_eq. split; [done|]. split; [congruence|].
    apply Hst. by rewrite Hk0.
  - exists c0. by rewrite lookup_insert_ne.
Qed.

Lemma holds_delete h St m k : holds h St m -> holds h St (delete k m).
Proof.
  intros Hm k' r Hk. apply lookup_delete_Some in Hk as [_ Hk]. by apply Hm.
Qed.

Lemma holds_insert h St m k r c :
  h !! r = Some c -> id c = k -> St (state c) ->
  holds h St m -> holds h St (<[k := r]> m).
Proof.
  intros Hr Hid Hs Hm. apply map_Forall_insert_2; [by exists c|done].
Qed.

(** No id is in both maps. *)
Lemma consistent_disjoint cm k r1 r2 :
  consistent cm -> conns cm !! k = Some r1 -> pending cm !! k = Some r2 -> False.
Proof.
  intros (Hu & Hc & Hp) H1 H2.
  destruct (Hc k r1 H1) as (c1 & Hh1 & Hk1 & Hs1).
  destruct (Hp k r2 H2) as (c2 & Hh2 & Hk2 & Hs2).
  assert (r1 = r2) as -> by (apply (Hu r1 r2 c1 c2); congruence).
  assert (c1 = c2) as -> by congruence.
  destruct Hs2; congruence.
Qed.

Lemma handleFailedConn_consistent r c cm :
  heap cm !! r = Some c -> consistent cm ->
  consistent (handleFailedConn r c cm).
Proof.
  intros Hr (Hu & Hc & Hp). unfold handleFailedConn.
  destruct (negb (stop cm =? 0)); [done|].
  destruct (Permanent c).
  - unfold consistent. cm_simpl.
    split; [by apply (ids_unique_update _ r c)|].
    split.
    + apply (holds_update _ _ _ r c); [done..| |done].
      intros Hk. destruct (Hc _ _ Hk) as (c0 & H0 & _ & Hs).
      assert (c0 = c) as -> by congruence. exact Hs.
    + apply (holds_update _ _ _ r c); [done..| |done].
      intros Hk. destruct (Hp _ _ Hk) as (c0 & H0 & _ & Hs).
      assert (c0 = c) as -> by congruence. exact Hs.
  - destruct (GetNewAddress (Cfg cm)); [|done].
    cm_simpl. by destruct (_ >=? _).
Qed.

(** X1. Every request handled by the dispatch loop keeps its books
    consistent: the requests in [conns] are established, those in
    [pending] are pending or failing, each is filed under its own id,
    and no id is in both maps. *)
Theorem connHandler_consistent cm req :
  consistent cm -> fresh cm req ->
  consistent (connHandler cm req)
  /\ forall k, conns (connHandler cm req) !! k = None
               \/ pending (connHandler cm req) !! k = None.
Proof.
  intros Hcons Hfresh.
  assert (Hgoal : consistent (connHandler cm req)).
  { pose proof Hcons as (Hu & Hc & Hp).
    destruct req as [r|r cn|rid retry|r]; cbn [connHandler fresh] in *.
    - destruct (heap cm !! r) as [c|] eqn:Hr; [|done].
      specialize (Hfresh c eq_refl).
      unfold consistent. cm_simpl.
      split; [by apply (ids_unique_update _ r c)|]. split.
      + apply (holds_update _ _ _ r c); [done..| |done]. congruence.
      + apply (holds_insert _ _ _ _ _ (updateState ConnPending c));
          [apply lookup_insert_eq|done|by left|].
        apply (holds_update _ _ _ r c); [done..| |done]. by left.
    - destruct (heap cm !! r) as [c|] eqn:Hr; [|done].
      destruct (pending cm !! id c) as [r'|] eqn:Hpend.
      + assert (Hres : consistent
                  (with_pending (delete (id c) (pending cm))
                     (with_failedAttempts 0
                        (with_conns (<[id c := r]> (conns cm))
                           (with_heap
                              (<[r := set_retryCount 0
                                        (set_conn cn (updateState ConnEstablished c))]>
                                 (heap cm)) cm))))).
        { unfold consistent. cm_simpl.
          split; [by apply (ids_unique_update _ r c)|]. split.
          - eapply holds_insert; [apply lookup_insert_eq|done|done|].
            apply (holds_update _ _ _ r c); [done..| |done]. done.
          - apply (holds_update _ _ _ r c); [done..| |by apply holds_delete].
            by rewrite lookup_delete_eq. }
        cm_simpl. by destruct (OnConnection (Cfg cm)).
      + by destruct cn.
    - destruct (conns cm !! rid) as [r|] eqn:Hconn.
      + destruct (heap cm !! r) as [c|] eqn:Hr; [|done].
        destruct (Hc _ _ Hconn) as (c0 & H0 & Hk0 & Hs0).
        assert (c0 = c) as -> by congruence.
        assert (Hnp : pending cm !! id c = Some r -> False).
        { intros Hk. apply (consistent_disjoint cm rid r r Hcons); congruence. }
        set (cm1 := with_conns (delete rid (conns cm)) cm).
        set (cm2 := match conn c with Some k => act (CloseConn k) cm1 | None => cm1 end).
        set (cm3 := if OnDisconnection (Cfg cm2) then act (GoOnDisconnection r) cm2 else cm2).
        assert (H3 : heap cm3 = heap cm /\ pending cm3 = pending cm
                     /\ conns cm3 = delete rid (conns cm)).
        { subst cm3 cm2 cm1. destruct (conn c); cm_simpl;
            destruct (OnDisconnection (Cfg cm)); cm_simpl; done. }
        destruct H3 as (Hh3 & Hp3 & Hc3).
        destruct retry; cbn [negb].
        * destruct (_ || _); [|unfold consistent; rewrite Hh3, Hp3, Hc3;
                                split; [done|split; [by apply holds_delete|done]]].
          apply handleFailedConn_consistent; cm_simpl; [rewrite Hh3; apply lookup_insert_eq|].
          unfold consistent. cm_simpl. rewrite Hh3, Hp3, Hc3.
          split; [by apply (ids_unique_update _ r c)|]. split.
          -- apply (holds_update _ _ _ r c); [done..| |by apply holds_delete].
             rewrite <- Hk0, lookup_delete_eq. done.
          -- eapply holds_insert; [apply lookup_insert_eq|done|by left|].
             apply (holds_update _ _ _ r c); [done..| |done]. by left.
        * unfold consistent. cm_simpl. rewrite Hh3, Hp3, Hc3.
          split; [by apply (ids_unique_update _ r c)|]. split.
          -- apply (holds_update _ _ _ r c); [done..| |by apply holds_delete].
             rewrite <- Hk0, lookup_delete_eq. done.
          -- apply (holds_update _ _ _ r c); [done..| |done].
             intros Hk. by destruct (Hnp Hk).
      + destruct (pending cm !! rid) as [r|] eqn:Hpend; [|done].
        destruct (heap cm !! r) as [c|] eqn:Hr; [|done].
        destruct (Hp _ _ Hpend) as (c0 & H0 & Hk0 & Hs0).
        assert (c0 = c) as -> by congruence.
        unfold consistent. cm_simpl.
        split; [by apply (ids_unique_update _ r c)|]. split.
        * apply (holds_update _ _ _ r c); [done..| |done]. congruence.
        * apply (holds_update _ _ _ r c); [done..| |by apply holds_delete].
          rewrite Hk0, lookup_delete_eq. done.
    - destruct (heap cm !! r) as [c|] eqn:Hr; [|done].
      destruct (pending cm !! id c) as [r'|] eqn:Hpend; [|done].
      apply handleFailedConn_consistent; cm_simpl; [apply lookup_insert_eq|].
      unfold consistent. cm_simpl.
      split; [by apply (ids_unique_update _ r c)|]. split.
      + apply (holds_update _ _ _ r c); [done..| |done].
        intros Hk. destruct (consistent_disjoint cm _ _ _ Hcons Hk Hpend).
      + apply (holds_update _ _ _ r c); [done..| |done]. by right. }
  split; [exact Hgoal|]. intros k.
  destruct (conns (connHandler cm req) !! k) as [r1|] eqn:H1; [|by left].
  destruct (pending (connHandler cm req) !! k) as [r2|] eqn:H2; [|by right].
  destruct (consistent_disjoint _ _ _ _ Hgoal H1 H2).
Qed.

End ConnMgrInvariant.

Section ConnMgrRetry.
Import ConnMgr.
Implicit Types (cm : ConnManager).

(** One failed dial of a pending persistent request. *)
Lemma handleFailed_permanent cm r c :
  stop cm = 0 -> heap cm !! r = Some c -> is_Some (pending cm !! id c) ->
  Permanent c = true ->
  0 <= retryCount c -> retryCount c + 1 < 2 ^ 32 ->
  0 <= (retryCount c + 1) * RetryDuration (Cfg cm) < 2 ^ 63 ->
  connHandler cm (handleFailed r)
  = act (AfterFuncConnect
           (Z.min ((retryCount c + 1) * RetryDuration (Cfg cm)) maxRetryDuration) r)
      (with_heap
         (<[r := set_retryCount (retryCount c + 1) (updateState ConnFailing c)]>
            (heap cm)) cm).
Proof.
  intros Hstop Hr [r' Hp] Hperm Hn0 Hn1 Hd. cbn [connHandler].
  rewrite Hr, Hp. unfold handleFailedConn. cm_simpl. rewrite Hstop, Hperm.
  cbn [Z.eqb negb]. rewrite insert_insert_eq.
  rewrite (Z.mod_small (retryCount c + 1)) by lia.
  rewrite wrap64_small by lia.
  destruct (Z.gtb_spec ((retryCount c + 1) * RetryDuration (Cfg cm)) maxRetryDuration).
  - by rewrite Z.min_r by lia.
  - by rewrite Z.min_l by lia.
Qed.

Lemma persistent_backoff_from (k : nat) :
  forall cm r c (n : nat),
    stop cm = 0 -> heap cm !! r = Some c -> is_Some (pending cm !! id c) ->
    Permanent c = true -> retryCount c = Z.of_nat n ->
    0 < RetryDuration (Cfg cm) ->
    Z.of_nat (n + k) < 2 ^ 32 ->
    Z.of_nat (n + k) * RetryDuration (Cfg cm) < 2 ^ 63 ->
    actions (connHandler_run cm (repeat (handleFailed r) k))
    = actions cm
      ++ map (fun i => AfterFuncConnect
                         (Z.min (Z.of_nat i * RetryDuration (Cfg cm)) maxRetryDuration) r)
           (seq (S n) k).
Proof.
  induction k as [|k IH]; intros cm r c n Hstop Hr Hp Hperm Hn Hrd Hk1 Hk2.
  - cbn. by rewrite app_nil_r.
  - cbn [repeat connHandler_run fold_left].
    rewrite (handleFailed_permanent cm r c) by (try done; nia).
    fold (connHandler_run
            (act (AfterFuncConnect
                    (Z.min ((retryCount c + 1) * RetryDuration (Cfg cm)) maxRetryDuration) r)
               (with_heap
                  (<[r := set_retryCount (retryCount c + 1) (updateState ConnFailing c)]>
                     (heap cm)) cm))
            (repeat (handleFailed r) k)).
    rewrite (IH _ r (set_retryCount (retryCount c + 1) (updateState ConnFailing c)) (S n));
      cm_simpl; try done.
    + rewrite <- app_assoc. cbn [seq map app]. do 4 f_equal. lia.
    + apply lookup_insert_eq.
    + lia.
    + replace (S n + k)%nat with (n + S k)%nat by lia. done.
    + replace (S n + k)%nat with (n + S k)%nat by lia. done.
Qed.

(** X2. A persistent request that keeps failing is retried after
    RetryDuration, twice RetryDuration, three times RetryDuration, ...,
    and never later than [maxRetryDuration] (one hour). *)
Theorem persistent_backoff cm r c (k : nat) :
  stop cm = 0 ->
  heap cm !! r = Some c ->
  is_Some (pending cm !! id c) ->
  Permanent c = true ->
  retryCount c = 0 ->
  0 < RetryDuration (Cfg cm) ->
  Z.of_nat k < 2 ^ 32 ->
  Z.of_nat k * RetryDuration (Cfg cm) < 2 ^ 63 ->
  actions (connHandler_run cm (repeat (handleFailed r) k))
  = actions cm
    ++ map (fun i => AfterFuncConnect
                       (Z.min (Z.of_nat i * RetryDuration (Cfg cm)) maxRetryDuration) r)
         (seq 1 k).
Proof.
  intros Hstop Hr Hp Hperm Hn Hrd Hk1 Hk2.
  by apply (persistent_backoff_from k cm r c 0).
Qed.






(** X4. A request removed while its dial is under way: when the dial
    succeeds afterwards, the connection is closed at once, the request
    stays canceled and does not enter [conns]. *)
Theorem Remove_then_connected rid cm r c cn :
  stop cm = 0 ->
  conns cm !! rid = None ->
  pending cm !! rid = Some r ->
  heap cm !! r = Some c ->
  id c = rid ->
  let cm' := connHandler (Remove rid cm) (handleConnected r cn) in
  heap cm' !! r = Some (updateState ConnCanceled c)
  /\ conns cm' = conns cm
  /\ pending cm' = delete rid (pending cm)
  /\ actions cm'
     = actions cm ++ match cn with Some k => [CloseConn k] | None => [] end.
Proof.
  intros Hstop Hc Hp Hr Hid cm'. subst cm'. unfold Remove.
  rewrite Hstop. cbn [Z.eqb negb connHandler]. rewrite Hc, Hp, Hr. cm_simpl.
  rewrite lookup_insert_eq. cm_simpl. rewrite Hid, lookup_delete_eq.
  destruct cn; cm_simpl; rewrite ?lookup_insert_eq, ?app_nil_r; done.
Qed.

(** X5. [Disconnect(id)] of an established connection always takes it
    out of [conns] and closes it; the request goes back to [pending], in
    state [ConnPending], exactly when fewer than [TargetOutbound]
    connections are left or the request is persistent, and a persistent
    one has its retry timer armed.  Otherwise the request is filed
    nowhere and keeps the state it had. *)
Theorem Disconnect_established rid cm r c :
  stop cm = 0 ->
  conns cm !! rid = Some r ->
  heap cm !! r = Some c ->
  let cm' := Disconnect rid cm in
  let again :=
    (Z.of_nat (size (delete rid (conns cm))) mod 2 ^ 32 <? TargetOutbound (Cfg cm))
    || Permanent c in
  conns cm' = delete rid (conns cm)
  /\ (forall k, conn c = Some k -> CloseConn k ∈ actions cm')
  /\ (again = true ->
      pending cm' = <[rid := r]> (pending cm)
      /\ state <$> heap cm' !! r = Some ConnPending
      /\ (Permanent c = true ->
          exists d, last (actions cm') = Some (AfterFuncConnect d r)))
  /\ (again = false ->
      pending cm' = pending cm /\ heap cm' = heap cm
      /\ List.filter is_retry (actions cm') = List.filter is_retry (actions cm)).
Proof.
  intros Hstop Hc Hr cm' again. subst cm'. unfold Disconnect.
  rewrite Hstop. cbn [Z.eqb negb connHandler]. rewrite Hc, Hr. cbn [negb].
  set (cm1 := with_conns (delete rid (conns cm)) cm).
  set (cm2 := match conn c with Some k => act (CloseConn k) cm1 | None => cm1 end).
  set (cm3 := if OnDisconnection (Cfg cm2) then act (GoOnDisconnection r) cm2 else cm2).
  assert (H3 : heap cm3 = heap cm /\ pending cm3 = pending cm
               /\ conns cm3 = delete rid (conns cm) /\ Cfg cm3 = Cfg cm
               /\ stop cm3 = stop cm
               /\ (forall k, conn c = Some k -> CloseConn k ∈ actions cm3)
               /\ List.filter is_retry (actions cm3) = List.filter is_retry (actions cm)).
  { subst cm3 cm2 cm1. destruct (conn c) as [k0|]; cm_simpl;
      destruct (OnDisconnection (Cfg cm)); cm_simpl;
      repeat split; try done; try (intros k [= <-]; set_solver);
      rewrite ?List.filter_app; cbn; by rewrite ?app_nil_r. }
  destruct H3 as (Hh3 & Hp3 & Hc3 & Hg3 & Hs3 & Hcl3 & Hf3).
  rewrite Hc3, Hg3. fold again. destruct again eqn:Hagain.
  - unfold handleFailedConn. cm_simpl. rewrite Hs3, Hstop, Hg3, Hh3, Hp3.
    cbn [Z.eqb negb].
    destruct (Permanent c) eqn:Hperm; cm_simpl.
    + rewrite Hc3, insert_insert_eq, lookup_insert_eq. cbn.
      repeat split; try done.
      * intros k Hk. specialize (Hcl3 k Hk). set_solver.
      * intros _. eexists. by rewrite last_snoc.
    + destruct (GetNewAddress (Cfg cm)); cm_simpl;
        [destruct (_ >=? _); cm_simpl|];
        rewrite ?Hc3, ?Hh3, ?Hp3, lookup_insert_eq; cbn;
        repeat split; try done;
        intros k Hk; specialize (Hcl3 k Hk); set_solver.
  - rewrite Hc3, Hh3, Hp3. repeat split; done.
Qed.

End ConnMgrRetry.

Section ConnMgrRetryExamples.
Import ConnMgr.

Lemma consistent_example_cm : consistent example_cm.
Proof.
  split; [|split].
  - intros r1 r2 c1 c2 H1 H2 Hid. unfold example_cm in *. cm_simpl.
    apply lookup_insert_Some in H1 as [[<- <-]|[_ H1]];
      apply lookup_insert_Some in H2 as [[<- <-]|[_ H2]]; try done.
    + apply lookup_insert_Some in H2 as [[<- <-]|[_ H2]]; done.
    + apply lookup_insert_Some in H1 as [[<- <-]|[_ H1]]; done.
    + apply lookup_insert_Some in H1 as [[<- <-]|[_ H1]]; [|done].
      apply lookup_insert_Some in H2 as [[<- <-]|[_ H2]]; done.
  - apply map_Forall_insert_2; [|apply map_Forall_empty].
    by exists established_req.
  - apply map_Forall_insert_2; [|apply map_Forall_empty].
    exists pending_req. repeat split; by left.
Qed.

Lemma connHandler_consistent_witness :
  consistent (connHandler example_cm (handleConnected 2%positive (Some 5%N)))
  /\ conns (connHandler example_cm (handleConnected 2%positive (Some 5%N))) !! 8
     = Some 2%positive.
Proof.
  split; [|reflexivity].
  exact (proj1 (connHandler_consistent example_cm
                  (handleConnected 2%positive (Some 5%N))
                  consistent_example_cm I)).
Defined.

(** Four failures with a retry duration of 5 seconds: 5, 10, 15 and 20
    seconds. *)
Lemma persistent_backoff_witness :
  actions (connHandler_run persistent_cm (repeat (handleFailed 2%positive) 4))
  = [AfterFuncConnect 5000000000 2%positive;
     AfterFuncConnect 10000000000 2%positive;
     AfterFuncConnect 15000000000 2%positive;
     AfterFuncConnect 20000000000 2%positive].
Proof.
  rewrite (persistent_backoff persistent_cm 2%positive persistent_req 4
             eq_refl eq_refl (ex_intro _ 2%positive eq_refl) eq_refl eq_refl
             eq_refl eq_refl eq_refl).
  reflexivity.
Defined.


Lemma Remove_then_connected_witness :
  state <$> heap (connHandler (Remove 8 example_cm)
                    (handleConnected 2%positive (Some 5%N))) !! 2%positive
  = Some ConnCanceled.
Proof.
  destruct (Remove_then_connected 8 example_cm 2%positive pending_req (Some 5%N)
              eq_refl eq_refl eq_refl eq_refl eq_refl) as [H _].
  rewrite H. reflexivity.
Defined.

Lemma Disconnect_established_witness :
  pending (Disconnect 7 example_cm) !! 7 = Some 1%positive.
Proof.
  destruct (Disconnect_established 7 example_cm 1%positive established_req
              eq_refl eq_refl eq_refl) as (_ & _ & H & _).
  destruct (H eq_refl) as [Hp _]. rewrite Hp. reflexivity.
Defined.

End ConnMgrRetryExamples.

(** ** Mining controller: the two loops *)

Section ControlLoops.
Import Control.

Lemma walletRPCWatcher_step_ok w i :
  watcher_ok w -> watcher_ok (walletRPCWatcher_step w i).
Proof.
  destruct w as [ph b m sl].
  unfold watcher_ok, walletRPCWatcher_step, Second.
  cbn [phase backoffTime isMining sleeps]. intros (Hb & Hs & Hc & Hsl).
  destruct ph, i as [|[]| | |[]]; cbn [phase backoffTime isMining sleeps];
    (split; [|split; [|split]]);
    try (intros He; try discriminate He);
    try (destruct (Hc eq_refl) as [-> ->]);
    try (rewrite (Hsl eq_refl));
    try (apply Forall_app; split; [done|constructor; [lia|constructor]]);
    try (destruct (Z.leb_spec b (1000000000 * 5)); lia);
    try done; try lia.
Qed.

(** X6. Whatever the wallet and the timers do, the watcher's back-off
    delay stays between one and six seconds, every wait it asks for is
    in that range, it reports mining whenever it is connected (with the
    delay back at one second) and not mining while it waits to retry. *)
Theorem walletRPCWatcher_invariant (ins : list Input) :
  let w := walletRPCWatcher_run walletRPCWatcher_init ins in
  Second <= backoffTime w <= 6 * Second
  /\ Forall (fun d => Second <= d <= 6 * Second) (sleeps w)
  /\ (phase w = Connected -> isMining w = true /\ backoffTime w = Second)
  /\ (phase w = Sleeping -> isMining w = false).
Proof.
  cbv zeta. change (watcher_ok (walletRPCWatcher_run walletRPCWatcher_init ins)).
  assert (Hinit : watcher_ok walletRPCWatcher_init).
  { unfold watcher_ok, walletRPCWatcher_init, Second. cbn.
    repeat split; try done; lia. }
  revert Hinit. generalize walletRPCWatcher_init.
  induction ins as [|i ins IH]; intros w Hw; [done|].
  cbn [walletRPCWatcher_run fold_left]. apply IH.
  by apply walletRPCWatcher_step_ok.
Qed.

End ControlLoops.

Section Advertiser.
Import Control.

Lemma updateAndSendWork_int64 c e g :
  lastGenerated c = VInt64 g ->
  exists o,
    updateAndSendWork c e = Ok o
    /\ sent o = default [] (oldBlocks c)
    /\ oldBlocks (after o) = Some (default [] (oldBlocks c))
    /\ exists g', lastGenerated (after o) = VInt64 g'.
Proof.
  intros Hg. unfold updateAndSendWork, stale.
  destruct (oldBlocks c) as [[|sh shs]|] eqn:Hob; cbn.
  - eexists. repeat split; eauto.
  - rewrite Hg.
    destruct (GoValue_eqb (lastTxUpdate c) (txLastUpdated e)); cbn;
      [eexists; repeat split; eauto|].
    destruct (wrap64 (g + Minute) <? nowAfter e); cbn;
      eexists; repeat split; eauto.
  - eexists. repeat split; eauto.
Qed.

Lemma count_app f a l :
  Z.of_nat (length (List.filter f (advLog a ++ l)))
  = count f a + Z.of_nat (length (List.filter f l)).
Proof. unfold count. rewrite List.filter_app, length_app. lia. Qed.

Lemma due_step c :
  0 <= c ->
  (c + 1 + 9) / 10 - (c + 9) / 10 = if Z.rem c 10 =? 0 then 1 else 0.
Proof.
  intros Hc. rewrite Z.rem_mod_nonneg by lia.
  destruct (Z.eqb_spec (c mod 10) 0); Z.div_mod_to_equations; lia.
Qed.

Lemma advertiser_tick a h m1 m2 al ads e g :
  exited a = false ->
  lastGenerated (ctl a) = VInt64 g ->
  0 <= counter a < 2 ^ 63 - 1 ->
  exists a',
    advertiser_step a (AdvTick h m1 m2 al ads e) = Ok a'
    /\ exited a' = false
    /\ (exists g', lastGenerated (ctl a') = VInt64 g')
    /\ default [] (oldBlocks (ctl a')) = default [] (oldBlocks (ctl a))
    /\ counter a' = counter a + 1
    /\ height a' = h
    /\ (active a = true -> active a' = true)
    /\ count is_SendAdvt a' = count is_SendAdvt a + 1
    /\ count is_GetAdvt a'
       = count is_GetAdvt a + ((counter a + 1 + 9) / 10 - (counter a + 9) / 10)
    /\ (Forall (carries (default [] (oldBlocks (ctl a)))) (advLog a) ->
        Forall (carries (default [] (oldBlocks (ctl a)))) (advLog a')).
Proof.
  intros Hex Hg Hc. unfold advertiser_step. rewrite Hex.
  rewrite due_step by lia. unfold countTick.
  rewrite wrap64_small by lia.
  assert (Hact : active a = true ->
          (let '(_, active1) :=
             if m1 && negb (once a) then (true, true) else (once a, active a)
           in active1) = true).
  { by destruct (m1 && negb (once a)). }
  destruct (if m1 && negb (once a) then (true, true) else (once a, active a))
    as [once1 active1].
  assert (Hlog : forall f,
    Z.of_nat (length (List.filter f
      ((if Z.rem (counter a) 10 =? 0
        then advLog a ++ GetAdvt :: (if al then [SavePod ads] else [])
        else advLog a) ++ [SendAdvt])))
    = count f a
      + (if Z.rem (counter a) 10 =? 0
         then (if f GetAdvt then 1 else 0)
              + (if al then if f (SavePod ads) then 1 else 0 else 0)
         else 0)
      + (if f SendAdvt then 1 else 0)).
  { intros f. destruct (Z.rem (counter a) 10 =? 0).
    - rewrite <- app_assoc, count_app. cbn [app List.filter].
      destruct al; cbn [app List.filter];
        destruct (f GetAdvt), (f SendAdvt); try destruct (f (SavePod ads));
        cbn [length]; lia.
    - rewrite count_app. cbn [List.filter].
      destruct (f SendAdvt); cbn [length]; lia. }
  assert (Hcar : forall b, Forall (carries b) (advLog a) ->
    Forall (carries b)
      ((if Z.rem (counter a) 10 =? 0
        then advLog a ++ GetAdvt :: (if al then [SavePod ads] else [])
        else advLog a) ++ [SendAdvt])).
  { intros b Hb. apply Forall_app. split; [|by repeat constructor].
    destruct (Z.rem (counter a) 10 =? 0); [|done].
    apply Forall_app. split; [done|]. destruct al; by repeat constructor. }
  set (L := (if Z.rem (counter a) 10 =? 0
             then advLog a ++ GetAdvt :: (if al then [SavePod ads] else [])
             else advLog a) ++ [SendAdvt]) in *.
  destruct m2.
  - destruct (updateAndSendWork_int64 (ctl a) e g Hg)
      as (o & Ho & Hsent & Hold & Hg').
    rewrite Ho. cbn [mbind Result_bind]. eexists. split; [reflexivity|].
    cbn [exited ctl counter height active advLog].
    split; [done|]. split; [done|]. split; [by rewrite Hold|].
    split; [done|]. split; [done|]. split; [done|].
    unfold count in *. cbn [advLog].
    rewrite !List.filter_app, !length_app, !Nat2Z.inj_add, !Hlog.
    cbn [List.filter is_SendAdvt is_GetAdvt length].
    split; [destruct (Z.rem (counter a) 10 =? 0), al; lia|].
    split; [destruct (Z.rem (counter a) 10 =? 0), al; lia|].
    intros Hb. apply Forall_app. split; [by apply Hcar|].
    by repeat constructor.
  - eexists. split; [reflexivity|].
    cbn [exited ctl counter height active advLog].
    split; [done|]. split; [by eexists|]. split; [done|].
    split; [done|]. split; [done|]. split; [done|].
    unfold count in *. cbn [advLog]. rewrite !Hlog.
    cbn [is_SendAdvt is_GetAdvt].
    split; [destruct (Z.rem (counter a) 10 =? 0), al; lia|].
    split; [destruct (Z.rem (counter a) 10 =? 0), al; lia|].
    apply Hcar.
Qed.

Lemma advertiser_ticks_from (ins : list AdvInput) :
  forall a g,
    exited a = false ->
    lastGenerated (ctl a) = VInt64 g ->
    0 <= counter a ->
    counter a + Z.of_nat (length ins) < 2 ^ 63 ->
    forallb is_tick ins = true ->
    exists a',
      advertiser_run a ins = Ok a'
      /\ exited a' = false
      /\ (active a = true -> active a' = true)
      /\ counter a' = counter a + Z.of_nat (length ins)
      /\ count is_SendAdvt a' = count is_SendAdvt a + Z.of_nat (length ins)
      /\ count is_GetAdvt a'
         = count is_GetAdvt a
           + ((counter a + Z.of_nat (length ins) + 9) / 10 - (counter a + 9) / 10)
      /\ (Forall (carries (default [] (oldBlocks (ctl a)))) (advLog a) ->
          Forall (carries (default [] (oldBlocks (ctl a)))) (advLog a')).
Proof.
  induction ins as [|i ins IH]; intros a g Hex Hg Hc Hlen Hticks.
  - exists a. cbn [advertiser_run length Z.of_nat].
    rewrite !Z.add_0_r. repeat split; try done; lia.
  - cbn [forallb] in Hticks. apply andb_prop in Hticks as [Hi Hticks].
    destruct i as [h m1 m2 al ads e| | |]; try discriminate Hi.
    cbn [length] in Hlen. rewrite Nat2Z.inj_succ in Hlen.
    destruct (advertiser_tick a h m1 m2 al ads e g Hex Hg ltac:(lia))
      as (a1 & Hstep & Hex1 & [g1 Hg1] & Hold & Hc1 & _ & Hact1 & Hs1 & Hr1 & Hw1).
    destruct (IH a1 g1 Hex1 Hg1 ltac:(lia) ltac:(lia) Hticks)
      as (a2 & Hrun & Hex2 & Hact2 & Hc2 & Hs2 & Hr2 & Hw2).
    exists a2. cbn [advertiser_run]. rewrite Hstep. cbn [mbind Result_bind].
    split; [done|]. split; [done|]. split; [auto|].
    cbn [length]. rewrite Nat2Z.inj_succ.
    split; [lia|]. split; [lia|]. split.
    + rewrite Hr2, Hr1, Hc1.
      replace (counter a + 1 + Z.of_nat (length ins))
        with (counter a + Z.succ (Z.of_nat (length ins))) by lia.
      lia.
    + intros Hb. rewrite Hold in Hw2. auto.
Qed.

(** X7. While the advertiser loop receives ticks, it sends one
    advertisement per tick, refreshes the advertisement on the 6th,
    16th, 26th, ... tick, never stops or panics, stays active, and all
    work it sends out is the template that was cached when the loop
    started (nothing if none was): the loop never sends a new template. *)
Theorem advertiser_ticks (c : Controller) (h g : Z) (ins : list AdvInput) :
  lastGenerated c = VInt64 g ->
  forallb is_tick ins = true ->
  Z.of_nat (length ins) < 2 ^ 62 ->
  exists a,
    advertiser_run (advertiser_init c h) ins = Ok a
    /\ exited a = false
    /\ active a = true
    /\ count is_SendAdvt a = Z.of_nat (length ins)
    /\ count is_GetAdvt a = (Z.of_nat (length ins) + 4) / 10
    /\ Forall (carries (default [] (oldBlocks c))) (advLog a).
Proof.
  intros Hg Hticks Hlen.
  destruct (advertiser_ticks_from ins (advertiser_init c h) g eq_refl Hg)
    as (a & Hrun & Hex & Hact & _ & Hs & Hr & Hw); [done| |done|].
  { cbn [advertiser_init counter]. unfold countTick.
    change (10 / 2) with 5. lia. }
  exists a. split; [done|]. split; [done|]. split; [by apply Hact|].
  split; [by rewrite Hs|]. split; [|by apply Hw; constructor].
  rewrite Hr. cbn [advertiser_init counter advLog]. unfold count, countTick.
  cbn [advertiser_init advLog List.filter length Z.of_nat].
  change (10 / 2) with 5. Z.div_mod_to_equations. lia.
Qed.

Lemma advertiser_ticks_witness :
  exists a,
    advertiser_run (advertiser_init stale_controller 0) three_ticks = Ok a
    /\ exited a = false
    /\ active a = true
    /\ count is_SendAdvt a = 3
    /\ count is_GetAdvt a = 0
    /\ Forall (carries [[Byte.x01; Byte.x02]]) (advLog a).
Proof.
  exact (advertiser_ticks stale_controller 0 0 three_ticks
           eq_refl eq_refl eq_refl).
Defined.

End Advertiser.

(** ** Sync manager: the next checkpoint *)

Section Checkpoints.
Import NetSync.
Context {W : Type} {ext : External W}.
Implicit Types (sm : SyncManager W) (cs : list Checkpoint).

Lemma ascending_snoc cs c :
  ascending (cs ++ [c])
  <-> ascending cs /\ Forall (fun d => Height d < Height c) cs.
Proof.
  induction cs as [|d cs IH]; cbn [ascending app].
  - split; [by intros _|]. intros _. by split.
  - rewrite IH, Forall_app, Forall_singleton, Forall_cons. tauto.
Qed.

Lemma find_snoc_Some (f : Checkpoint -> bool) cs c x :
  List.find f cs = Some x -> List.find f (cs ++ [c]) = Some x.
Proof.
  induction cs as [|d cs IH]; cbn [List.find app]; [done|].
  destruct (f d); auto.
Qed.

Lemma find_snoc_None (f : Checkpoint -> bool) cs c :
  Forall (fun d => f d = false) cs ->
  List.find f (cs ++ [c]) = if f c then Some c else None.
Proof.
  induction 1 as [|d cs Hd _ IH]; cbn [List.find app]; [done|].
  by rewrite Hd.
Qed.

Lemma findNextHeaderCheckpoint_scan_find h cs next :
  ascending (cs ++ [next]) ->
  h < Height next ->
  List.find (fun c => h <? Height c) (cs ++ [next])
  = Some (findNextHeaderCheckpoint_scan h (rev cs) next).
Proof.
  revert next. induction cs as [|c cs IH] using rev_ind; intros next Hasc Hh.
  - cbn. by rewrite (proj2 (Z.ltb_lt _ _) Hh).
  - rewrite rev_app_distr. cbn [rev app findNextHeaderCheckpoint_scan].
    apply ascending_snoc in Hasc as [Hasc Hbelow].
    destruct (Z.geb_spec h (Height c)) as [Hge|Hlt].
    + rewrite find_snoc_None; [by rewrite (proj2 (Z.ltb_lt _ _) Hh)|].
      apply ascending_snoc in Hasc as [_ Hc].
      apply Forall_app. split.
      * eapply Forall_impl; [exact Hc|]. cbn. intros d Hd.
        apply Z.ltb_ge. lia.
      * apply Forall_singleton, Z.ltb_ge. lia.
    + apply find_snoc_Some, IH; [done|lia].
Qed.

(** X8. When the chain lists its checkpoints by increasing height,
    [findNextHeaderCheckpoint(height)] is the first checkpoint of the
    list that lies above [height], and nil exactly when there is none. *)
Theorem findNextHeaderCheckpoint_first_above sm h :
  ascending (Checkpoints (world sm)) ->
  findNextHeaderCheckpoint sm h
  = List.find (fun c => h <? Height c) (Checkpoints (world sm)).
Proof.
  intros Hasc. unfold findNextHeaderCheckpoint.
  induction (Checkpoints (world sm)) as [|c0 cs0 _] using rev_ind; [done|].
  rewrite rev_app_distr. cbn [rev app].
  destruct (Z.geb_spec h (Height c0)) as [Hge|Hlt].
  - rewrite find_snoc_None; [by rewrite (proj2 (Z.ltb_ge _ _)) by lia|].
    apply ascending_snoc in Hasc as [_ Hc].
    eapply Forall_impl; [exact Hc|]. cbn. intros d Hd. apply Z.ltb_ge. lia.
  - symmetry. by apply findNextHeaderCheckpoint_scan_find.
Qed.

End Checkpoints.

Section CheckpointsExamples.
Import NetSync.

Lemma findNextHeaderCheckpoint_first_above_witness :
  findNextHeaderCheckpoint (ext := listed_order) syncing_manager 1
  = Some (mkCheckpoint 2 22).
Proof.
  rewrite (findNextHeaderCheckpoint_first_above (ext := listed_order)
             syncing_manager 1); [reflexivity|].
  cbn. repeat split; constructor.
Defined.

End CheckpointsExamples.

(** ** Sync manager: what the message loop maintains *)

Section BlockHandler.
Import NetSync.
Context {W : Type} {ext : External W}.
Implicit Types (sm : SyncManager W) (p : Peer).

Lemma ensures_bind {A B} (r : Result A) (k : A -> Result B)
    (Q : A -> Prop) (Q' : B -> Prop) (E : Prop) :
  ensures r Q E ->
  (forall a, Q a -> ensures (k a) Q' E) ->
  ensures (r ≫= k) Q' E.
Proof. destruct r as [a|]; cbn; auto. Qed.

Lemma ensures_impl {A} (r : Result A) (Q Q' : A -> Prop) (E E' : Prop) :
  ensures r Q E -> (forall a, Q a -> Q' a) -> (E -> E') -> ensures r Q' E'.
Proof. destruct r as [a|]; cbn; auto. Qed.

Lemma same_sync_refl sm : same_sync sm sm.
Proof. by unfold same_sync. Qed.

Lemma same_sync_trans sm1 sm2 sm3 :
  same_sync sm1 sm2 -> same_sync sm2 sm3 -> same_sync sm1 sm3.
Proof.
  unfold same_sync. intros (?&?&?&?) (?&?&?&?).
  repeat split; congruence.
Qed.

Lemma shrinks_refl sm : shrinks sm sm.
Proof. by unfold shrinks. Qed.

Lemma shrinks_trans sm1 sm2 sm3 :
  shrinks sm1 sm2 -> shrinks sm2 sm3 -> shrinks sm1 sm3.
Proof. unfold shrinks. intros [? ?] [? ?]. split; set_solver. Qed.

Lemma well_formed_same_sync sm sm' :
  well_formed sm -> same_sync sm sm' -> well_formed sm'.
Proof.
  intros [Hh Ht] (Hs & Hd & Hm & Hn). split.
  - rewrite Hm, Hn, Hs. exact Hh.
  - intros sp Hsp. rewrite Hs in Hsp. apply Ht in Hsp.
    apply elem_of_dom. rewrite Hd. by apply elem_of_dom.
Qed.

Lemma within_caps_shrinks sm sm' :
  within_caps sm -> shrinks sm sm' -> within_caps sm'.
Proof.
  intros [Hr Hq] [Hq' Hr']. apply subseteq_size in Hq', Hr'.
  split; lia.
Qed.

(** [fetchHeaderBlocks] with a tracked sync peer. *)
Lemma fetchHeaderBlocks_loop_tracked walk :
  forall sh gdmsg n sm sp,
    syncPeer sm = Some sp ->
    is_Some (peerStates sm !! sp) ->
    ensures (fetchHeaderBlocks_loop walk sh gdmsg n sm)
      (fun r => same_sync sm r.1 /\ shrinks sm r.1) False.
Proof.
  induction walk as [|node rest IH]; intros sh gdmsg n sm sp Hsp [st Hst].
  - cbn. split; [apply same_sync_refl|apply shrinks_refl].
  - cbn [fetchHeaderBlocks_loop].
    destruct (negb (fst (haveInventory sm _))).
    + unfold syncPeerState. sm_simpl. rewrite Hsp, Hst. rsimpl.
      set (sm1 := set_startHeader _ _).
      assert (H1 : same_sync sm sm1 /\ shrinks sm sm1).
      { subst sm1. unfold same_sync, shrinks. sm_simpl.
        repeat split; try done.
        rewrite dom_insert_L. apply elem_of_dom_2 in Hst. set_solver. }
      destruct (_ >=? _); [exact H1|].
      eapply ensures_impl; [eapply (IH _ _ _ sm1 sp)| |done].
      * subst sm1. by sm_simpl.
      * subst sm1. sm_simpl. rewrite lookup_insert_eq. by eexists.
      * cbn. intros r [H2 H3]. destruct H1.
        split; [by eapply same_sync_trans|by eapply shrinks_trans].
    + rsimpl. set (sm1 := set_startHeader _ _).
      assert (H1 : same_sync sm sm1 /\ shrinks sm sm1) by done.
      destruct (_ >=? _); [exact H1|].
      eapply ensures_impl; [eapply (IH _ _ _ sm1 sp)| |done].
      * subst sm1. by sm_simpl.
      * subst sm1. sm_simpl. by eexists.
      * cbn. intros r [H2 H3]. destruct H1.
        split; [by eapply same_sync_trans|by eapply shrinks_trans].
Qed.

Lemma fetchHeaderBlocks_tracked sm sp :
  syncPeer sm = Some sp ->
  is_Some (peerStates sm !! sp) ->
  ensures (fetchHeaderBlocks sm)
    (fun sm' => same_sync sm sm' /\ shrinks sm sm') False.
Proof.
  intros Hsp Hst. unfold fetchHeaderBlocks.
  destruct (cursor_is_nil _); [cbn; by split|].
  eapply ensures_bind; [by eapply fetchHeaderBlocks_loop_tracked|].
  intros [sm1 gd] [H1 H2]. cbn [fst] in H1, H2.
  destruct (0 <? length gd)%nat; [|done].
  destruct H1 as (Hs & Hd & Hm & Hn). rewrite Hs, Hsp. cbn.
  unfold same_sync, shrinks. sm_simpl. by rewrite Hs, Hsp.
Qed.

Lemma handleHeadersMsg_loop_next p headers :
  forall fh sm,
    is_Some (nextCheckpoint sm) ->
    ensures (handleHeadersMsg_loop p headers fh sm)
      (fun r => same_sync sm (loop_manager r)
                /\ shrinks sm (loop_manager r)
                /\ forall h sm1, r = HeadersDone true h sm1 ->
                                 headerList sm1 <> [])
      False.
Proof.
  induction headers as [|h rest IH]; intros fh sm [cp Hcp].
  - cbn. by repeat split.
  - cbn [handleHeadersMsg_loop].
    destruct (last (headerList sm)) as [prevNode|]; [|cbn; by repeat split].
    destruct (_ =? _)%N; [|cbn; by repeat split].
    set (sm1 := if cursor_is_nil _ then _ else _).
    assert (H1 : same_sync sm sm1 /\ shrinks sm sm1
                 /\ headerList sm1 <> []).
    { subst sm1. destruct (cursor_is_nil _); sm_simpl;
        (repeat split; [done..|]); by destruct (headerList sm). }
    destruct H1 as (H1 & H2 & H3).
    destruct H1 as (Hs & Hd & Hm & Hn). rewrite Hn, Hcp.
    destruct (_ =? Height cp).
    + destruct (_ =? _)%N; cbn; (split; [done|split; [done|]]);
        [|done]. intros ? ? [= _ <-]. done.
    + eapply ensures_impl; [eapply (IH _ sm1)| |done].
      * rewrite Hn, Hcp. by eexists.
      * cbn. intros r (R1 & R2 & R3).
        split; [by eapply same_sync_trans|].
        split; [by eapply shrinks_trans|done].
Qed.

(** In a well-formed manager [handleHeadersMsg] returns. *)
Lemma handleHeadersMsg_well_formed p headers sm :
  well_formed sm ->
  ensures (handleHeadersMsg p headers sm)
    (fun sm' => same_sync sm sm' /\ shrinks sm sm') False.
Proof.
  intros [Hh Ht]. unfold handleHeadersMsg.
  destruct (peerStates sm !! p); [|cbn; by split].
  destruct (headersFirstMode sm) eqn:Hm; [|cbn; by split].
  cbn [negb]. destruct (_ =? _)%nat; [cbn; by split|].
  destruct (Hh eq_refl) as [Hcp [sp Hsp]].
  eapply ensures_bind; [by eapply handleHeadersMsg_loop_next|].
  intros r (R1 & R2 & R3). destruct r as [sm1|[] fh sm1]; cbn in R1, R2.
  - by split.
  - destruct (headerList sm1) as [|front rest] eqn:Hl;
      [by destruct (R3 _ _ eq_refl)|].
    set (sm2 := emit _ _).
    assert (H2 : same_sync sm sm2 /\ shrinks sm sm2).
    { subst sm2. split; [|exact R2]. exact R1. }
    destruct H2 as [S1 S2].
    eapply ensures_impl; [eapply (fetchHeaderBlocks_tracked sm2 sp)| |done].
    + destruct S1 as (-> & _). done.
    + destruct S1 as (_ & Hd & _). apply elem_of_dom. rewrite Hd.
      apply elem_of_dom. by apply Ht.
    + cbn. intros sm3 [F1 F2].
      split; [by eapply same_sync_trans|by eapply shrinks_trans].
  - destruct R1 as (Hs & Hd & Hm' & Hn).
    destruct Hcp as [cp Hcp]. rewrite Hn, Hcp. cbn.
    split; [|exact R2]. unfold same_sync. sm_simpl. by rewrite Hn, Hcp.
Qed.

Ltac frame_solve :=
  unfold same_sync, shrinks; sm_simpl;
  rewrite ?dom_alter_L, ?dom_insert_L;
  repeat split; try done; try set_solver.

Lemma coinbaseHeight_ensures (b : Block) :
  ensures (coinbaseHeight b) (fun _ => True)
    (ShouldHaveSerializedBlockHeight (Header b) = true /\ Transactions b = []).
Proof.
  unfold coinbaseHeight.
  destruct (ShouldHaveSerializedBlockHeight (Header b)); [|done].
  destruct (Transactions b) as [|t ts]; [done|].
  by destruct (ExtractCoinbaseHeight t).
Qed.

Lemma handleBlockMsg_prepare_well_formed pp b sm :
  well_formed sm ->
  ensures (handleBlockMsg_prepare pp b sm)
    (fun r => same_sync sm r.2 /\ shrinks sm r.2 /\ world r.2 = world sm)
    (ShouldHaveSerializedBlockHeight (Header b) = true /\ Transactions b = []).
Proof.
  intros [Hh Ht]. unfold handleBlockMsg_prepare.
  eapply (ensures_bind _ _
            (fun r => same_sync sm r.2 /\ shrinks sm r.2
                      /\ world r.2 = world sm)).
  - destruct (headersFirstMode sm) eqn:Hm; [|by cbn].
    destruct (Hh eq_refl) as [[cp Hcp] _].
    destruct (headerList sm) as [|firstNode rest]; [by cbn|].
    destruct (_ =? _)%N; [|by cbn].
    rewrite Hcp. destruct (_ =? _)%N; by cbn.
  - intros [[ck fl] sm1] (S1 & S2 & S3). cbn [snd] in S1, S2, S3.
    eapply ensures_bind; [apply coinbaseHeight_ensures|].
    intros cb _. cbn [ensures snd].
    split; [|split].
    + eapply same_sync_trans; [exact S1|]. frame_solve.
    + eapply shrinks_trans; [exact S2|]. frame_solve.
    + by sm_simpl.
Qed.

Lemma handleBlockMsg_finish_well_formed pp b ck orphan hu bhu sm :
  well_formed sm ->
  ensures (handleBlockMsg_finish pp b ck orphan hu bhu sm)
    (fun sm' => well_formed sm' /\ shrinks sm sm')
    (ShouldHaveSerializedBlockHeight (Header b) = true /\ Transactions b = []).
Proof.
  intros Hwf. unfold handleBlockMsg_finish.
  eapply (ensures_bind _ _ (fun r => same_sync sm r.2 /\ shrinks sm r.2)).
  - destruct orphan.
    + eapply ensures_bind; [apply coinbaseHeight_ensures|].
      intros cb _. destruct cb as [cbHeight|];
        destruct (LatestBlockLocator (world sm)) as [loc [e|]];
        cbn [ensures snd]; frame_solve.
    + cbn [ensures snd]. frame_solve.
  - intros [[hu' bhu'] smA] [S1 S2]. cbn [snd] in S1, S2.
    set (smB := match bhu' with Some _ => _ | None => _ end).
    assert (HB : same_sync sm smB /\ shrinks sm smB).
    { assert (same_sync smA smB /\ shrinks smA smB) as [S3 S4].
      { subst smB. destruct bhu' as [h|]; [|frame_solve].
        destruct (negb (hu' =? 0)); [|frame_solve].
        destruct (orphan || current _); frame_solve. }
      split; [by eapply same_sync_trans|by eapply shrinks_trans]. }
    clearbody smB. destruct HB as [S3 S4].
    pose proof (well_formed_same_sync _ _ Hwf S3) as HwfB.
    destruct (headersFirstMode smB) eqn:Hm; cbn [negb];
      [|cbn; by split].
    pose proof HwfB as [Hh Ht]. rewrite Hm in Hh.
    destruct (Hh eq_refl) as [[cp Hcp] [sp Hsp]].
    destruct ck; cbn [negb].
    + rewrite Hcp. cbv zeta. sm_simpl.
      destruct (findNextHeaderCheckpoint smB (Height cp)) as [next|] eqn:Hnext.
      * destruct (PushGetHeadersMsgErr _ _); [|rewrite Hsp]; cbn;
          (split; [|exact S4]); (split; sm_simpl;
            [intros _; split; [by eexists|by eexists]|exact Ht]).
      * cbn. split; [|exact S4]. split; sm_simpl; [done|exact Ht].
    + destruct (_ && _); [|cbn; by split].
      eapply ensures_impl;
        [eapply (fetchHeaderBlocks_tracked smB sp); [done|by apply Ht]| |done].
      cbn. intros sm' [F1 F2]. split.
      * eapply well_formed_same_sync; [|exact F1]. by split.
      * by eapply shrinks_trans.
Qed.

Lemma handleBlockMsg_well_formed pp b sm :
  well_formed sm ->
  ensures (handleBlockMsg pp b sm)
    (fun sm' => well_formed sm' /\ shrinks sm sm')
    (~ harmless (world sm) (blockMsg pp b)).
Proof.
  intros Hwf. unfold handleBlockMsg.
  destruct (peerStates sm !! pp) as [state|]; [|cbn; by split].
  destruct (_ && _).
  { cbn. split; [|done]. eapply well_formed_same_sync; [exact Hwf|].
    frame_solve. }
  assert (Hempty : ShouldHaveSerializedBlockHeight (Header b) = true
                   /\ Transactions b = [] ->
                   ~ harmless (world sm) (blockMsg pp b)).
  { intros [H1 H2] [H3 _]. by apply H3. }
  unfold handleBlockMsg_process.
  eapply ensures_bind;
    [eapply ensures_impl;
       [by apply handleBlockMsg_prepare_well_formed|intros a Ha; exact Ha|done]|].
  intros [[[[ck fl] hu] bhu] sm1] (S1 & S2 & Hw). cbn [snd] in S1, S2, Hw.
  rewrite Hw.
  destruct (ProcessBlock (world sm) b fl hu) as [w [orphan e]] eqn:Hpb.
  set (sm2 := emit _ (set_world w sm1)).
  assert (same_sync sm sm2 /\ shrinks sm sm2) as [S3 S4].
  { subst sm2. split; [exact S1|exact S2]. }
  clearbody sm2.
  pose proof (well_formed_same_sync _ _ Hwf S3) as Hwf2.
  assert (Hfin : forall o,
    ensures (handleBlockMsg_finish pp b ck o hu bhu sm2)
      (fun sm' => well_formed sm' /\ shrinks sm sm')
      (~ harmless (world sm) (blockMsg pp b))).
  { intros o. eapply ensures_impl;
      [by apply handleBlockMsg_finish_well_formed| |done].
    cbn. intros sm' [F1 F2]. split; [done|by eapply shrinks_trans]. }
  destruct e as [err|]; [|apply Hfin].
  destruct (_ <=? _); [|apply Hfin].
  assert (Hrej : forall code reason,
    well_formed (emit (PushRejectMsg pp "block" code reason (BHash b) false) sm2)
    /\ shrinks sm (emit (PushRejectMsg pp "block" code reason (BHash b) false) sm2)).
  { intros code reason. split; [|exact S4].
    eapply well_formed_same_sync; [exact Hwf2|]. frame_solve. }
  destruct err as [d|[|n] d|d|d];
    try (destruct (ErrToRejectErr _) as [code reason]; cbn; apply Hrej).
  cbn. intros [_ Hc]. eapply Hc. by rewrite Hpb.
Qed.

Lemma startSync_pick_elem bh (w : W) visited acc bp :
  startSync_pick bh w visited acc = Some bp ->
  acc = Some bp \/ exists st, (bp, st) ∈ visited.
Proof.
  revert acc. induction visited as [|[q st] rest IH]; intros acc; [by left|].
  cbn [startSync_pick].
  destruct (negb (syncCandidate st)).
  { intros H. apply IH in H as [H|[st' H]]; [by left|right].
    exists st'. by right. }
  destruct (LastBlock w q <? bh).
  { intros H. apply IH in H as [H|[st' H]]; [by left|right].
    exists st'. by right. }
  intros H. apply IH in H as [[= ->]|[st' H]]; right.
  - exists st. by left.
  - exists st'. by right.
Qed.

Lemma startSync_well_formed sm :
  range_visits_all ->
  well_formed sm ->
  well_formed (startSync sm) /\ shrinks sm (startSync sm).
Proof.
  intros [_ Hr] Hwf. pose proof Hwf as [Hh Ht]. unfold startSync.
  destruct (syncPeer sm) as [sp|] eqn:Hsp; [by split|].
  assert (Hm : headersFirstMode sm = false).
  { destruct (headersFirstMode sm); [|done].
    destruct (Hh eq_refl) as [_ [? [=]]]. }
  cbv zeta. sm_simpl.
  destruct (startSync_pick _ _ _ _) as [bp|] eqn:Hpick.
  2:{ split; [|done]. eapply well_formed_same_sync; [exact Hwf|].
      frame_solve. }
  apply startSync_pick_elem in Hpick as [[=]|[st Hin]].
  rewrite (Hr _ _) in Hin. apply elem_of_map_to_list in Hin.
  destruct (LatestBlockLocator (world sm)) as [loc [e|]].
  { split; [|done]. eapply well_formed_same_sync; [exact Hwf|].
    frame_solve. }
  split; [|by repeat case_match].
  split.
  - intros Hm'. split; [|by repeat case_match; sm_simpl; eexists].
    destruct (nextCheckpoint sm) as [cp|] eqn:Hcp; sm_simpl.
    + destruct (_ && _); sm_simpl; [by eexists|]. by rewrite Hm in Hm'.
    + by rewrite Hm in Hm'.
  - intros sp Hsp'.
    assert (sp = bp) as -> by (repeat case_match; sm_simpl; congruence).
    assert (peerStates
              (set_syncPeer (Some bp)
                 match nextCheckpoint (set_requestedBlocks ∅ (set_ranges (S (ranges sm)) sm)) with
                 | Some cp =>
                     if (BestHeight (BestSnapshot (world sm)) <? Height cp)
                        && negb (isRegressionTest (chainParams sm))
                     then set_headersFirstMode true
                            (emit (PushGetHeadersMsg bp loc (CHash cp))
                               (set_requestedBlocks ∅ (set_ranges (S (ranges sm)) sm)))
                     else emit (PushGetBlocksMsg bp loc zeroHash)
                            (set_requestedBlocks ∅ (set_ranges (S (ranges sm)) sm))
                 | None => emit (PushGetBlocksMsg bp loc zeroHash)
                             (set_requestedBlocks ∅ (set_ranges (S (ranges sm)) sm))
                 end) = peerStates sm) as Hps
      by (repeat case_match; by sm_simpl).
    sm_simpl. rewrite Hps. by eexists.
Qed.

Lemma handleNewPeerMsg_well_formed p sm :
  range_visits_all ->
  well_formed sm ->
  well_formed (handleNewPeerMsg p sm) /\ shrinks sm (handleNewPeerMsg p sm).
Proof.
  intros Hr Hwf. unfold handleNewPeerMsg.
  destruct (negb (shutdown sm =? 0)); [by split|]. cbv zeta.
  set (sm1 := set_peerStates _ sm).
  assert (Hwf1 : well_formed sm1).
  { destruct Hwf as [Hh Ht]. subst sm1. split; sm_simpl; [done|].
    intros sp Hsp. apply Ht in Hsp. apply lookup_insert_is_Some.
    destruct (decide (p = sp)); auto. }
  destruct (_ && _); [|by split].
  destruct (startSync_well_formed sm1 Hr Hwf1) as [H1 H2]. by split.
Qed.

Lemma resetHeaderState_frame h n sm :
  headersFirstMode (resetHeaderState h n sm) = false
  /\ syncPeer (resetHeaderState h n sm) = syncPeer sm
  /\ peerStates (resetHeaderState h n sm) = peerStates sm
  /\ requestedTxns (resetHeaderState h n sm) = requestedTxns sm
  /\ rejectedTxns (resetHeaderState h n sm) = rejectedTxns sm.
Proof. unfold resetHeaderState. sm_simpl. by destruct (nextCheckpoint sm). Qed.

Lemma delete_all_subseteq visited (global : gset N) :
  delete_all visited global ⊆ global.
Proof. intros h Hh. by apply elem_of_delete_all in Hh as [? _]. Qed.

Lemma handleDonePeerMsg_well_formed p sm :
  range_visits_all ->
  well_formed sm ->
  well_formed (handleDonePeerMsg p sm) /\ shrinks sm (handleDonePeerMsg p sm).
Proof.
  intros Hr Hwf. unfold handleDonePeerMsg.
  destruct (peerStates sm !! p) as [state|]; [|by split]. cbv zeta. sm_simpl.
  destruct (bool_decide_reflect (syncPeer sm = Some p)) as [Hsp|Hsp].
  - set (sm3 := if headersFirstMode sm then _ else _).
    assert (H3 : headersFirstMode sm3 = false /\ syncPeer sm3 = None
                 /\ requestedTxns sm3 ⊆ requestedTxns sm
                 /\ rejectedTxns sm3 = rejectedTxns sm).
    { subst sm3. destruct (headersFirstMode sm) eqn:Hm.
      - match goal with |- context [resetHeaderState ?a ?b ?s] =>
          destruct (resetHeaderState_frame a b s) as (-> & -> & _ & -> & ->)
        end.
        sm_simpl. repeat split; try done. apply delete_all_subseteq.
      - sm_simpl. repeat split; try done. apply delete_all_subseteq. }
    clearbody sm3. destruct H3 as (Hm3 & Hs3 & Hq3 & Hr3).
    assert (Hwf3 : well_formed sm3).
    { split; [by rewrite Hm3|]. by rewrite Hs3. }
    destruct (startSync_well_formed sm3 Hr Hwf3) as [H1 [H2 H4]].
    split; [done|]. split; [set_solver|]. by rewrite <- Hr3.
  - split.
    + destruct Hwf as [Hh Ht]. split; sm_simpl; [done|].
      intros sp Hsp'. rewrite lookup_delete_ne by congruence. by apply Ht.
    + split; sm_simpl; [apply delete_all_subseteq|done].
Qed.

Lemma handleTxMsg_frame p tx sm :
  same_sync sm (handleTxMsg p tx sm)
  /\ requestedTxns (handleTxMsg p tx sm) ⊆ requestedTxns sm.
Proof.
  unfold handleTxMsg.
  destruct (peerStates sm !! p); [|by split].
  destruct (bool_decide _); [by split|].
  destruct (ProcessTransaction _ _ _) as [w [acc [err|]]];
    [destruct (ErrToRejectErr err)|]; frame_solve.
Qed.

Lemma handleInvMsg_scan_frame p lastBlock invVects :
  forall i sm,
    same_sync sm (handleInvMsg_scan p lastBlock i invVects sm)
    /\ requestedTxns (handleInvMsg_scan p lastBlock i invVects sm)
       = requestedTxns sm
    /\ rejectedTxns (handleInvMsg_scan p lastBlock i invVects sm)
       = rejectedTxns sm.
Proof.
  induction invVects as [|iv rest IH]; intros i sm; [by repeat split|].
  cbn [handleInvMsg_scan]. cbv zeta.
  repeat case_match;
    match goal with
    | |- context [handleInvMsg_scan p ?lb ?j rest ?s] =>
        destruct (IH j s) as (A & -> & ->)
    end;
    (split; [eapply same_sync_trans; [|exact A]; frame_solve|by sm_simpl]).
Qed.

Lemma handleInvMsg_drain_frame p queue :
  (forall n (m : gset Hash), rangeHashes n m ≡ₚ elements m) ->
  0 < MaxInvPerMsg ->
  forall gdmsg n sm sm' gd' rest,
    handleInvMsg_drain p queue gdmsg n sm = (sm', gd', rest) ->
    same_sync sm sm'
    /\ rejectedTxns sm' = rejectedTxns sm
    /\ (Z.of_nat (size (requestedTxns sm)) <= maxRequestedTxns ->
        Z.of_nat (size (requestedTxns sm')) <= maxRequestedTxns).
Proof.
  intros Hrange Hpos. induction queue as [|iv queue IH];
    intros gdmsg n sm sm' gd' rest.
  - cbn. intros [= <- <- <-]. by repeat split.
  - cbn [handleInvMsg_drain]. intros Hrun.
    assert (Hstep : forall sm1 gd1 n1,
      same_sync sm sm1 -> rejectedTxns sm1 = rejectedTxns sm ->
      (Z.of_nat (size (requestedTxns sm)) <= maxRequestedTxns ->
       Z.of_nat (size (requestedTxns sm1)) <= maxRequestedTxns) ->
      (if n1 >=? MaxInvPerMsg then (sm1, gd1, queue)
       else handleInvMsg_drain p queue gd1 n1 sm1) = (sm', gd', rest) ->
      same_sync sm sm'
      /\ rejectedTxns sm' = rejectedTxns sm
      /\ (Z.of_nat (size (requestedTxns sm)) <= maxRequestedTxns ->
          Z.of_nat (size (requestedTxns sm')) <= maxRequestedTxns)).
    { intros sm1 gd1 n1 S1 S2 S3 H. destruct (n1 >=? MaxInvPerMsg).
      - by injection H as <- <- <-.
      - apply IH in H as (T1 & T2 & T3).
        split; [by eapply same_sync_trans|]. split; [congruence|auto]. }
    destruct (ivType iv);
      try (eapply Hstep; [| | |exact Hrun]; [apply same_sync_refl|done|done]).
    + destruct (bool_decide (ivHash iv ∈ requestedTxns sm)).
      * eapply Hstep; [| | |exact Hrun]; [apply same_sync_refl|done|done].
      * eapply Hstep; [| | |exact Hrun]; [frame_solve|by sm_simpl|].
        sm_simpl. intros Hb. by apply limitMap_insert_bound.
    + destruct (bool_decide (ivHash iv ∈ requestedBlocks sm)).
      * eapply Hstep; [| | |exact Hrun]; [apply same_sync_refl|done|done].
      * eapply Hstep; [| | |exact Hrun]; [frame_solve|by sm_simpl|].
        by sm_simpl.
Qed.

Lemma handleInvMsg_frame p invVects sm :
  (forall n (m : gset Hash), rangeHashes n m ≡ₚ elements m) ->
  0 < MaxInvPerMsg ->
  same_sync sm (handleInvMsg p invVects sm)
  /\ rejectedTxns (handleInvMsg p invVects sm) = rejectedTxns sm
  /\ (Z.of_nat (size (requestedTxns sm)) <= maxRequestedTxns ->
      Z.of_nat (size (requestedTxns (handleInvMsg p invVects sm)))
      <= maxRequestedTxns).
Proof.
  intros Hrange Hpos. unfold handleInvMsg.
  destruct (peerStates sm !! p) as [state|]; [|by repeat split]. cbv zeta.
  set (sm1 := if _ && (_ || current sm) then _ else sm).
  assert (H1 : same_sync sm sm1 /\ requestedTxns sm1 = requestedTxns sm
               /\ rejectedTxns sm1 = rejectedTxns sm).
  { subst sm1. by destruct (_ && _). }
  clearbody sm1. destruct H1 as (A1 & B1 & C1).
  destruct (_ && negb (current sm1)); [by rewrite B1, C1|].
  set (sm2 := if _ && current sm1 then _ else sm1).
  assert (H2 : same_sync sm1 sm2 /\ requestedTxns sm2 = requestedTxns sm1
               /\ rejectedTxns sm2 = rejectedTxns sm1).
  { subst sm2. destruct (_ && _); [|by repeat split].
    by destruct (BlockHeightByHash _ _) as [bh [e|]]. }
  clearbody sm2. destruct H2 as (A2 & B2 & C2).
  destruct (handleInvMsg_scan_frame p (lastBlockIndex 0 invVects) invVects 0 sm2)
    as (A3 & B3 & C3).
  set (sm3 := handleInvMsg_scan _ _ _ _ sm2) in *. clearbody sm3.
  destruct (handleInvMsg_drain _ _ _ _ sm3) as [[sm4 gd] rq] eqn:Hd.
  destruct (handleInvMsg_drain_frame p _ Hrange Hpos _ _ _ _ _ _ Hd)
    as (A4 & C4 & D4).
  assert (A : same_sync sm sm4)
    by (eapply same_sync_trans; [|exact A4];
        eapply same_sync_trans; [|exact A3];
        by eapply same_sync_trans).
  assert (Hfin : forall sm5,
    same_sync sm4 sm5 -> requestedTxns sm5 = requestedTxns sm4 ->
    rejectedTxns sm5 = rejectedTxns sm4 ->
    same_sync sm sm5 /\ rejectedTxns sm5 = rejectedTxns sm
    /\ (Z.of_nat (size (requestedTxns sm)) <= maxRequestedTxns ->
        Z.of_nat (size (requestedTxns sm5)) <= maxRequestedTxns)).
  { intros sm5 A5 B5 C5. split; [by eapply same_sync_trans|].
    split; [congruence|]. rewrite B5. intros Hb. apply D4. congruence. }
  destruct (0 <? length gd)%nat; apply Hfin; frame_solve.
Qed.

Lemma New_well_formed (w : W) params dc :
  0 < MaxInvPerMsg ->
  well_formed (New w params dc) /\ within_caps (New w params dc).
Proof.
  intros Hpos. unfold New. cbv zeta. sm_simpl.
  assert (H0 : forall sm, headersFirstMode sm = false -> syncPeer sm = None ->
                 requestedTxns sm = ∅ -> rejectedTxns sm = ∅ ->
                 well_formed sm /\ within_caps sm).
  { intros sm Hm Hs Hq Hj. split.
    - split; [by rewrite Hm|by rewrite Hs].
    - unfold within_caps, maxRejectedTxns, maxRequestedTxns.
      rewrite Hq, Hj, size_empty. lia. }
  destruct (negb dc); [|by apply H0].
  destruct (findNextHeaderCheckpoint _ _) as [cp|]; [|by apply H0].
  match goal with |- context [resetHeaderState ?a ?b ?s] =>
    destruct (resetHeaderState_frame a b s) as (E1 & E2 & _ & E3 & E4)
  end.
  apply H0; [done|by rewrite E2|by rewrite E3|by rewrite E4].
Qed.

Lemma blockHandler_step_ensures m sm :
  range_visits_all ->
  0 < MaxInvPerMsg ->
  well_formed sm -> within_caps sm ->
  ensures (blockHandler_step m sm)
    (fun r => well_formed r.1 /\ within_caps r.1)
    (~ harmless (world sm) m).
Proof.
  intros Hr Hpos Hwf Hcaps.
  destruct m as [p|p tx|p b|p inv|p headers|p| |b flags| |];
    cbn [blockHandler_step].
  - destruct (handleNewPeerMsg_well_formed p sm Hr Hwf) as [H1 H2].
    cbn. split; [done|by eapply within_caps_shrinks].
  - destruct (handleTxMsg_frame p tx sm) as [H1 H2]. cbn. split.
    + by eapply well_formed_same_sync.
    + destruct Hr as [Hr _]. destruct Hcaps as [Hj Hq]. split.
      * by apply handleTxMsg_bound.
      * apply subseteq_size in H2. lia.
  - eapply ensures_bind; [by apply handleBlockMsg_well_formed|].
    intros sm' [H1 H2]. cbn. split; [done|by eapply within_caps_shrinks].
  - destruct Hr as [Hr _].
    destruct (handleInvMsg_frame p inv sm Hr Hpos) as (H1 & H2 & H3).
    cbn. split; [by eapply well_formed_same_sync|].
    destruct Hcaps as [Hj Hq]. split; [by rewrite H2|auto].
  - eapply ensures_bind;
      [eapply ensures_impl;
         [by apply handleHeadersMsg_well_formed|intros a Ha; exact Ha|done]|].
    intros sm' [H1 H2]. cbn.
    split; [by eapply well_formed_same_sync|by eapply within_caps_shrinks].
  - destruct (handleDonePeerMsg_well_formed p sm Hr Hwf) as [H1 H2].
    cbn. split; [done|by eapply within_caps_shrinks].
  - by cbn.
  - destruct (ProcessBlock _ _ _ _) as [w [orphan e]]. cbn. split; [|done].
    eapply well_formed_same_sync; [exact Hwf|]. frame_solve.
  - by cbn.
  - by cbn.
Qed.

Lemma blockHandler_run_ensures msgs :
  range_visits_all ->
  0 < MaxInvPerMsg ->
  forall sm,
    well_formed sm -> within_caps sm ->
    ensures (blockHandler_run msgs sm)
      (fun r => well_formed r.1 /\ within_caps r.1)
      (Exists (fun m => exists w, ~ harmless w m) msgs).
Proof.
  intros Hr Hpos. induction msgs as [|m rest IH]; intros sm Hwf Hcaps.
  - by cbn.
  - cbn [blockHandler_run].
    eapply ensures_bind.
    { eapply ensures_impl;
        [by apply blockHandler_step_ensures|intros a Ha; exact Ha|].
      intros H. apply Exists_cons_hd. by eexists. }
    intros [sm1 r1] [H1 H2]. cbn [fst snd] in *.
    eapply ensures_bind.
    { eapply ensures_impl; [by apply IH|intros a Ha; exact Ha|].
      intros H. by apply Exists_cons_tl. }
    intros [sm2 r2] [H3 H4]. by cbn.
Qed.

(** X9. Whatever messages the sync manager has handled since [New], it
    is in headers-first mode only with a next checkpoint and a sync
    peer, its sync peer is one of the tracked peers, [rejectedTxns]
    holds at most [maxRejectedTxns] hashes and [requestedTxns] at most
    [maxRequestedTxns]. *)
Theorem blockHandler_run_invariant (w : W) params dc msgs r :
  range_visits_all ->
  0 < MaxInvPerMsg ->
  blockHandler_run msgs (New w params dc) = Ok r ->
  well_formed r.1 /\ within_caps r.1.
Proof.
  intros Hr Hpos Hrun.
  destruct (New_well_formed w params dc Hpos) as [Hwf Hcaps].
  pose proof (blockHandler_run_ensures msgs Hr Hpos _ Hwf Hcaps) as H.
  by rewrite Hrun in H.
Qed.

(** X10. A well-formed manager handles every message without a panic,
    and stays well formed, unless the message is a block that should
    carry a coinbase height and has no transaction, or a block for which
    the chain reports a corrupted database. *)
Theorem blockHandler_step_returns m sm :
  range_visits_all ->
  0 < MaxInvPerMsg ->
  well_formed sm -> within_caps sm ->
  harmless (world sm) m ->
  exists r, blockHandler_step m sm = Ok r
            /\ well_formed r.1 /\ within_caps r.1.
Proof.
  intros Hr Hpos Hwf Hcaps Hm.
  pose proof (blockHandler_step_ensures m sm Hr Hpos Hwf Hcaps) as H.
  destruct (blockHandler_step m sm) as [r|]; [by exists r|].
  by destruct H.
Qed.

Corollary blockHandler_run_returns (w : W) params dc msgs :
  range_visits_all ->
  0 < MaxInvPerMsg ->
  Forall (fun m => forall w', harmless w' m) msgs ->
  exists r, blockHandler_run msgs (New w params dc) = Ok r.
Proof.
  intros Hr Hpos Hall.
  destruct (New_well_formed w params dc Hpos) as [Hwf Hcaps].
  pose proof (blockHandler_run_ensures msgs Hr Hpos _ Hwf Hcaps) as H.
  destruct (blockHandler_run msgs (New w params dc)) as [r|]; [by exists r|].
  cbn in H. apply Exists_exists in H as (m & Hin & w' & Hm).
  rewrite Forall_forall in Hall. destruct Hm. by apply Hall.
Qed.

End BlockHandler.

(** ** Sync manager: a block that the chain refuses *)

Section HandleBlockMsgError.
Import NetSync.
Context {W : Type} {ext : External W}.
Implicit Types (sm : SyncManager W) (pp : Peer) (b : Block).

(** C1 (as the code has it). A requested block for which
    [chain.ProcessBlock] returns an error: when [heightUpdate + 1] is at
    most the height of the best chain, a database-corruption error
    panics and any other error is answered with one reject message,
    after which the handler returns; when [heightUpdate + 1] is above
    the best chain, the error is dropped and the block is handled as an
    orphan: the next call is the request for its ancestors, no reject
    message follows and no peer is disconnected, and the handler
    returns outside headers-first mode and in every well-formed state. *)
Theorem handleBlockMsg_error pp b sm state ck fl hu bhu sm1 w orphan err :
  peerStates sm !! pp = Some state ->
  BHash b ∈ peerRequestedBlocks state ->
  handleBlockMsg_prepare pp b sm = Ok (ck, fl, hu, bhu, sm1) ->
  ProcessBlock (world sm1) b fl hu = (w, (orphan, Some err)) ->
  let sm2 := emit (ProcessBlockCall b fl hu) (set_world w sm1) in
  (wrap32 (hu + 1) <= BestChainHeight w ->
     handleBlockMsg pp b sm
     = match err with
       | DBError ErrCorruption _ => Panic
       | _ => Ok (emit (PushRejectMsg pp "block" (ErrToRejectErr err).1
                          (ErrToRejectErr err).2 (BHash b) false) sm2)
       end)
  /\ (BestChainHeight w < wrap32 (hu + 1) ->
      handleBlockMsg pp b sm = handleBlockMsg_finish pp b ck true hu bhu sm2
      /\ (forall sm',
            handleBlockMsg pp b sm = Ok sm' ->
            exists l,
              events sm'
              = events sm
                ++ ProcessBlockCall b fl hu :: orphan_requests pp b w ++ l
              /\ Forall benign l)
      /\ (headersFirstMode sm = false \/ well_formed sm ->
          exists sm', handleBlockMsg pp b sm = Ok sm')).
Proof.
  intros Hst Hin Hprep Hpb sm2.
  rewrite (handleBlockMsg_requested _ _ _ _ Hst Hin).
  unfold handleBlockMsg_process. rewrite Hprep. rsimpl. rewrite Hpb.
  fold sm2. replace (world sm2) with w by reflexivity.
  split; intros Hh.
  - rewrite (proj2 (Z.leb_le _ _) Hh).
    destruct (ErrToRejectErr err) as [code reason]. by destruct err as [?|[|?] ?|?|?].
  - rewrite (proj2 (Z.leb_gt _ _) Hh). split; [done|].
    destruct (handleBlockMsg_prepare_coinbase _ _ _ _ Hprep) as [cb Hcb].
    apply handleBlockMsg_prepare_events in Hprep
      as (E1 & E2 & E3 & E4 & E5 & E6 & E7 & E8 & E9).
    split.
    + intros sm' Hf. apply handleBlockMsg_finish_orphan in Hf as (l & El & Fl).
      exists l. split; [|done]. rewrite El. subst sm2. sm_simpl.
      by rewrite E1, <- app_assoc.
    + assert (Hempty : ~ (ShouldHaveSerializedBlockHeight (Header b) = true
                          /\ Transactions b = [])).
      { intros [H1 H2]. unfold coinbaseHeight in Hcb. by rewrite H1, H2 in Hcb. }
      intros [Hm|Hwf].
      * unfold handleBlockMsg_finish. rewrite Hcb. rsimpl.
        assert (Hm2 : headersFirstMode sm2 = false)
          by (subst sm2; sm_simpl; congruence).
        destruct cb as [h|];
          destruct (LatestBlockLocator (world sm2)) as [loc [e|]];
          rsimpl; try destruct bhu as [bh|];
          try destruct (negb (_ =? 0));
          cbn [orb]; sm_simpl; rewrite ?Hm2; cbn [negb]; by eexists.
      * assert (Hwf2 : well_formed sm2).
        { eapply well_formed_same_sync; [exact Hwf|].
          subst sm2. unfold same_sync. sm_simpl.
          rewrite E6, E7, E8, E9, dom_alter_L. done. }
        pose proof (handleBlockMsg_finish_well_formed pp b ck true hu bhu
                      sm2 Hwf2) as Hens.
        destruct (handleBlockMsg_finish pp b ck true hu bhu sm2) as [sm'|];
          [by exists sm'|]. by destruct Hempty.
Qed.

End HandleBlockMsgError.

Section HandleBlockMsgErrorExamples.
Import NetSync.

(** The requested block 5 (old format, so [heightUpdate] is 0) is
    refused with a rule error: a node at height 10 rejects it; a node at
    height 0 asks the peer for its ancestors and the handler returns. *)
Lemma handleBlockMsg_error_witness :
  events <$> handleBlockMsg (ext := listed_order) 1%positive block_v1
               (asked_manager 10 (OtherParams "mainnet"))
  = Ok [ProcessBlockCall block_v1 BFNone 0;
        PushRejectMsg 1%positive "block" 16 "rejected" 5 false]
  /\ exists sm' l,
       handleBlockMsg (ext := listed_order) 1%positive block_v1
         (asked_manager 0 (OtherParams "mainnet")) = Ok sm'
       /\ events sm'
          = ProcessBlockCall block_v1 BFNone 0
            :: PushGetBlocksMsg 1%positive [100%N] 5%N :: l
       /\ Forall benign l.
Proof.
  split.
  - destruct (handleBlockMsg_error (ext := listed_order) 1%positive block_v1
                (asked_manager 10 (OtherParams "mainnet")) asked_peer
                false BFNone 0 None _ (rejecting_world 10) false
                (BlockchainRuleError "bad block")
                eq_refl asked_for_block_5 eq_refl eq_refl) as [H _].
    rewrite H; [reflexivity | vm_compute; discriminate].
  - destruct (handleBlockMsg_error (ext := listed_order) 1%positive block_v1
                (asked_manager 0 (OtherParams "mainnet")) asked_peer
                false BFNone 0 None _ (rejecting_world 0) false
                (BlockchainRuleError "bad block")
                eq_refl asked_for_block_5 eq_refl eq_refl) as [_ H].
    destruct (H eq_refl) as (_ & Hev & Hret).
    destruct (Hret (or_introl eq_refl)) as [sm' E].
    destruct (Hev sm' E) as (l & El & Fl).
    exists sm', l. split; [exact E|]. split; [exact El | exact Fl].
Defined.

End HandleBlockMsgErrorExamples.

Section BlockHandlerExamples.
Import NetSync.

Lemma listed_order_visits_all : range_visits_all (ext := listed_order).
Proof. split; intros n m; reflexivity. Qed.

Lemma blockHandler_run_invariant_witness :
  exists r,
    blockHandler_run (ext := listed_order) handled_messages
      (New (ext := listed_order) syncing_world (OtherParams "mainnet") false)
    = Ok r
    /\ well_formed r.1 /\ within_caps (ext := listed_order) r.1.
Proof.
  destruct (blockHandler_run (ext := listed_order) handled_messages
              (New (ext := listed_order) syncing_world (OtherParams "mainnet") false))
    as [r|] eqn:Hrun; [|by vm_compute in Hrun].
  exists r. split; [reflexivity|].
  exact (blockHandler_run_invariant (ext := listed_order) syncing_world
           (OtherParams "mainnet") false handled_messages r
           listed_order_visits_all eq_refl Hrun).
Defined.

Lemma blockHandler_step_returns_witness :
  exists r,
    blockHandler_step (ext := listed_order) (blockMsg 1%positive block_v2)
      (asked_manager 10 (OtherParams "mainnet"))
    = Ok r
    /\ well_formed r.1 /\ within_caps (ext := listed_order) r.1.
Proof.
  apply (blockHandler_step_returns (ext := listed_order)).
  - exact listed_order_visits_all.
  - reflexivity.
  - split; cbn; [discriminate|]. intros sp [= <-]. by eexists.
  - split; cbn; rewrite size_empty; [unfold maxRejectedTxns|]; lia.
  - split; [intros _; discriminate|]. intros fl hu d. cbn. discriminate.
Defined.

End BlockHandlerExamples.

(** ** Sync manager: single handlers *)

Section Handlers.
Import NetSync.
Context {W : Type} {ext : External W}.
Implicit Types (sm : SyncManager W) (p : Peer).

Lemma startSync_frame sm :
  peerStates (startSync sm) = peerStates sm
  /\ requestedTxns (startSync sm) = requestedTxns sm
  /\ headerList (startSync sm) = headerList sm
  /\ startHeader (startSync sm) = startHeader sm
  /\ requestedBlocks (startSync sm) ⊆ requestedBlocks sm.
Proof. unfold startSync. repeat case_match; sm_simpl; by repeat split. Qed.

Lemma delete_all_difference (m global : gset N) order :
  order ≡ₚ elements m -> delete_all order global = global ∖ m.
Proof.
  intros Hperm. apply set_eq. intros h.
  rewrite elem_of_delete_all, elem_of_difference, Hperm, elem_of_elements.
  done.
Qed.

(** X11. When a tracked peer is done, it is forgotten, what it still
    owed is taken out of the global request maps and nothing else is
    taken out of [requestedTxns]; if it was not the sync peer, nothing
    else changes; if it was, another sync peer is looked for, the
    departed peer is not selected again, and a headers-first download
    starts over from the best block. *)
Theorem handleDonePeerMsg_releases p sm st :
  range_visits_all ->
  well_formed sm ->
  peerStates sm !! p = Some st ->
  let sm' := handleDonePeerMsg p sm in
  peerStates sm' = delete p (peerStates sm)
  /\ requestedTxns sm' = requestedTxns sm ∖ peerRequestedTxns st
  /\ requestedBlocks sm' ⊆ requestedBlocks sm ∖ peerRequestedBlocks st
  /\ syncPeer sm' <> Some p
  /\ (syncPeer sm <> Some p ->
      syncPeer sm' = syncPeer sm
      /\ requestedBlocks sm' = requestedBlocks sm ∖ peerRequestedBlocks st
      /\ headersFirstMode sm' = headersFirstMode sm
      /\ headerList sm' = headerList sm
      /\ events sm' = events sm)
  /\ (syncPeer sm = Some p -> headersFirstMode sm = true ->
      startHeader sm' = CursorNil
      /\ headerList sm'
         = [mkHeaderNode (BestHeight (BestSnapshot (world sm)))
              (BestHash (BestSnapshot (world sm)))]).
Proof.
  intros Hr Hwf Hst sm'. subst sm'. unfold handleDonePeerMsg. rewrite Hst.
  cbv zeta. sm_simpl. destruct Hr as [Hh Hp].
  rewrite !(delete_all_difference _ _ _ (Hh _ _)).
  destruct (bool_decide_reflect (syncPeer sm = Some p)) as [Hsp|Hsp].
  - set (sm3 := if headersFirstMode sm then _ else _).
    assert (H3 : headersFirstMode sm3 = false /\ syncPeer sm3 = None
                 /\ peerStates sm3 = delete p (peerStates sm)
                 /\ requestedTxns sm3 = requestedTxns sm ∖ peerRequestedTxns st
                 /\ requestedBlocks sm3
                    = requestedBlocks sm ∖ peerRequestedBlocks st
                 /\ (headersFirstMode sm = true ->
                     startHeader sm3 = CursorNil
                     /\ headerList sm3
                        = [mkHeaderNode (BestHeight (BestSnapshot (world sm)))
                             (BestHash (BestSnapshot (world sm)))])).
    { subst sm3. destruct (headersFirstMode sm) eqn:Hm; [|by sm_simpl].
      destruct Hwf as [Hwf _]. destruct (Hwf Hm) as [[cp Hcp] _].
      unfold resetHeaderState. sm_simpl. rewrite Hcp. by sm_simpl. }
    clearbody sm3. destruct H3 as (Hm3 & Hs3 & Hp3 & Hq3 & Hb3 & Hl3).
    destruct (startSync_frame sm3) as (F1 & F2 & F3 & F4 & F5).
    assert (Hwf3 : well_formed sm3).
    { split; [by rewrite Hm3|by rewrite Hs3]. }
    destruct (startSync_well_formed sm3 (conj Hh Hp) Hwf3) as [[_ Ht] _].
    rewrite F1, F2, F3, F4, Hp3, Hq3.
    split; [done|]. split; [done|]. split; [by rewrite <- Hb3|].
    split; [|split; [done|by intros _]].
    intros Hs. apply Ht in Hs as [x Hx].
    rewrite F1, Hp3, lookup_delete_eq in Hx. done.
  - sm_simpl. repeat split; done.
Qed.

(** X12. A transaction that the mempool refuses is answered with a
    reject message and taken out of the request maps; while
    [rejectedTxns] has room, it is remembered there, and the same
    transaction sent again by any peer is ignored: it does not reach the
    mempool a second time. *)
Theorem handleTxMsg_rejected_once p tx sm st w acc err :
  peerStates sm !! p = Some st ->
  TxHash tx ∉ rejectedTxns sm ->
  ProcessTransaction (world sm) tx (PeerID p) = (w, (acc, Some err)) ->
  Z.of_nat (size (rejectedTxns sm)) + 1 < maxRejectedTxns ->
  let sm' := handleTxMsg p tx sm in
  events sm'
  = events sm ++ [ProcessTransactionCall tx (PeerID p);
                  PushRejectMsg p "tx" (ErrToRejectErr err).1
                    (ErrToRejectErr err).2 (TxHash tx) false]
  /\ rejectedTxns sm' = {[TxHash tx]} ∪ rejectedTxns sm
  /\ (TxHash tx ∉ requestedTxns sm')
  /\ (forall st', peerStates sm' !! p = Some st' ->
                  TxHash tx ∉ peerRequestedTxns st')
  /\ (forall q, handleTxMsg q tx sm' = sm').
Proof.
  intros Hst Hnew Hpt Hroom sm'.
  assert (Hsm' : sm' =
    emit (PushRejectMsg p "tx" (ErrToRejectErr err).1 (ErrToRejectErr err).2
            (TxHash tx) false)
      (set_ranges (S (ranges sm))
         (set_rejectedTxns ({[TxHash tx]} ∪ rejectedTxns sm)
            (set_requestedTxns (requestedTxns sm ∖ {[TxHash tx]})
               (update_peer p (del_peer_requestedTxn (TxHash tx))
                  (emit (ProcessTransactionCall tx (PeerID p))
                     (set_world w sm))))))).
  { subst sm'. unfold handleTxMsg. rewrite Hst.
    rewrite bool_decide_eq_false_2 by done. rewrite Hpt. cbv zeta. sm_simpl.
    unfold limitMap.
    assert (Hsize : size ({[TxHash tx]} ∪ rejectedTxns sm)
                    = S (size (rejectedTxns sm))).
    { rewrite size_union by set_solver. by rewrite size_singleton. }
    rewrite Hsize.
    destruct (Z.gtb_spec (Z.of_nat (S (size (rejectedTxns sm))) + 1)
                maxRejectedTxns) as [Hgt|_]; [lia|].
    by destruct (ErrToRejectErr err). }
  rewrite Hsm'. sm_simpl. split; [by rewrite <- app_assoc|].
  split; [done|]. split; [set_solver|]. split.
  - intros st'. rewrite lookup_alter_eq, Hst. cbn. intros [= <-]. cbn.
    set_solver.
  - intros q. unfold handleTxMsg. sm_simpl.
    destruct (alter _ p (peerStates sm) !! q); [|done].
    rewrite bool_decide_eq_true_2 by set_solver. done.
Qed.

(** X13. A requested block that the chain accepts on its best chain,
    outside headers-first mode: the block leaves both request maps, all
    of [rejectedTxns] is forgotten, the progress is logged and the
    peer's height is set to the new best height. *)
Theorem handleBlockMsg_accepted pp b sm st cb w :
  peerStates sm !! pp = Some st ->
  BHash b ∈ peerRequestedBlocks st ->
  headersFirstMode sm = false ->
  coinbaseHeight b = Ok cb ->
  ProcessBlock (world sm) b BFNone (default 0 cb) = (w, (false, None)) ->
  exists sm',
    handleBlockMsg pp b sm = Ok sm'
    /\ rejectedTxns sm' = ∅
    /\ requestedBlocks sm' = requestedBlocks sm ∖ {[BHash b]}
    /\ peerStates sm'
       = alter (del_peer_requestedBlock (BHash b)) pp (peerStates sm)
    /\ requestedTxns sm' = requestedTxns sm
    /\ exists l,
         events sm'
         = events sm
           ++ ProcessBlockCall b BFNone (default 0 cb) :: LogBlockHeight b :: l
         /\ (BestHeight (BestSnapshot w) <> 0 ->
             UpdateLastBlockHeightCall pp (BestHeight (BestSnapshot w)) ∈ l).
Proof.
  intros Hst Hin Hm Hcb Hpb. unfold handleBlockMsg. rewrite Hst.
  rewrite bool_decide_eq_true_2 by done. cbn [negb andb].
  unfold handleBlockMsg_process, handleBlockMsg_prepare.
  rewrite Hm. rsimpl. rewrite Hcb. rsimpl. sm_simpl. rewrite Hpb.
  unfold handleBlockMsg_finish. rsimpl. sm_simpl.
  destruct (Z.eqb_spec (BestHeight (BestSnapshot w)) 0) as [H0|H0];
    cbn [negb]; sm_simpl.
  - rewrite Hm. cbn [negb]. eexists. split; [reflexivity|]. sm_simpl.
    repeat split. exists []. split; [by rewrite <- app_assoc|done].
  - cbn [orb].
    match goal with |- context [current ?s] => destruct (current s) end;
      sm_simpl; rewrite Hm; cbn [negb];
      (eexists; split; [reflexivity|]); sm_simpl; repeat split;
      eexists; (split; [rewrite <- !app_assoc; reflexivity|]); intros _;
      set_solver.
Qed.

Lemma handleHeadersMsg_loop_extends p cp headers :
  forall sm prev fh,
    nextCheckpoint sm = Some cp ->
    last (headerList sm) = Some prev ->
    links (hash prev) headers ->
    Forall (fun n => height n <> Height cp) (appended (height prev) headers) ->
    exists sm',
      handleHeadersMsg_loop p headers fh sm
      = Ok (HeadersDone false (default fh (BlockHash <$> last headers)) sm')
      /\ headerList sm' = headerList sm ++ appended (height prev) headers
      /\ events sm' = events sm
      /\ nextCheckpoint sm' = Some cp
      /\ startHeader sm'
         = match headers with
           | [] => startHeader sm
           | _ :: _ =>
               if cursor_is_nil (startHeader sm)
               then CursorAt (length (headerList sm)) else startHeader sm
           end.
Proof.
  induction headers as [|h rest IH]; intros sm prev fh Hcp Hlast Hlinks Hlow.
  - exists sm. cbn. rewrite app_nil_r. by repeat split.
  - cbn [handleHeadersMsg_loop]. rewrite Hlast.
    destruct Hlinks as [Hprev Hlinks]. rewrite Hprev, N.eqb_refl.
    set (node := mkHeaderNode (wrap32 (height prev + 1)) (BlockHash h)).
    set (sm1 := if cursor_is_nil _ then _ else _).
    assert (nextCheckpoint sm1 = Some cp
            /\ headerList sm1 = headerList sm ++ [node]
            /\ events sm1 = events sm
            /\ startHeader sm1
               = (if cursor_is_nil (startHeader sm)
                  then CursorAt (length (headerList sm)) else startHeader sm)
            /\ cursor_is_nil (startHeader sm1) = false)
      as (E1 & E2 & E3 & E4 & E5).
    { subst sm1. sm_simpl. by destruct (cursor_is_nil (startHeader sm)) eqn:E. }
    rewrite E1. cbn [appended] in Hlow. apply Forall_cons in Hlow as [H0 Hlow].
    fold node in H0. rewrite (proj2 (Z.eqb_neq _ _) H0).
    destruct (IH sm1 node (BlockHash h) E1) as (sm' & Hrun & L1 & L2 & L3 & L4);
      [by rewrite E2, last_snoc|done|done|].
    exists sm'. rewrite Hrun. split.
    { do 2 f_equal. rewrite last_cons. by destruct (last rest). }
    rewrite L1, L2, E2, E3, <- app_assoc. repeat split; try done.
    rewrite L4. destruct rest; [done|]. by rewrite E5.
Qed.

(** X14. In headers-first mode, headers from a tracked peer that link
    up to the last known header and stay below the height of the next
    checkpoint are all appended to [headerList], each one unit higher
    than the one before, and the peer is asked for the headers that
    follow the last of them, up to the checkpoint. *)
Theorem handleHeadersMsg_extends p headers sm st cp prev final :
  peerStates sm !! p = Some st ->
  headersFirstMode sm = true ->
  nextCheckpoint sm = Some cp ->
  last (headerList sm) = Some prev ->
  last headers = Some final ->
  links (hash prev) headers ->
  Forall (fun n => height n <> Height cp) (appended (height prev) headers) ->
  exists sm',
    handleHeadersMsg p headers sm = Ok sm'
    /\ headerList sm' = headerList sm ++ appended (height prev) headers
    /\ events sm'
       = events sm ++ [PushGetHeadersMsg p [BlockHash final] (CHash cp)]
    /\ startHeader sm'
       = if cursor_is_nil (startHeader sm)
         then CursorAt (length (headerList sm)) else startHeader sm.
Proof.
  intros Hst Hm Hcp Hlast Hfinal Hlinks Hlow.
  destruct (handleHeadersMsg_loop_extends p cp headers sm prev zeroHash
              Hcp Hlast Hlinks Hlow) as (sm1 & Hrun & L1 & L2 & L3 & L4).
  unfold handleHeadersMsg. rewrite Hst, Hm. cbn [negb].
  destruct headers as [|h rest]; [done|]. cbn [length Nat.eqb].
  rewrite Hrun. rsimpl. rewrite L3, Hfinal. cbn [fmap option_fmap option_map default].
  eexists. split; [reflexivity|]. sm_simpl. by rewrite L1, L2, L4.
Qed.

Lemma handleInvMsg_scan_headersFirst p lastBlock invVects :
  forall i sm,
    headersFirstMode sm = true ->
    adds (announces p) sm (handleInvMsg_scan p lastBlock i invVects sm)
    /\ handleInvMsg_scan p lastBlock i invVects sm
       = set_events (events (handleInvMsg_scan p lastBlock i invVects sm)) sm.
Proof.
  induction invVects as [|iv rest IH]; intros i sm Hm.
  - cbn. split; [apply adds_refl|by destruct sm].
  - cbn [handleInvMsg_scan]. cbv zeta.
    destruct (negb _); [by apply IH|]. sm_simpl. rewrite Hm.
    destruct (IH (i + 1) (emit (AddKnownInventory p iv) sm) Hm) as [H1 H2].
    split.
    + eapply adds_trans; [|exact H1].
      exists [AddKnownInventory p iv]. split; [done|]. by constructor.
    + rewrite H2 at 1. by sm_simpl.
Qed.

(** X15. An inventory message changes nothing but what is recorded
    about the peer's announcements, and asks for nothing, when it comes
    from a peer other than the sync peer while the node is not current,
    or arrives in headers-first mode from a peer whose request queue is
    empty. *)
Theorem handleInvMsg_ignored p invVects sm st :
  peerStates sm !! p = Some st ->
  (syncPeer sm <> Some p /\ current sm = false)
  \/ (headersFirstMode sm = true /\ requestQueue st = []) ->
  let sm' := handleInvMsg p invVects sm in
  adds (announces p) sm sm'
  /\ peerStates sm' = peerStates sm
  /\ requestedBlocks sm' = requestedBlocks sm
  /\ requestedTxns sm' = requestedTxns sm.
Proof.
  intros Hst Hcase sm'. subst sm'. unfold handleInvMsg. rewrite Hst. cbv zeta.
  set (sm1 := if _ && (_ || current sm) then _ else sm).
  assert (H1 : adds (announces p) sm sm1
               /\ sm1 = set_events (events sm1) sm).
  { subst sm1. destruct (_ && _).
    - split; [|done]. eexists. split; [done|]. by constructor.
    - split; [apply adds_refl|by destruct sm]. }
  clearbody sm1. destruct H1 as [A1 E1].
  assert (Hcur : current sm1 = current sm) by (by rewrite E1).
  destruct Hcase as [[Hsp Hc]|[Hm Hq]].
  { rewrite bool_decide_eq_false_2 by done. rewrite Hcur, Hc. cbn [negb andb].
    split; [done|]. by rewrite E1. }
  destruct (_ && negb (current sm1)); [split; [done|by rewrite E1]|].
  set (sm2 := if _ && current sm1 then _ else sm1).
  assert (H2 : adds (announces p) sm sm2
               /\ peerStates sm2 = peerStates sm
               /\ requestedBlocks sm2 = requestedBlocks sm
               /\ requestedTxns sm2 = requestedTxns sm
               /\ headersFirstMode sm2 = true).
  { assert (adds (announces p) sm1 sm2
            /\ peerStates sm2 = peerStates sm1
            /\ requestedBlocks sm2 = requestedBlocks sm1
            /\ requestedTxns sm2 = requestedTxns sm1
            /\ headersFirstMode sm2 = headersFirstMode sm1) as (B1&B2&B3&B4&B5).
    { subst sm2. destruct (_ && _); [|split; [apply adds_refl|done]].
      destruct (BlockHeightByHash _ _) as [bh [e|]];
        [split; [apply adds_refl|done]|].
      split; [|done]. eexists. split; [done|]. by constructor. }
    rewrite B2, B3, B4, B5, E1. sm_simpl.
    split; [by eapply adds_trans|done]. }
  clearbody sm2. destruct H2 as (A2 & P2 & B2 & T2 & M2).
  destruct (handleInvMsg_scan_headersFirst p (lastBlockIndex 0 invVects)
              invVects 0 sm2 M2) as [A3 E3].
  set (sm3 := handleInvMsg_scan _ _ _ _ sm2) in *. clearbody sm3.
  assert (P3 : peerStates sm3 = peerStates sm) by (by rewrite E3).
  rewrite P3, Hst, Hq. cbn [handleInvMsg_drain length Nat.ltb Nat.leb].
  sm_simpl. rewrite P3.
  split; [by eapply adds_trans|].
  split; [|by rewrite E3].
  apply alter_id. intros x Hx. rewrite Hst in Hx. injection Hx as <-.
  destruct st as [c q t bl]. cbn in Hq. by subst q.
Qed.

End Handlers.

Section HandlersExamples.
Import NetSync.

Lemma well_formed_asked_manager h params :
  well_formed (asked_manager h params).
Proof.
  split; cbn; [discriminate|]. intros sp [= <-]. by eexists.
Qed.

Lemma handleDonePeerMsg_releases_witness :
  peerStates (handleDonePeerMsg (ext := listed_order) 1%positive
                (asked_manager 10 (OtherParams "mainnet")))
  = delete 1%positive (peerStates (asked_manager 10 (OtherParams "mainnet")))
  /\ requestedBlocks (handleDonePeerMsg (ext := listed_order) 1%positive
                        (asked_manager 10 (OtherParams "mainnet")))
     ⊆ requestedBlocks (asked_manager 10 (OtherParams "mainnet"))
       ∖ peerRequestedBlocks asked_peer
  /\ syncPeer (handleDonePeerMsg (ext := listed_order) 1%positive
                 (asked_manager 10 (OtherParams "mainnet")))
     <> Some 1%positive.
Proof.
  destruct (handleDonePeerMsg_releases (ext := listed_order) 1%positive
              (asked_manager 10 (OtherParams "mainnet")) asked_peer
              listed_order_visits_all (well_formed_asked_manager _ _) eq_refl)
    as (H1 & _ & H3 & H4 & _).
  split; [exact H1|]. split; [exact H3|exact H4].
Defined.

Lemma handleTxMsg_rejected_once_witness :
  events (handleTxMsg (ext := refusing_mempool) 1%positive (mkTx 7 [])
            (asked_manager 10 (OtherParams "mainnet")))
  = [ProcessTransactionCall (mkTx 7 []) 1;
     PushRejectMsg 1%positive "tx" 16 "rejected" 7 false]
  /\ forall q,
       handleTxMsg (ext := refusing_mempool) q (mkTx 7 [])
         (handleTxMsg (ext := refusing_mempool) 1%positive (mkTx 7 [])
            (asked_manager 10 (OtherParams "mainnet")))
       = handleTxMsg (ext := refusing_mempool) 1%positive (mkTx 7 [])
           (asked_manager 10 (OtherParams "mainnet")).
Proof.
  destruct (handleTxMsg_rejected_once (ext := refusing_mempool) 1%positive
              (mkTx 7 []) (asked_manager 10 (OtherParams "mainnet")) asked_peer
              (rejecting_world 10) [] (MempoolRuleError "refused")
              eq_refl ltac:(cbn; set_solver) eq_refl
              ltac:(cbn; rewrite size_empty; unfold maxRejectedTxns; lia))
    as (H1 & _ & _ & _ & H5).
  split; [exact H1|exact H5].
Defined.

Lemma handleBlockMsg_accepted_witness :
  exists sm',
    handleBlockMsg (ext := listed_order) 1%positive block_v2 two_candidates
    = Ok sm'
    /\ rejectedTxns sm' = ∅
    /\ requestedBlocks sm' = requestedBlocks two_candidates ∖ {[5%N]}.
Proof.
  destruct (handleBlockMsg_accepted (ext := listed_order) 1%positive block_v2
              two_candidates asked_peer (Some 0) idle_world
              eq_refl asked_for_block_5 eq_refl eq_refl eq_refl)
    as (sm' & H1 & H2 & H3 & _).
  exists sm'. split; [exact H1|]. split; [exact H2|exact H3].
Defined.

Lemma handleHeadersMsg_extends_witness :
  exists sm',
    handleHeadersMsg (ext := listed_order) 1%positive [header_11]
      syncing_manager = Ok sm'
    /\ headerList sm' = [mkHeaderNode 0 100; mkHeaderNode 1 11]
    /\ events sm' = [PushGetHeadersMsg 1%positive [11%N] 22%N]
    /\ startHeader sm' = CursorAt 1.
Proof.
  refine (handleHeadersMsg_extends (ext := listed_order) 1%positive
            [header_11] syncing_manager (mkPeerSyncState true [] ∅ ∅)
            (mkCheckpoint 2 22) (mkHeaderNode 0 100) header_11
            eq_refl eq_refl eq_refl eq_refl eq_refl _ _).
  - cbn. auto.
  - repeat constructor. vm_compute. discriminate.
Defined.

Lemma handleInvMsg_ignored_witness :
  adds (announces 1%positive) syncing_manager
    (handleInvMsg (ext := listed_order) 1%positive
       [mkInvVect InvTypeBlock 11] syncing_manager)
  /\ requestedBlocks (handleInvMsg (ext := listed_order) 1%positive
                        [mkInvVect InvTypeBlock 11] syncing_manager)
     = requestedBlocks syncing_manager.
Proof.
  destruct (handleInvMsg_ignored (ext := listed_order) 1%positive
              [mkInvVect InvTypeBlock 11] syncing_manager
              (mkPeerSyncState true [] ∅ ∅) eq_refl
              (or_intror (conj eq_refl eq_refl)))
    as (H1 & _ & H3 & _).
  split; [exact H1|exact H3].
Defined.

End HandlersExamples.

(** ** Sync manager: from one checkpoint to the next *)

Section CheckpointRounds.
Import NetSync.
Context {W : Type} {ext : External W}.
Implicit Types (sm : SyncManager W) (p : Peer).

Lemma findNextHeaderCheckpoint_world sm sm' h :
  world sm' = world sm ->
  findNextHeaderCheckpoint sm' h = findNextHeaderCheckpoint sm h.
Proof. unfold findNextHeaderCheckpoint. by intros ->. Qed.

Lemma handleBlockMsg_finish_checkpoint pp b hu bhu sm cp sp :
  headersFirstMode sm = true ->
  nextCheckpoint sm = Some cp ->
  syncPeer sm = Some sp ->
  exists sm',
    handleBlockMsg_finish pp b true false hu bhu sm = Ok sm'
    /\ world sm'
       = (if BestHeight (BestSnapshot (world sm)) =? 0 then world sm
          else UpdateLastBlockHeight (world sm) pp
                 (BestHeight (BestSnapshot (world sm))))
    /\ nextCheckpoint sm' = findNextHeaderCheckpoint sm' (Height cp)
    /\ match nextCheckpoint sm' with
       | Some next =>
           headersFirstMode sm' = true
           /\ headerList sm' = headerList sm
           /\ last (events sm')
              = Some (PushGetHeadersMsg pp [CHash cp] (CHash next))
       | None =>
           headersFirstMode sm' = false
           /\ headerList sm' = []
           /\ last (events sm')
              = Some (PushGetBlocksMsg pp [BHash b] zeroHash)
       end.
Proof.
  intros Hm Hcp Hsp. unfold handleBlockMsg_finish. rsimpl.
  match goal with |- context [headersFirstMode ?s] => set (smB := s) end.
  assert (HB : headersFirstMode smB = true /\ nextCheckpoint smB = Some cp
               /\ syncPeer smB = Some sp /\ headerList smB = headerList sm
               /\ world smB
                  = (if BestHeight (BestSnapshot (world sm)) =? 0
                     then world sm
                     else UpdateLastBlockHeight (world sm) pp
                            (BestHeight (BestSnapshot (world sm))))).
  { subst smB. sm_simpl.
    destruct (BestHeight (BestSnapshot (world sm)) =? 0); cbn [negb];
      [by sm_simpl|].
    cbn [orb]. by destruct (current _). }
  clearbody smB. destruct HB as (B1 & B2 & B3 & B4 & B5).
  rewrite B1, B2. cbn [negb]. cbv zeta. sm_simpl.
  destruct (findNextHeaderCheckpoint smB (Height cp)) as [next|] eqn:Hf.
  - assert (Hres : forall sm',
      sm' = emit (PushGetHeadersMsg pp [CHash cp] (CHash next))
              (set_nextCheckpoint (Some next) smB) ->
      world sm'
      = (if BestHeight (BestSnapshot (world sm)) =? 0 then world sm
         else UpdateLastBlockHeight (world sm) pp
                (BestHeight (BestSnapshot (world sm))))
      /\ nextCheckpoint sm' = findNextHeaderCheckpoint sm' (Height cp)
      /\ match nextCheckpoint sm' with
         | Some next =>
             headersFirstMode sm' = true
             /\ headerList sm' = headerList sm
             /\ last (events sm')
                = Some (PushGetHeadersMsg pp [CHash cp] (CHash next))
         | None =>
             headersFirstMode sm' = false
             /\ headerList sm' = []
             /\ last (events sm')
                = Some (PushGetBlocksMsg pp [BHash b] zeroHash)
         end).
    { intros sm' ->. sm_simpl. split; [done|].
      rewrite (findNextHeaderCheckpoint_world smB) by done.
      by rewrite Hf, last_snoc. }
    destruct (PushGetHeadersMsgErr _ _); [|rewrite B3];
      (eexists; split; [reflexivity|by apply Hres]).
  - eexists. split; [reflexivity|]. sm_simpl. split; [done|].
    rewrite (findNextHeaderCheckpoint_world smB) by done.
    by rewrite Hf, last_snoc.
Qed.

(** X16. In headers-first mode, when the requested block of the next
    checkpoint arrives and the chain accepts it, it was added with
    [BFFastAdd], and the manager moves on to the checkpoint that follows:
    it asks the peer for the headers from this checkpoint up to that
    one, or, when this was the final checkpoint, leaves headers-first
    mode, empties the header list and asks for the blocks after this
    one. *)
Theorem handleBlockMsg_checkpoint pp b sm st first rest cp sp cb w :
  peerStates sm !! pp = Some st ->
  BHash b ∈ peerRequestedBlocks st ->
  headersFirstMode sm = true ->
  headerList sm = first :: rest ->
  nextCheckpoint sm = Some cp ->
  syncPeer sm = Some sp ->
  hash first = BHash b ->
  CHash cp = BHash b ->
  coinbaseHeight b = Ok cb ->
  ProcessBlock (world sm) b (N.lor BFNone BFFastAdd) (default 0 cb)
  = (w, (false, None)) ->
  exists sm',
    handleBlockMsg pp b sm = Ok sm'
    /\ world sm'
       = (if BestHeight (BestSnapshot w) =? 0 then w
          else UpdateLastBlockHeight w pp (BestHeight (BestSnapshot w)))
    /\ nextCheckpoint sm' = findNextHeaderCheckpoint sm' (Height cp)
    /\ match nextCheckpoint sm' with
       | Some next =>
           headersFirstMode sm' = true
           /\ headerList sm' = first :: rest
           /\ last (events sm')
              = Some (PushGetHeadersMsg pp [CHash cp] (CHash next))
       | None =>
           headersFirstMode sm' = false
           /\ headerList sm' = []
           /\ last (events sm')
              = Some (PushGetBlocksMsg pp [BHash b] zeroHash)
       end.
Proof.
  intros Hst Hin Hm Hl Hcp Hsp Hfirst Hck Hcb Hpb.
  unfold handleBlockMsg. rewrite Hst.
  rewrite bool_decide_eq_true_2 by done. cbn [negb andb].
  unfold handleBlockMsg_process, handleBlockMsg_prepare.
  rewrite Hm, Hl, Hfirst, N.eqb_refl, Hcp, Hck, N.eqb_refl. rsimpl.
  rewrite Hcb. rsimpl. sm_simpl. rewrite Hpb.
  match goal with
  | |- context [handleBlockMsg_finish pp b true false ?hu ?bhu ?s] =>
      destruct (handleBlockMsg_finish_checkpoint pp b hu bhu s cp sp)
        as (sm' & Hrun & H0 & H1 & H3); [done..|]
  end.
  exists sm'. split; [exact Hrun|]. split; [exact H0|]. split; [exact H1|].
  rewrite Hck in H3. destruct (nextCheckpoint sm') as [next|]; [|exact H3].
  destruct H3 as (A & B & C). split; [exact A|]. split; [|exact C].
  rewrite B. exact Hl.
Qed.

Lemma fetchHeaderBlocks_loop_headerList walk sh gdmsg n sm sm' gd' :
  fetchHeaderBlocks_loop walk sh gdmsg n sm = Ok (sm', gd') ->
  headerList sm' = headerList sm /\ syncPeer sm' = syncPeer sm.
Proof.
  revert sh gdmsg n sm. induction walk as [|node rest IH]; intros sh gdmsg n sm.
  - cbn. by intros [= <- <-].
  - cbn [fetchHeaderBlocks_loop].
    destruct (negb (fst (haveInventory sm _))).
    + destruct (syncPeerState _) as [[sp st]|]; rsimpl; [|done].
      destruct (_ >=? _); [by intros [= <- <-]|].
      intros H. by destruct (IH _ _ _ _ H) as [-> ->].
    + rsimpl. destruct (_ >=? _); [by intros [= <- <-]|].
      intros H. by destruct (IH _ _ _ _ H) as [-> ->].
Qed.

Lemma fetchHeaderBlocks_request sm sm' sp :
  syncPeer sm = Some sp ->
  fetchHeaderBlocks sm = Ok sm' ->
  headerList sm' = headerList sm
  /\ exists l, events sm' = events sm ++ l /\ at_most_one_request sp l.
Proof.
  intros Hsp. unfold fetchHeaderBlocks.
  destruct (cursor_is_nil _).
  { intros [= <-]. split; [done|]. exists []. rewrite app_nil_r. by split; [|left]. }
  destruct (fetchHeaderBlocks_loop _ _ _ _ _) as [[sm1 gd]|] eqn:Hloop;
    rsimpl; [|done].
  pose proof (fetchHeaderBlocks_loop_events _ _ _ _ _ _ _ Hloop) as Hev.
  apply fetchHeaderBlocks_loop_headerList in Hloop as [Hl Hs].
  destruct (0 <? length gd)%nat eqn:Hgd.
  - rewrite Hs, Hsp. intros [= <-]. split; [done|].
    exists [QueueMessage sp gd]. split; [sm_simpl; by rewrite Hev|].
    right. exists gd. split; [|done]. intros ->. discriminate Hgd.
  - intros [= <-]. split; [done|]. exists []. rewrite app_nil_r. by split; [|left].
Qed.

Lemma handleHeadersMsg_loop_reaches p cp h post pre :
  forall sm prev fh,
    nextCheckpoint sm = Some cp ->
    last (headerList sm) = Some prev ->
    links (hash prev) (pre ++ [h]) ->
    Forall (fun n => height n <> Height cp) (appended (height prev) pre) ->
    last (appended (height prev) (pre ++ [h]))
    = Some (mkHeaderNode (Height cp) (CHash cp)) ->
    exists sm',
      handleHeadersMsg_loop p (pre ++ h :: post) fh sm
      = Ok (HeadersDone true (BlockHash h) sm')
      /\ headerList sm' = headerList sm ++ appended (height prev) (pre ++ [h])
      /\ events sm' = events sm
      /\ syncPeer sm' = syncPeer sm
      /\ peerStates sm' = peerStates sm.
Proof.
  induction pre as [|x pre IH]; intros sm prev fh Hcp Hlast Hlinks Hlow Hat.
  - cbn [app handleHeadersMsg_loop]. rewrite Hlast.
    destruct Hlinks as [Hprev _]. rewrite Hprev, N.eqb_refl.
    cbn [app appended last] in Hat. injection Hat as Hh Hc.
    set (sm1 := if cursor_is_nil _ then _ else _).
    assert (nextCheckpoint sm1 = Some cp
            /\ headerList sm1
               = headerList sm
                 ++ [mkHeaderNode (wrap32 (height prev + 1)) (BlockHash h)]
            /\ events sm1 = events sm /\ syncPeer sm1 = syncPeer sm
            /\ peerStates sm1 = peerStates sm) as (E1 & E2 & E3 & E4 & E5).
    { subst sm1. sm_simpl. by destruct (cursor_is_nil (startHeader sm)). }
    rewrite E1. cbn [height hash]. rewrite Hh, Hc, Z.eqb_refl, N.eqb_refl.
    exists sm1. split; [done|]. cbn [app appended]. by repeat split.
  - cbn [app handleHeadersMsg_loop]. rewrite Hlast.
    destruct Hlinks as [Hprev Hlinks]. rewrite Hprev, N.eqb_refl.
    set (node := mkHeaderNode (wrap32 (height prev + 1)) (BlockHash x)).
    set (sm1 := if cursor_is_nil _ then _ else _).
    assert (nextCheckpoint sm1 = Some cp
            /\ headerList sm1 = headerList sm ++ [node]
            /\ events sm1 = events sm /\ syncPeer sm1 = syncPeer sm
            /\ peerStates sm1 = peerStates sm) as (E1 & E2 & E3 & E4 & E5).
    { subst sm1. sm_simpl. by destruct (cursor_is_nil (startHeader sm)). }
    rewrite E1. cbn [appended] in Hlow. apply Forall_cons in Hlow as [H0 Hlow].
    fold node in H0. rewrite (proj2 (Z.eqb_neq _ _) H0).
    destruct (IH sm1 node (BlockHash x) E1) as (sm' & Hrun & L1 & L2 & L3 & L4);
      [by rewrite E2, last_snoc|done|done| |].
    { cbn [app appended] in Hat. rewrite last_cons in Hat.
      change (height node) with (wrap32 (height prev + 1)).
      destruct (last (appended _ (pre ++ [h]))) eqn:El; [done|].
      apply last_None in El. destruct pre; discriminate El. }
    exists sm'. rewrite Hrun. split; [done|].
    rewrite L1, L2, L3, L4, E2, E3, E4, E5, <- app_assoc. by repeat split.
Qed.

(** X17. In headers-first mode, headers from a tracked peer that link
    up to the last known header and reach the next checkpoint with the
    checkpoint's hash: the headers up to the checkpoint are appended,
    what follows the checkpoint in the message is not looked at, the
    oldest node leaves the header list, the progress logger is reset,
    and at most one [getdata] message is queued, for the sync peer;
    nothing else is sent: the peer is not disconnected and no further
    headers are asked for. *)
Theorem handleHeadersMsg_checkpoint_reached p pre h post sm st cp prev sp :
  well_formed sm ->
  peerStates sm !! p = Some st ->
  headersFirstMode sm = true ->
  nextCheckpoint sm = Some cp ->
  syncPeer sm = Some sp ->
  last (headerList sm) = Some prev ->
  links (hash prev) (pre ++ [h]) ->
  Forall (fun n => height n <> Height cp) (appended (height prev) pre) ->
  last (appended (height prev) (pre ++ [h]))
  = Some (mkHeaderNode (Height cp) (CHash cp)) ->
  exists sm',
    handleHeadersMsg p (pre ++ h :: post) sm = Ok sm'
    /\ headerList sm'
       = tail (headerList sm ++ appended (height prev) (pre ++ [h]))
    /\ exists request,
         events sm' = events sm ++ SetLastLogTime :: request
         /\ at_most_one_request sp request.
Proof.
  intros Hwf Hst Hm Hcp Hsp Hlast Hlinks Hlow Hat.
  destruct (handleHeadersMsg_loop_reaches p cp h post pre sm prev zeroHash
              Hcp Hlast Hlinks Hlow Hat) as (sm1 & Hrun & L1 & L2 & L3 & L4).
  unfold handleHeadersMsg. rewrite Hst, Hm. cbn [negb].
  replace (length (pre ++ h :: post) =? 0)%nat with false
    by (symmetry; apply Nat.eqb_neq; rewrite length_app; cbn; lia).
  rewrite Hrun. rsimpl. rewrite L1.
  destruct (headerList sm) as [|front hl] eqn:Hl; [done|].
  cbn [app tail].
  set (sm2 := emit SetLastLogTime _).
  assert (S2 : syncPeer sm2 = Some sp) by (subst sm2; sm_simpl; congruence).
  assert (T2 : is_Some (peerStates sm2 !! sp)).
  { subst sm2. sm_simpl. rewrite L4. destruct Hwf as [_ Ht]. by apply Ht. }
  pose proof (fetchHeaderBlocks_tracked sm2 sp S2 T2) as Hf.
  destruct (fetchHeaderBlocks sm2) as [sm3|] eqn:Hfetch; [|done].
  destruct (fetchHeaderBlocks_request sm2 sm3 sp S2 Hfetch)
    as [F1 (l2 & F2 & F3)].
  exists sm3. split; [done|]. split.
  - rewrite F1. subst sm2. by sm_simpl.
  - exists l2. split; [|exact F3].
    rewrite F2. subst sm2. sm_simpl. by rewrite L2, <- app_assoc.
Qed.

End CheckpointRounds.

Section CheckpointRoundsExamples.
Import NetSync.

Lemma handleBlockMsg_checkpoint_witness :
  exists sm',
    handleBlockMsg (ext := small_limit) 1%positive
      (mkBlock 5 (mkBlockHeader 1 100 5) [mkTx 77 []]) checkpoint_manager
    = Ok sm'
    /\ nextCheckpoint sm' = None
    /\ headersFirstMode sm' = false
    /\ headerList sm' = []
    /\ last (events sm') = Some (PushGetBlocksMsg 1%positive [5%N] zeroHash).
Proof.
  destruct (handleBlockMsg_checkpoint (ext := small_limit) 1%positive
              (mkBlock 5 (mkBlockHeader 1 100 5) [mkTx 77 []])
              checkpoint_manager asked_peer (mkHeaderNode 1 5) []
              (mkCheckpoint 1 5) 1%positive None checkpoint_world
              eq_refl asked_for_block_5 eq_refl eq_refl eq_refl eq_refl
              eq_refl eq_refl eq_refl eq_refl)
    as (sm' & H1 & H0 & H2 & H3).
  assert (Hn : nextCheckpoint sm' = None).
  { rewrite H2. unfold findNextHeaderCheckpoint. rewrite H0. reflexivity. }
  rewrite Hn in H3. exists sm'. split; [exact H1|]. split; [exact Hn|exact H3].
Defined.

Lemma handleHeadersMsg_checkpoint_reached_witness :
  exists sm',
    handleHeadersMsg (ext := listed_order) 1%positive
      [header_11; header_22; header_99] syncing_manager = Ok sm'
    /\ headerList sm' = [mkHeaderNode 1 11; mkHeaderNode 2 22]
    /\ exists request,
         events sm' = SetLastLogTime :: request
         /\ at_most_one_request 1%positive request.
Proof.
  refine (handleHeadersMsg_checkpoint_reached (ext := listed_order) 1%positive
            [header_11] header_22 [header_99] syncing_manager
            (mkPeerSyncState true [] ∅ ∅) (mkCheckpoint 2 22)
            (mkHeaderNode 0 100) 1%positive
            _ eq_refl eq_refl eq_refl eq_refl eq_refl _ _ eq_refl).
  - split; cbn; [intros _; split; by eexists|]. intros sp [= <-]. by eexists.
  - cbn. auto.
  - repeat constructor. vm_compute. discriminate.
Defined.

End CheckpointRoundsExamples.

(** ** Sync manager: the progress logger *)

Section ProgressLogger.
Import NetSync.

Lemma sumZ_app xs ys : sumZ (xs ++ ys) = sumZ xs + sumZ ys.
Proof.
  unfold sumZ. induction xs as [|x xs IH]; cbn [fold_right app]; lia.
Qed.

Lemma sumZ_one x : sumZ [x] = x.
Proof. unfold sumZ. cbn [fold_right]. lia. Qed.

Lemma logged_nonneg calls : 0 <= blocks_logged calls /\ 0 <= txs_logged calls.
Proof.
  unfold blocks_logged, txs_logged.
  induction calls as [|[n t|t] cs [IH1 IH2]]; cbn [fold_right]; lia.
Qed.

Lemma LogBlockHeight_step_counts l numTx now :
  0 <= receivedLogBlocks l ->
  0 <= receivedLogTx l ->
  receivedLogBlocks l + 1 < 2 ^ 63 ->
  receivedLogTx l + Z.of_nat numTx < 2 ^ 63 ->
  Forall (fun line => 1000000000 * 2 <= lineDuration line
                      /\ lineDuration line mod 10000000 = 0) (logLines l) ->
  let l1 := LogBlockHeight_step l numTx now in
  0 <= receivedLogBlocks l1 <= receivedLogBlocks l + 1
  /\ 0 <= receivedLogTx l1 <= receivedLogTx l + Z.of_nat numTx
  /\ sumZ (lineBlocks <$> logLines l1) + receivedLogBlocks l1
     = sumZ (lineBlocks <$> logLines l) + receivedLogBlocks l + 1
  /\ sumZ (lineTxs <$> logLines l1) + receivedLogTx l1
     = sumZ (lineTxs <$> logLines l) + receivedLogTx l + Z.of_nat numTx
  /\ Forall (fun line => 1000000000 * 2 <= lineDuration line
                         /\ lineDuration line mod 10000000 = 0) (logLines l1).
Proof.
  intros Hb Ht Hlb Hlt Hlines l1. subst l1. unfold LogBlockHeight_step.
  rewrite (wrap64_small (Z.of_nat numTx)) by lia.
  rewrite !(wrap64_small (_ + _)) by lia.
  change (wrap64 (10 * 1000000)) with 10000000.
  destruct (Z.ltb_spec (time_Sub now (lastBlockLogTime l))
              (1000000000 * 2)) as [Hlt2|Hge2];
    cbn [receivedLogBlocks receivedLogTx logLines].
  - repeat split; try lia; done.
  - rewrite !fmap_app, !sumZ_app. cbn [fmap list_fmap lineBlocks lineTxs].
    rewrite !sumZ_one. repeat split; try lia.
    apply Forall_app. split; [done|]. constructor; [|done].
    cbn [lineDuration].
    assert (Hd : time_Sub now (lastBlockLogTime l) < 2 ^ 63)
      by (unfold time_Sub; lia).
    set (d := time_Sub now (lastBlockLogTime l)) in *.
    assert (Hq : 200 <= Z.quot (Z.quot d 1000000) 10
                 /\ 10000000 * Z.quot (Z.quot d 1000000) 10 <= d).
    { rewrite (Z.quot_div_nonneg d 1000000) by lia.
      rewrite (Z.quot_div_nonneg (d / 1000000) 10)
        by (try lia; apply Z.div_pos; lia).
      split; Z.div_mod_to_equations; lia. }
    rewrite wrap64_small by lia. split; [lia|].
    rewrite Z.mul_comm. apply Z_mod_mult.
Qed.

Lemma logger_run_counts calls :
  forall l,
    0 <= receivedLogBlocks l ->
    0 <= receivedLogTx l ->
    receivedLogBlocks l + blocks_logged calls < 2 ^ 63 ->
    receivedLogTx l + txs_logged calls < 2 ^ 63 ->
    Forall (fun line => 1000000000 * 2 <= lineDuration line
                        /\ lineDuration line mod 10000000 = 0) (logLines l) ->
    let l' := logger_run l calls in
    sumZ (lineBlocks <$> logLines l') + receivedLogBlocks l'
    = sumZ (lineBlocks <$> logLines l) + receivedLogBlocks l
      + blocks_logged calls
    /\ sumZ (lineTxs <$> logLines l') + receivedLogTx l'
       = sumZ (lineTxs <$> logLines l) + receivedLogTx l + txs_logged calls
    /\ Forall (fun line => 1000000000 * 2 <= lineDuration line
                           /\ lineDuration line mod 10000000 = 0)
         (logLines l').
Proof.
  induction calls as [|c calls IH]; intros l Hb Ht Hlb Hlt Hlines.
  - cbn. split; [lia|]. split; [lia|done].
  - destruct (logged_nonneg calls) as [N1 N2].
    change (logger_run l (c :: calls))
      with (logger_run (logger_step l c) calls).
    destruct c as [numTx now|t].
    + change (blocks_logged (CallLogBlockHeight numTx now :: calls))
        with (blocks_logged calls + 1) in *.
      change (txs_logged (CallLogBlockHeight numTx now :: calls))
        with (txs_logged calls + Z.of_nat numTx) in *.
      cbn [logger_step].
      destruct (LogBlockHeight_step_counts l numTx now Hb Ht
                  ltac:(lia) ltac:(lia) Hlines) as (A1 & A2 & A3 & A4 & A5).
      destruct (IH (LogBlockHeight_step l numTx now)
                  ltac:(lia) ltac:(lia) ltac:(lia) ltac:(lia) A5)
        as (B1 & B2 & B3).
      split; [lia|]. split; [lia|done].
    + change (blocks_logged (CallSetLastLogTime t :: calls))
        with (blocks_logged calls) in *.
      change (txs_logged (CallSetLastLogTime t :: calls))
        with (txs_logged calls) in *.
      cbn [logger_step].
      apply (IH (SetLastLogTime_step l t)); done.
Qed.

(** X18. The progress logger loses no block and no transaction: what
    the lines it has logged add up to, together with what it has counted
    since the last line, is the number of blocks handed to
    [LogBlockHeight] and the number of their transactions, whenever
    [SetLastLogTime] was called in between; every line covers at least
    two seconds, printed in steps of ten milliseconds. *)
Theorem LogBlockHeight_accounts (start : Z) (calls : list LoggerCall) :
  blocks_logged calls < 2 ^ 63 ->
  txs_logged calls < 2 ^ 63 ->
  let l := logger_run (newBlockProgressLogger start) calls in
  sumZ (lineBlocks <$> logLines l) + receivedLogBlocks l = blocks_logged calls
  /\ sumZ (lineTxs <$> logLines l) + receivedLogTx l = txs_logged calls
  /\ Forall (fun line => 1000000000 * 2 <= lineDuration line
                         /\ lineDuration line mod 10000000 = 0) (logLines l).
Proof.
  intros Hlen Htx.
  destruct (logger_run_counts calls (newBlockProgressLogger start))
    as (H1 & H2 & H3); cbn; try lia; [done|].
  cbn in H1, H2. split; [lia|]. split; [lia|done].
Qed.

Lemma LogBlockHeight_accounts_witness :
  let l := logger_run (newBlockProgressLogger 0) three_blocks in
  sumZ (lineBlocks <$> logLines l) + receivedLogBlocks l = 3
  /\ sumZ (lineTxs <$> logLines l) + receivedLogTx l = 6
  /\ Forall (fun line => 1000000000 * 2 <= lineDuration line
                         /\ lineDuration line mod 10000000 = 0) (logLines l).
Proof.
  exact (LogBlockHeight_accounts 0 three_blocks eq_refl eq_refl).
Defined.

End ProgressLogger.

(** ** Sync manager: orphans and blocks of the header list *)

Section BlockPaths.
Import NetSync.
Context {W : Type} {ext : External W}.
Implicit Types (sm : SyncManager W) (p : Peer).

(** X19. A requested block that the chain files as an orphan, outside
    headers-first mode: the peer is asked for the blocks between the
    node's locator and the root of the orphan's chain, [rejectedTxns]
    is kept, and when the block's coinbase carries a height other than
    0, the peer's height is set to it and announced together with the
    block's hash. *)
Theorem handleBlockMsg_orphan pp b sm st cb w loc :
  peerStates sm !! pp = Some st ->
  BHash b ∈ peerRequestedBlocks st ->
  headersFirstMode sm = false ->
  coinbaseHeight b = Ok cb ->
  ProcessBlock (world sm) b BFNone (default 0 cb) = (w, (true, None)) ->
  LatestBlockLocator w = (loc, None) ->
  exists sm',
    handleBlockMsg pp b sm = Ok sm'
    /\ rejectedTxns sm' = rejectedTxns sm
    /\ requestedBlocks sm' = requestedBlocks sm ∖ {[BHash b]}
    /\ events sm'
       = events sm
         ++ ProcessBlockCall b BFNone (default 0 cb)
         :: PushGetBlocksMsg pp loc (GetOrphanRoot w (BHash b))
         :: match cb with
            | Some h =>
                if h =? 0 then []
                else [UpdateLastBlockHeightCall pp h;
                      UpdatePeerHeights (BHash b) h pp]
            | None => []
            end.
Proof.
  intros Hst Hin Hm Hcb Hpb Hloc. unfold handleBlockMsg. rewrite Hst.
  rewrite bool_decide_eq_true_2 by done. cbn [negb andb].
  unfold handleBlockMsg_process, handleBlockMsg_prepare.
  rewrite Hm. rsimpl. rewrite Hcb. rsimpl. sm_simpl. rewrite Hpb.
  unfold handleBlockMsg_finish. rewrite Hcb. rsimpl. sm_simpl. rewrite Hloc.
  destruct cb as [h|]; rsimpl; sm_simpl.
  - destruct (h =? 0); cbn [negb orb]; sm_simpl; rewrite Hm; cbn [negb];
      (eexists; split; [reflexivity|]); sm_simpl;
      rewrite <- ?app_assoc; by repeat split.
  - rewrite Hm. cbn [negb]. eexists. split; [reflexivity|]. sm_simpl.
    rewrite <- ?app_assoc. by repeat split.
Qed.


End BlockPaths.

Section BlockPathsExamples.
Import NetSync.

Lemma handleBlockMsg_orphan_witness :
  exists sm',
    handleBlockMsg (ext := listed_order) 1%positive block_77 orphan_manager
    = Ok sm'
    /\ events sm'
       = [ProcessBlockCall block_77 BFNone 77;
          PushGetBlocksMsg 1%positive [100%N] 5%N;
          UpdateLastBlockHeightCall 1%positive 77;
          UpdatePeerHeights 5%N 77 1%positive].
Proof.
  destruct (handleBlockMsg_orphan (ext := listed_order) 1%positive block_77
              orphan_manager asked_peer (Some 77) orphan_world [100%N]
              eq_refl asked_for_block_5 eq_refl eq_refl eq_refl eq_refl)
    as (sm' & H1 & _ & _ & H4).
  exists sm'. split; [exact H1|exact H4].
Defined.



End BlockPathsExamples.

(** ** Sync manager: what an inventory message may request *)

Section InvRequests.
Import NetSync.
Context {W : Type} {ext : External W}.
Implicit Types (sm : SyncManager W) (p : Peer).

Lemma InvType_eqb_eq a b : InvType_eqb a b = true -> a = b.
Proof.
  destruct a, b; cbn; try done. intros H. apply N.eqb_eq in H. by subst.
Qed.

Lemma limitMap_subseteq order (m : gset N) limit : limitMap order m limit ⊆ m.
Proof.
  unfold limitMap. destruct (_ >? _); [|done]. destruct order; set_solver.
Qed.

Lemma handleInvMsg_scan_queue p lastBlock invVects :
  forall i sm0 s0,
    peerStates sm0 !! p = Some s0 ->
    requestedBlocks (handleInvMsg_scan p lastBlock i invVects sm0)
    = requestedBlocks sm0
    /\ requestedTxns (handleInvMsg_scan p lastBlock i invVects sm0)
       = requestedTxns sm0
    /\ rejectedTxns (handleInvMsg_scan p lastBlock i invVects sm0)
       = rejectedTxns sm0
    /\ (forall q, q <> p ->
          peerStates (handleInvMsg_scan p lastBlock i invVects sm0) !! q
          = peerStates sm0 !! q)
    /\ exists s1,
         peerStates (handleInvMsg_scan p lastBlock i invVects sm0) !! p = Some s1
         /\ forall iv, iv ∈ requestQueue s1 ->
              iv ∈ requestQueue s0
              \/ (iv ∈ invVects
                  /\ (ivType iv = InvTypeBlock
                      \/ (ivType iv = InvTypeTx
                          /\ ivHash iv ∉ rejectedTxns sm0))).
Proof.
  induction invVects as [|iv rest IH]; intros i sm0 s0 Hs0.
  - cbn. repeat split; try done. exists s0. split; [done|]. by left.
  - cbn [handleInvMsg_scan]. cbv zeta.
    assert (Hstep : forall smx sx,
      requestedBlocks smx = requestedBlocks sm0 ->
      requestedTxns smx = requestedTxns sm0 ->
      rejectedTxns smx = rejectedTxns sm0 ->
      (forall q, q <> p -> peerStates smx !! q = peerStates sm0 !! q) ->
      peerStates smx !! p = Some sx ->
      (forall iv', iv' ∈ requestQueue sx ->
         iv' ∈ requestQueue s0
         \/ (iv' ∈ iv :: rest
             /\ (ivType iv' = InvTypeBlock
                 \/ (ivType iv' = InvTypeTx
                     /\ ivHash iv' ∉ rejectedTxns sm0)))) ->
      requestedBlocks (handleInvMsg_scan p lastBlock (i + 1) rest smx)
      = requestedBlocks sm0
      /\ requestedTxns (handleInvMsg_scan p lastBlock (i + 1) rest smx)
         = requestedTxns sm0
      /\ rejectedTxns (handleInvMsg_scan p lastBlock (i + 1) rest smx)
         = rejectedTxns sm0
      /\ (forall q, q <> p ->
            peerStates (handleInvMsg_scan p lastBlock (i + 1) rest smx) !! q
            = peerStates sm0 !! q)
      /\ exists s1,
           peerStates (handleInvMsg_scan p lastBlock (i + 1) rest smx) !! p
           = Some s1
           /\ forall iv', iv' ∈ requestQueue s1 ->
                iv' ∈ requestQueue s0
                \/ (iv' ∈ iv :: rest
                    /\ (ivType iv' = InvTypeBlock
                        \/ (ivType iv' = InvTypeTx
                            /\ ivHash iv' ∉ rejectedTxns sm0)))).
    { intros smx sx Eb Et Er Eq Ex Hq.
      destruct (IH (i + 1) smx sx Ex) as (I1 & I2 & I3 & I4 & s1 & I5 & I6).
      rewrite I1, I2, I3, Eb, Et, Er. repeat split; try done.
      - intros q Hne. rewrite I4 by done. by apply Eq.
      - exists s1. split; [done|]. intros iv' Hin.
        destruct (I6 iv' Hin) as [Hold|[Hin' Hty]].
        + by apply Hq.
        + right. split; [by right|]. by rewrite <- Er. }
    assert (Hsame : forall smx,
      requestedBlocks smx = requestedBlocks sm0 ->
      requestedTxns smx = requestedTxns sm0 ->
      rejectedTxns smx = rejectedTxns sm0 ->
      peerStates smx = peerStates sm0 ->
      requestedBlocks (handleInvMsg_scan p lastBlock (i + 1) rest smx)
      = requestedBlocks sm0
      /\ requestedTxns (handleInvMsg_scan p lastBlock (i + 1) rest smx)
         = requestedTxns sm0
      /\ rejectedTxns (handleInvMsg_scan p lastBlock (i + 1) rest smx)
         = rejectedTxns sm0
      /\ (forall q, q <> p ->
            peerStates (handleInvMsg_scan p lastBlock (i + 1) rest smx) !! q
            = peerStates sm0 !! q)
      /\ exists s1,
           peerStates (handleInvMsg_scan p lastBlock (i + 1) rest smx) !! p
           = Some s1
           /\ forall iv', iv' ∈ requestQueue s1 ->
                iv' ∈ requestQueue s0
                \/ (iv' ∈ iv :: rest
                    /\ (ivType iv' = InvTypeBlock
                        \/ (ivType iv' = InvTypeTx
                            /\ ivHash iv' ∉ rejectedTxns sm0)))).
    { intros smx Eb Et Er Ep. apply (Hstep smx s0); try done.
      - intros q _. by rewrite Ep.
      - by rewrite Ep.
      - intros iv' Hin. by left. }
    destruct (isBlockInv iv || isTxInv iv) eqn:Hty; cbn [negb];
      [|by apply Hsame].
    sm_simpl. destruct (headersFirstMode sm0); [by apply Hsame|].
    destruct (haveInventory _ iv) as [[|] [e|]]; try by apply Hsame.
    + destruct (isBlockInv iv); [|by apply Hsame].
      destruct (IsKnownOrphan _ _).
      * destruct (LatestBlockLocator _) as [loc [e|]]; by apply Hsame.
      * destruct (_ =? _); by apply Hsame.
    + destruct (isTxInv iv && _) eqn:Hrej; [by apply Hsame|].
      eapply (Hstep _ (set_requestQueue (requestQueue s0 ++ [iv]) s0));
        sm_simpl; try done.
      * intros q Hne. by rewrite lookup_alter_ne.
      * by rewrite lookup_alter_eq, Hs0.
      * cbn [requestQueue set_requestQueue]. intros iv' Hin.
        apply elem_of_app in Hin as [Hin|Hin]; [by left|].
        apply list_elem_of_singleton in Hin as ->. right.
        split; [by left|].
        apply orb_true_iff in Hty as [Hb|Ht].
        -- left. by apply InvType_eqb_eq.
        -- right. split; [by apply InvType_eqb_eq|].
           rewrite Ht in Hrej. cbn [andb] in Hrej.
           by apply bool_decide_eq_false_1 in Hrej.
Qed.

Lemma handleInvMsg_drain_requests p queue :
  forall gdmsg n sm0 sm1 gd' rest,
    handleInvMsg_drain p queue gdmsg n sm0 = (sm1, gd', rest) ->
    (forall h, h ∈ requestedBlocks sm1 ->
       h ∈ requestedBlocks sm0 \/ announced InvTypeBlock queue h)
    /\ (forall h, h ∈ requestedTxns sm1 ->
          h ∈ requestedTxns sm0 \/ announced InvTypeTx queue h)
    /\ (forall q, q <> p -> peerStates sm1 !! q = peerStates sm0 !! q).
Proof.
  induction queue as [|iv queue IH]; intros gdmsg n sm0 sm1 gd' rest.
  - cbn. intros [= <- <- <-]. repeat split; auto.
  - cbn [handleInvMsg_drain]. intros Hrun.
    assert (Hstep : forall smx gdx nx,
      (forall h, h ∈ requestedBlocks smx ->
         h ∈ requestedBlocks sm0 \/ announced InvTypeBlock (iv :: queue) h) ->
      (forall h, h ∈ requestedTxns smx ->
         h ∈ requestedTxns sm0 \/ announced InvTypeTx (iv :: queue) h) ->
      (forall q, q <> p -> peerStates smx !! q = peerStates sm0 !! q) ->
      (if nx >=? MaxInvPerMsg then (smx, gdx, queue)
       else handleInvMsg_drain p queue gdx nx smx) = (sm1, gd', rest) ->
      (forall h, h ∈ requestedBlocks sm1 ->
         h ∈ requestedBlocks sm0 \/ announced InvTypeBlock (iv :: queue) h)
      /\ (forall h, h ∈ requestedTxns sm1 ->
            h ∈ requestedTxns sm0 \/ announced InvTypeTx (iv :: queue) h)
      /\ (forall q, q <> p -> peerStates sm1 !! q = peerStates sm0 !! q)).
    { intros smx gdx nx Hb Ht Hq H. destruct (nx >=? MaxInvPerMsg).
      - by injection H as <- <- <-.
      - apply IH in H as (T1 & T2 & T3). repeat split.
        + intros h Hh. destruct (T1 h Hh) as [Hx|(iv' & Hin & Hty & Hhash)];
            [by apply Hb|].
          right. exists iv'. split; [by right|done].
        + intros h Hh. destruct (T2 h Hh) as [Hx|(iv' & Hin & Hty & Hhash)];
            [by apply Ht|].
          right. exists iv'. split; [by right|done].
        + intros q Hne. rewrite T3 by done. by apply Hq. }
    destruct (ivType iv) eqn:Hty;
      try (eapply Hstep; [| | |exact Hrun]; by auto).
    + destruct (bool_decide (ivHash iv ∈ requestedTxns sm0)).
      * eapply Hstep; [| | |exact Hrun]; by auto.
      * eapply Hstep; [| | |exact Hrun]; sm_simpl; [by auto| |].
        -- intros h Hh. apply limitMap_subseteq in Hh.
           apply elem_of_union in Hh as [Hh|Hh]; [|by left].
           apply elem_of_singleton in Hh as ->. right.
           exists iv. split; [by left|done].
        -- intros q Hne. by rewrite lookup_alter_ne.
    + destruct (bool_decide (ivHash iv ∈ requestedBlocks sm0)).
      * eapply Hstep; [| | |exact Hrun]; by auto.
      * eapply Hstep; [| | |exact Hrun]; sm_simpl; [|by auto|].
        -- intros h Hh. apply limitMap_subseteq in Hh.
           apply elem_of_union in Hh as [Hh|Hh]; [|by left].
           apply elem_of_singleton in Hh as ->. right.
           exists iv. split; [by left|done].
        -- intros q Hne. by rewrite lookup_alter_ne.
Qed.

(** X21. An inventory message only makes the manager ask for what the
    peer announced: a block hash enters [requestedBlocks] only if the
    message, or the peer's request queue, lists it as a block; a
    transaction hash enters [requestedTxns] only if the request queue
    lists it, or the message lists it and it is not in [rejectedTxns];
    the states of the other peers are not touched. *)
Theorem handleInvMsg_requests p invVects sm st :
  peerStates sm !! p = Some st ->
  let sm' := handleInvMsg p invVects sm in
  (forall h, h ∈ requestedBlocks sm' ->
     h ∈ requestedBlocks sm
     \/ announced InvTypeBlock (requestQueue st ++ invVects) h)
  /\ (forall h, h ∈ requestedTxns sm' ->
        h ∈ requestedTxns sm
        \/ announced InvTypeTx (requestQueue st) h
        \/ (announced InvTypeTx invVects h /\ h ∉ rejectedTxns sm))
  /\ (forall q, q <> p -> peerStates sm' !! q = peerStates sm !! q).
Proof.
  intros Hst sm'. subst sm'. unfold handleInvMsg. rewrite Hst. cbv zeta.
  set (sm1 := if _ && (_ || current sm) then _ else sm).
  assert (H1 : sm1 = set_events (events sm1) sm).
  { subst sm1. destruct (_ && _); [done|by destruct sm]. }
  clearbody sm1.
  destruct (_ && negb (current sm1)).
  { rewrite H1. sm_simpl. repeat split; auto. }
  set (sm2 := if _ && current sm1 then _ else sm1).
  assert (H2 : peerStates sm2 = peerStates sm
               /\ requestedBlocks sm2 = requestedBlocks sm
               /\ requestedTxns sm2 = requestedTxns sm
               /\ rejectedTxns sm2 = rejectedTxns sm).
  { subst sm2. destruct (_ && _); [|by rewrite H1].
    destruct (BlockHeightByHash _ _) as [bh [e|]]; sm_simpl; by rewrite H1. }
  clearbody sm2. destruct H2 as (P2 & B2 & T2 & R2).
  assert (Hst2 : peerStates sm2 !! p = Some st) by (by rewrite P2).
  destruct (handleInvMsg_scan_queue p (lastBlockIndex 0 invVects) invVects
              0 sm2 st Hst2) as (S1 & S2 & S3 & S4 & s1 & S5 & S6).
  set (sm3 := handleInvMsg_scan _ _ _ _ sm2) in *. clearbody sm3.
  rewrite S5.
  destruct (handleInvMsg_drain p (requestQueue s1) [] 0 sm3)
    as [[sm4 gd] rq] eqn:Hd.
  apply handleInvMsg_drain_requests in Hd as (D1 & D2 & D3).
  assert (Hres : forall sm5,
    requestedBlocks sm5 = requestedBlocks sm4 ->
    requestedTxns sm5 = requestedTxns sm4 ->
    (forall q, q <> p -> peerStates sm5 !! q = peerStates sm4 !! q) ->
    (forall h, h ∈ requestedBlocks sm5 ->
       h ∈ requestedBlocks sm
       \/ announced InvTypeBlock (requestQueue st ++ invVects) h)
    /\ (forall h, h ∈ requestedTxns sm5 ->
          h ∈ requestedTxns sm
          \/ announced InvTypeTx (requestQueue st) h
          \/ (announced InvTypeTx invVects h /\ h ∉ rejectedTxns sm))
    /\ (forall q, q <> p -> peerStates sm5 !! q = peerStates sm !! q)).
  { intros sm5 E1 E2 E3. repeat split.
    - intros h Hh. rewrite E1 in Hh.
      destruct (D1 h Hh) as [Hx|(iv & Hin & Hty & Hhash)].
      + left. by rewrite <- B2, <- S1.
      + right. exists iv. split; [|done]. apply elem_of_app.
        destruct (S6 iv Hin) as [Hold|[Hnew _]]; auto.
    - intros h Hh. rewrite E2 in Hh.
      destruct (D2 h Hh) as [Hx|(iv & Hin & Hty & Hhash)].
      + left. by rewrite <- T2, <- S2.
      + right. destruct (S6 iv Hin) as [Hold|[Hnew Hgood]].
        * left. by exists iv.
        * right. split; [by exists iv|].
          destruct Hgood as [Hb|[_ Hnr]]; [congruence|].
          by rewrite <- Hhash, <- R2.
    - intros q Hne. rewrite E3, D3, S4 by done. by rewrite P2. }
  destruct (0 <? length gd)%nat; apply Hres; sm_simpl; try done;
    intros q Hne; by rewrite lookup_alter_ne.
Qed.

End InvRequests.

Section InvRequestsExamples.
Import NetSync.

Lemma handleInvMsg_requests_witness :
  (forall h,
     h ∈ requestedBlocks (handleInvMsg (ext := listed_order) 1%positive
                            [mkInvVect InvTypeBlock 6] two_candidates) ->
     h ∈ requestedBlocks two_candidates
     \/ announced InvTypeBlock
          (requestQueue asked_peer ++ [mkInvVect InvTypeBlock 6]) h)
  /\ requestedBlocks (handleInvMsg (ext := listed_order) 1%positive
                        [mkInvVect InvTypeBlock 6] two_candidates)
     = {[5%N; 6%N]}.
Proof.
  split.
  - exact (proj1 (handleInvMsg_requests (ext := listed_order) 1%positive
                    [mkInvVect InvTypeBlock 6] two_candidates asked_peer
                    eq_refl)).
  - vm_compute. reflexivity.
Defined.

End InvRequestsExamples.
